(** * mygo: the MySQL-to-PostgreSQL command translator and its dispatcher

    A shallow embedding of [internal/translator/translator.go],
    [internal/db/db.go] ([New] with the line it prints, [Query],
    [SetDatabase]) and [internal/client/client.go] ([New],
    [executeQuery], [handleSpecialCommand], [printResults] as far as its
    errors go, [getPrompt] and the loop of [Run]), with the properties of
    the translation engine and of the dispatcher stated and proved over it.

    Go strings are byte sequences: a [gostring] is a list of bytes
    ([ascii] holds eight bits, so every byte value is covered). The Go
    library functions the translator calls ([strings.TrimSpace],
    [strings.ToUpper], [strings.Fields], [strings.ReplaceAll],
    [fmt.Sprintf], [regexp]) are modelled first, then the translator. *)

From Stdlib Require Import Ascii String List Bool Arith NArith ZArith Lia.
From Stdlib Require DecimalString.
Import ListNotations.

Set Implicit Arguments.

(** ** Go strings *)

Module GoStrings.

Definition gostring := list ascii.

(** A string literal of the source. *)
Definition lit (s : string) : gostring := list_ascii_of_string s.
Arguments lit s%_string.

Definition byte (n : N) : ascii := ascii_of_N n.
Definition code (c : ascii) : N := N_of_ascii c.

(** The double quote, which the SQL texts contain. *)
Definition DQ : gostring := [byte 34].
Definition NL : ascii := byte 10.
Definition TAB : ascii := byte 9.

Definition tabs (n : nat) : gostring := repeat TAB n.

(** A raw (backquoted) literal that spans several lines. *)
Fixpoint lines (ls : list gostring) : gostring :=
  match ls with
  | [] => []
  | [l] => l
  | l :: rest => l ++ NL :: lines rest
  end.

(** [s == t] on strings. *)
Fixpoint streq (s t : gostring) : bool :=
  match s, t with
  | [], [] => true
  | c :: s', d :: t' => Ascii.eqb c d && streq s' t'
  | _, _ => false
  end.

Definition isNil (s : gostring) : bool :=
  match s with [] => true | _ => false end.

(** [strings.HasPrefix(s, prefix)]. *)
Fixpoint HasPrefix (s prefix : gostring) {struct prefix} : bool :=
  match prefix, s with
  | [], _ => true
  | p :: prefix', c :: s' => Ascii.eqb c p && HasPrefix s' prefix'
  | _ :: _, [] => false
  end.

(** [strings.HasSuffix(s, suffix)]. *)
Definition HasSuffix (s suffix : gostring) : bool :=
  HasPrefix (rev s) (rev suffix).

(** [strings.TrimSuffix(s, suffix)]: [s] without the suffix when it ends
    with it, [s] itself otherwise. At most one copy is removed. *)
Definition TrimSuffix (s suffix : gostring) : gostring :=
  if HasSuffix s suffix then firstn (length s - length suffix) s else s.

(** *** UTF-8 *)

Definition RuneError : N := 0xFFFD.

Definition inRange (lo hi x : N) : bool := ((lo <=? x) && (x <=? hi))%N.

(** A continuation byte, [10xxxxxx]. *)
Definition isCont (x : N) : bool := inRange 0x80 0xBF x.

Definition low6 (x : N) : N := N.land x 0x3F.

(** [utf8.DecodeRuneInString] on a string whose first byte [b0] is not
    ASCII and whose other bytes are [t]: the rune and its width. A byte
    that starts no valid encoding is [RuneError] of width 1. The ranges of
    the second byte are the decoder's [acceptRanges]: they exclude overlong
    encodings, surrogates and values above U+10FFFF. *)
Definition decodeMulti (b0 : N) (t : gostring) : N * nat :=
  let bad := (RuneError, 1%nat) in
  if inRange 0xC2 0xDF b0 then
    match t with
    | c1 :: _ =>
      if isCont (code c1)
      then (N.lor (N.shiftl (N.land b0 0x1F) 6) (low6 (code c1)), 2%nat)
      else bad
    | _ => bad
    end
  else if inRange 0xE0 0xEF b0 then
    match t with
    | c1 :: c2 :: _ =>
      let lo := if (b0 =? 0xE0)%N then 0xA0%N else 0x80%N in
      let hi := if (b0 =? 0xED)%N then 0x9F%N else 0xBF%N in
      if inRange lo hi (code c1) && isCont (code c2)
      then (N.lor (N.shiftl (N.land b0 0x0F) 12)
              (N.lor (N.shiftl (low6 (code c1)) 6) (low6 (code c2))), 3%nat)
      else bad
    | _ => bad
    end
  else if inRange 0xF0 0xF4 b0 then
    match t with
    | c1 :: c2 :: c3 :: _ =>
      let lo := if (b0 =? 0xF0)%N then 0x90%N else 0x80%N in
      let hi := if (b0 =? 0xF4)%N then 0x8F%N else 0xBF%N in
      if inRange lo hi (code c1) && isCont (code c2) && isCont (code c3)
      then (N.lor (N.shiftl (N.land b0 0x07) 18)
              (N.lor (N.shiftl (low6 (code c1)) 12)
                 (N.lor (N.shiftl (low6 (code c2)) 6) (low6 (code c3)))), 4%nat)
      else bad
    | _ => bad
    end
  else bad.

(** [utf8.DecodeRuneInString]. *)
Definition DecodeRune (s : gostring) : N * nat :=
  match s with
  | [] => (RuneError, 0%nat)
  | c :: t => if (code c <? 0x80)%N then (code c, 1%nat) else decodeMulti (code c) t
  end.

(** [utf8.AppendRune]: the encoding of a rune; surrogates and values out
    of range are written as [RuneError]. *)
Definition EncodeRune (r : N) : gostring :=
  let cont (x : N) := byte (N.lor 0x80 (low6 x)) in
  if (r <? 0x80)%N then [byte r]
  else if (r <? 0x800)%N then [byte (N.lor 0xC0 (N.shiftr r 6)); cont r]
  else if inRange 0xD800 0xDFFF r || (0x10FFFF <? r)%N then [byte 0xEF; byte 0xBF; byte 0xBD]
  else if (r <? 0x10000)%N then
    [byte (N.lor 0xE0 (N.shiftr r 12)); cont (N.shiftr r 6); cont r]
  else
    [byte (N.lor 0xF0 (N.shiftr r 18)); cont (N.shiftr r 12); cont (N.shiftr r 6); cont r].

(** *** White space *)

(** [unicode.IsSpace]: the runes with the White_Space property. *)
Definition IsSpace (r : N) : bool :=
  inRange 0x09 0x0D r || (r =? 0x20)%N || (r =? 0x85)%N || (r =? 0xA0)%N
  || (r =? 0x1680)%N || inRange 0x2000 0x200A r || (r =? 0x2028)%N
  || (r =? 0x2029)%N || (r =? 0x202F)%N || (r =? 0x205F)%N || (r =? 0x3000)%N.

(** The width of the white-space rune [s] starts with, 0 when it starts
    with none. *)
Definition spaceWidth (s : gostring) : nat :=
  let (r, w) := DecodeRune s in if IsSpace r then w else 0%nat.

(** [strings.TrimLeftFunc(s, unicode.IsSpace)]: [skip] counts the bytes
    still to drop of the white-space rune being removed. *)
Fixpoint trimLeftFrom (skip : nat) (s : gostring) : gostring :=
  match s with
  | [] => []
  | _ :: s' =>
    match skip with
    | S k => trimLeftFrom k s'
    | O =>
      match spaceWidth s with
      | O => s
      | S k => trimLeftFrom k s'
      end
    end
  end.

Definition TrimLeft (s : gostring) : gostring := trimLeftFrom 0 s.

(** [strings.TrimRightFunc(s, unicode.IsSpace)] removes the white-space
    runes that end [s], read backwards with [utf8.DecodeLastRuneInString].
    A white-space rune is a valid encoding, and an encoding starts with a
    byte that is no continuation byte, so the runes removed are the longest
    suffix of [s] that reads, forwards, as white space only: a suffix is
    kept from its first byte on as soon as it holds anything else. *)
Fixpoint TrimRight (s : gostring) : gostring :=
  match s with
  | [] => []
  | c :: s' => if isNil (TrimLeft s) then [] else c :: TrimRight s'
  end.

(** [strings.TrimSpace]. *)
Definition TrimSpace (s : gostring) : gostring := TrimRight (TrimLeft s).

(** [strings.Fields]: the maximal runs of bytes between white-space runes.
    [cur] is the field being read, [skip] the bytes still to drop of the
    white-space rune being passed. A rune that is no white space is passed
    byte by byte: its continuation bytes start no rune. *)
Definition flush (cur : gostring) : list gostring :=
  match cur with [] => [] | _ => [cur] end.

Fixpoint fieldsFrom (skip : nat) (cur : gostring) (s : gostring) : list gostring :=
  match s with
  | [] => flush cur
  | c :: s' =>
    match skip with
    | S k => fieldsFrom k cur s'
    | O =>
      match spaceWidth s with
      | O => fieldsFrom 0 (cur ++ [c]) s'
      | S k => flush cur ++ fieldsFrom k [] s'
      end
    end
  end.

Definition Fields (s : gostring) : list gostring := fieldsFrom 0 [] s.

(** *** Upper case *)

(** [unicode.ToUpper]. ASCII letters are exact. Of the runes above ASCII,
    the two whose upper case is an ASCII letter are mapped: U+0131
    (dotless i) to [I] and U+017F (long s) to [S]. The Unicode tables send
    every other rune above ASCII to a rune above ASCII; the model leaves
    such a rune as it is. The translator compares upper-cased text with
    ASCII literals only, and no comparison can tell the two apart. *)
Definition unicodeToUpper (r : N) : N :=
  if inRange 0x61 0x7A r then (r - 0x20)%N
  else if (r =? 0x131)%N then 0x49%N
  else if (r =? 0x17F)%N then 0x53%N
  else r.

(** [strings.Map(mapping, s)]: every rune of [s] mapped and encoded
    again; an invalid byte reads as [RuneError]. *)
Fixpoint mapFrom (mapping : N -> N) (skip : nat) (s : gostring) : gostring :=
  match s with
  | [] => []
  | _ :: s' =>
    match skip with
    | S k => mapFrom mapping k s'
    | O =>
      let (r, w) := DecodeRune s in
      EncodeRune (mapping r) ++ mapFrom mapping (w - 1) s'
    end
  end.

(** [strings.ToUpper]. *)
Definition ToUpper (s : gostring) : gostring := mapFrom unicodeToUpper 0 s.

(** *** Replacement and formatting *)

(** [strings.ReplaceAll(s, old, new)] for a non-empty [old] (the three
    calls of the translator pass literals): the occurrences of [old] are
    replaced from the left, without overlap. [skip] counts the bytes still
    to drop of the occurrence being replaced. *)
Fixpoint replaceFrom (old new : gostring) (skip : nat) (s : gostring) : gostring :=
  match s with
  | [] => []
  | c :: s' =>
    match skip with
    | S k => replaceFrom old new k s'
    | O =>
      if HasPrefix s old
      then new ++ replaceFrom old new (length old - 1) s'
      else c :: replaceFrom old new 0 s'
    end
  end.

Definition ReplaceAll (s old new : gostring) : gostring := replaceFrom old new 0 s.

(** [fmt.Sprintf] for the verbs the translator uses: [%s] writes the next
    argument, [%%] a percent sign. A [%s] with no argument left writes
    [%!s(MISSING)], as Go does. *)
Fixpoint Sprintf (format : gostring) (args : list gostring) : gostring :=
  match format with
  | [] => []
  | c :: rest =>
    if Ascii.eqb c "%" then
      match rest with
      | d :: rest' =>
        if Ascii.eqb d "s" then
          match args with
          | a :: args' => a ++ Sprintf rest' args'
          | [] => lit "%!s(MISSING)" ++ Sprintf rest' []
          end
        else if Ascii.eqb d "%" then "%"%char :: Sprintf rest' args
        else c :: d :: Sprintf rest' args
      | [] => lit "%!(NOVERB)"
      end
    else c :: Sprintf rest args
  end.

(** The decimal text of an [int], as the verb [%d] writes it. *)
Definition Itoa (n : Z) : gostring :=
  list_ascii_of_string (DecimalString.NilZero.string_of_int (Z.to_int n)).

End GoStrings.

(** ** Regular expressions *)

(** Every pattern of the translator is written [(?i)^...$]: it is matched
    without regard to case against the whole input. A [regex] holds what
    stands between the two anchors, and [FindStringSubmatch] matches it
    against the string from its first byte to its last.

    Go's matcher returns what a backtracking matcher finds first
    (leftmost-first): an alternation prefers its left branch, and [+], [*]
    and [?] prefer to take more. [rmatch] is that matcher, written with a
    continuation for what follows. *)

Module Regexp.
Import GoStrings.

(** The character classes of the patterns. Go reads the input rune by
    rune. [\s] holds ASCII only. [\w] is [[0-9A-Za-z_]], and under [(?i)]
    Go closes a class under case folding: the class then also holds the
    two runes above ASCII that fold to a letter, U+017F (long s, the bytes
    C5 BF) and U+212A (Kelvin sign, the bytes E2 84 AA). [[^']] holds
    every rune but the ASCII quote, which is no part of the encoding of
    any other rune, so it is decided byte by byte. *)
Inductive class :=
| Space      (* \s = [\t\n\f\r ] *)
| Word       (* \w under (?i) = [0-9A-Za-z_] with U+017F and U+212A *)
| NotQuote.  (* [^'] *)

(** The runes of one byte of a class. *)
Definition inClass (k : class) (c : ascii) : bool :=
  let x := code c in
  match k with
  | Space => (x =? 0x09)%N || (x =? 0x0A)%N || (x =? 0x0C)%N || (x =? 0x0D)%N || (x =? 0x20)%N
  | Word => inRange 0x30 0x39 x || inRange 0x41 0x5A x || (x =? 0x5F)%N || inRange 0x61 0x7A x
  | NotQuote => negb (x =? 0x27)%N
  end.

(** The runes of more than one byte that [\w] holds: [c1 c2] is U+017F,
    [c1 c2 c3] is U+212A. ([[^']] takes such a rune byte by byte.) *)
Definition longS (c1 c2 : ascii) : bool :=
  (code c1 =? 0xC5)%N && (code c2 =? 0xBF)%N.

Definition kelvin (c1 c2 c3 : ascii) : bool :=
  (code c1 =? 0xE2)%N && (code c2 =? 0x84)%N && (code c3 =? 0xAA)%N.

(** The first byte of such a rune. *)
Definition lead (k : class) (c : ascii) : bool :=
  match k with
  | Word => (code c =? 0xC5)%N || (code c =? 0xE2)%N
  | _ => false
  end.

Inductive regex :=
| Empty
| Lit (c : ascii)               (* one literal character, under (?i) *)
| Plus (k : class)              (* k+ *)
| Star (k : class)              (* k* *)
| Opt (r : regex)               (* r? *)
| Seq (r1 r2 : regex)           (* r1 r2 *)
| Alt (r1 r2 : regex)           (* r1|r2 *)
| Group (n : nat) (r : regex).  (* (r), the n-th capturing group *)

(** The representative of a rune's orbit under simple case folding. The
    orbits of [S] and [K] hold a rune above ASCII each: U+017F (long s)
    and U+212A (Kelvin sign). *)
Definition foldKey (r : N) : N :=
  if inRange 0x61 0x7A r then (r - 0x20)%N
  else if (r =? 0x17F)%N then 0x53%N
  else if (r =? 0x212A)%N then 0x4B%N
  else r.

(** The rest of [s] after one rune equal to [c] up to case. *)
Definition matchLit (c : ascii) (s : gostring) : option gostring :=
  let (r, w) := DecodeRune s in
  if (foldKey r =? foldKey (code c))%N then Some (skipn w s) else None.

(** The submatches found so far: group number and text, latest first. *)
Definition captures := list (nat * gostring).

Section Matcher.
Variable A : Type.

(** [k*], taking as many runes as the continuation allows. *)
Fixpoint starClass (k : class) (s : gostring) (cont : gostring -> option A) : option A :=
  let more (r : option A) := match r with Some x => Some x | None => cont s end in
  match s with
  | c :: s' =>
    if inClass k c then more (starClass k s' cont)
    else if lead k c then
      match s' with
      | c2 :: s2 =>
        if longS c c2 then more (starClass k s2 cont)
        else
          match s2 with
          | c3 :: s3 => if kelvin c c2 c3 then more (starClass k s3 cont) else cont s
          | [] => cont s
          end
      | [] => cont s
      end
    else cont s
  | [] => cont s
  end.

(** [k+]: one rune of the class, then [k*]. *)
Definition plusClass (k : class) (s : gostring) (cont : gostring -> option A) : option A :=
  match s with
  | c :: s' =>
    if inClass k c then starClass k s' cont
    else if lead k c then
      match s' with
      | c2 :: s2 =>
        if longS c c2 then starClass k s2 cont
        else
          match s2 with
          | c3 :: s3 => if kelvin c c2 c3 then starClass k s3 cont else None
          | [] => None
          end
      | [] => None
      end
    else None
  | [] => None
  end.

End Matcher.

Fixpoint rmatch (r : regex) (s : gostring) (cs : captures)
  (cont : gostring -> captures -> option captures) : option captures :=
  match r with
  | Empty => cont s cs
  | Lit c =>
    match matchLit c s with
    | Some s' => cont s' cs
    | None => None
    end
  | Plus k => plusClass k s (fun s' => cont s' cs)
  | Star k => starClass k s (fun s' => cont s' cs)
  | Opt r1 =>
    match rmatch r1 s cs cont with
    | Some x => Some x
    | None => cont s cs
    end
  | Seq r1 r2 => rmatch r1 s cs (fun s1 cs1 => rmatch r2 s1 cs1 cont)
  | Alt r1 r2 =>
    match rmatch r1 s cs cont with
    | Some x => Some x
    | None => rmatch r2 s cs cont
    end
  | Group n r1 =>
    rmatch r1 s cs (fun s1 cs1 => cont s1 ((n, firstn (length s - length s1) s) :: cs1))
  end.

(** The number of capturing groups. *)
Fixpoint groups (r : regex) : nat :=
  match r with
  | Empty | Lit _ | Plus _ | Star _ => 0
  | Opt r1 => groups r1
  | Seq r1 r2 | Alt r1 r2 => groups r1 + groups r2
  | Group _ r1 => S (groups r1)
  end.

Fixpoint capture (n : nat) (cs : captures) : gostring :=
  match cs with
  | [] => []
  | (m, text) :: cs' => if Nat.eqb m n then text else capture n cs'
  end.

(** The [$] that ends every pattern. *)
Definition atEnd (s : gostring) (cs : captures) : option captures :=
  match s with [] => Some cs | _ => None end.

(** [re.FindStringSubmatch(s)]: [None] is Go's [nil]; otherwise the whole
    match, then the text of each group ([""] for a group that took no part
    in the match). *)
Definition FindStringSubmatch (re : regex) (s : gostring) : option (list gostring) :=
  match rmatch re s [] atEnd with
  | Some cs => Some (s :: map (fun n => capture n cs) (seq 1 (groups re)))
  | None => None
  end.

(** [matches[i]]. *)
Definition sub (matches : list gostring) (i : nat) : gostring := nth i matches [].

(** A sequence of expressions. *)
Fixpoint cat (rs : list regex) : regex :=
  match rs with
  | [] => Empty
  | [r] => r
  | r :: rs' => Seq r (cat rs')
  end.

(** A literal word. *)
Definition word (w : string) : regex := cat (map Lit (list_ascii_of_string w)).
Arguments word w%_string.

End Regexp.

(** ** The connection (internal/db/db.go) *)

Module DB.
Import GoStrings.

(** [DBType] is a string type with two named values. *)
Definition DBType := gostring.
Definition MySQL : DBType := lit "mysql".
Definition PostgreSQL : DBType := lit "pg".

Record Config := {
  Host : gostring;
  Port : Z;
  User : gostring;
  Password : gostring;
  Database : gostring;
  Config_DBType : DBType;
  SSLMode : gostring
}.

(** [c.Config.Database = dbName]. *)
Definition withDatabase (cfg : Config) (dbName : gostring) : Config :=
  {| Host := Host cfg; Port := Port cfg; User := User cfg; Password := Password cfg;
     Database := dbName; Config_DBType := Config_DBType cfg; SSLMode := SSLMode cfg |}.

(** A [*sql.DB]: the settings it was opened with (they stand for the data
    source name built from them) and whether [Close] was called on it. *)
Record sqlDB := { target : Config; closed : bool }.

Definition sqlDB_Close (d : sqlDB) : sqlDB := {| target := target d; closed := true |}.

Record Connection := { DB : sqlDB; Conn_Config : Config }.

Inductive error :=
| Errorf (msg : gostring)       (* fmt.Errorf, the text written out *)
| OpenFailed (cfg : Config)     (* "failed to open database: ..." around the error of sql.Open *)
| ConnectFailed (cfg : Config)  (* "failed to connect to database: ..." around the error of Ping *)
| DatabaseClosed                (* database/sql: "sql: database is closed" *)
| QueryFailed (q : gostring)    (* the server's error for a query *)
| RowsFailed (q : gostring).    (* an error of rows.Columns, rows.Scan or rows.Err *)

(** The database driver and server as the client meets them: whether
    [sql.Open] takes the data source name built from given settings,
    whether [Ping] then succeeds, whether a query runs without error on a
    connection opened with them, and whether its rows are then read
    without error. *)
Record Server := {
  opens : Config -> bool;
  accepts : Config -> bool;
  answers : Config -> gostring -> bool;
  delivers : Config -> gostring -> bool
}.

(** The line [New] prints for PostgreSQL before it opens the connection
    (the settings as they are, the SSL mode not defaulted). *)
Definition connecting (cfg : Config) : gostring :=
  lit "Connecting to PostgreSQL: host=" ++ Host cfg
  ++ lit " port=" ++ Itoa (Port cfg)
  ++ lit " user=" ++ User cfg
  ++ lit " dbname=" ++ Database cfg
  ++ lit " sslmode=" ++ SSLMode cfg ++ [NL].

(** [New]: the lines it prints, and what it returns. A type that is
    neither of the two fails before anything is printed; the line for
    PostgreSQL is printed before [sql.Open], so it is printed on a failure
    as well. *)
Definition New (srv : Server) (cfg : Config) : list gostring * (Connection + error) :=
  if streq (Config_DBType cfg) MySQL || streq (Config_DBType cfg) PostgreSQL then
    let printed := if streq (Config_DBType cfg) PostgreSQL then [connecting cfg] else [] in
    if opens srv cfg then
      if accepts srv cfg
      then (printed, inl {| DB := {| target := cfg; closed := false |}; Conn_Config := cfg |})
      else (printed, inr (ConnectFailed cfg))
    else (printed, inr (OpenFailed cfg))
  else ([], inr (Errorf (Sprintf (lit "unsupported database type: %s") [Config_DBType cfg]))).

(** [Close]. *)
Definition Close (c : Connection) : Connection :=
  {| DB := sqlDB_Close (DB c); Conn_Config := Conn_Config c |}.

(** [Query]: the error it returns, if any; the rows are not modelled. *)
Definition Query (srv : Server) (c : Connection) (q : gostring) : option error :=
  if closed (DB c) then Some DatabaseClosed
  else if answers srv (target (DB c)) q then None
  else Some (QueryFailed q).

(** [GetCurrentDatabase]. *)
Definition GetCurrentDatabase (c : Connection) : gostring := Database (Conn_Config c).

(** [SetDatabase]: the lines printed (by [New]), the receiver after the
    call, and the error returned. The receiver is updated in place,
    statement by statement: the name is stored, the handle is closed, and
    only then a new connection is opened. *)
Definition SetDatabase (srv : Server) (c : Connection) (dbName : gostring)
  : list gostring * Connection * option error :=
  let c := {| DB := DB c; Conn_Config := withDatabase (Conn_Config c) dbName |} in
  let c := Close c in
  match New srv (Conn_Config c) with
  | (printed, inr err) => (printed, c, Some err)
  | (printed, inl newConn) =>
    (printed, {| DB := DB newConn; Conn_Config := Conn_Config c |}, None)
  end.

End DB.

(** ** The translator (internal/translator/translator.go) *)

Module Translator.
Import GoStrings Regexp.

Record Translator := New { dbType : DB.DBType }.

Record TranslationResult := {
  Query : gostring;
  IsSpecial : bool;
  SpecialType : gostring;
  Args : list gostring
}.

(** What a call returns: a result with a nil error, or a nil result with
    an error (its message). [Panic] is a run-time panic of the call. *)
Inductive outcome :=
| Ok (r : TranslationResult)
| Err (msg : gostring)
| Panic.

(** [&TranslationResult{Query: q}]: the struct literal, written short. *)
Abbreviation query q :=
  {| Query := q; IsSpecial := false; SpecialType := []; Args := [] |}.

(** [&TranslationResult{IsSpecial: true, SpecialType: kind, Args: args}],
    likewise. *)
Abbreviation special kind args :=
  {| Query := []; IsSpecial := true; SpecialType := kind; Args := args |}.

(** *** The query texts *)

(** translator.go, line 55. *)
Definition sqlShowDatabases : gostring :=
  lit "SELECT datname AS " ++ DQ ++ lit "Database" ++ DQ ++ lit " FROM pg_database WHERE datistemplate = false ORDER BY datname".

(** translator.go, line 62. *)
Definition sqlShowTables : gostring :=
  lines
    [ lit "SELECT tablename AS " ++ DQ ++ lit "Tables_in_database" ++ DQ ++ lit " ";
      tabs 5 ++ lit "FROM pg_tables ";
      tabs 5 ++ lit "WHERE schemaname = 'public' ";
      tabs 5 ++ lit "ORDER BY tablename" ].

(** translator.go, line 72. *)
Definition sqlShowFullTables : gostring :=
  lines
    [ lit "SELECT tablename AS " ++ DQ ++ lit "Tables_in_database" ++ DQ ++ lit ", ";
      tabs 5 ++ lit "'BASE TABLE' AS " ++ DQ ++ lit "Table_type" ++ DQ;
      tabs 5 ++ lit "FROM pg_tables ";
      tabs 5 ++ lit "WHERE schemaname = 'public' ";
      tabs 5 ++ lit "ORDER BY tablename" ].

(** translator.go, line 85. *)
Definition fmtShowTablesFrom : gostring :=
  lines
    [ lit "SELECT tablename AS " ++ DQ ++ lit "Tables_in_%s" ++ DQ ++ lit " ";
      tabs 5 ++ lit "FROM pg_tables ";
      tabs 5 ++ lit "WHERE schemaname = 'public' ";
      tabs 5 ++ lit "ORDER BY tablename" ].

(** translator.go, line 100. *)
Definition fmtShowColumns : gostring :=
  lines
    [ lit "SELECT ";
      tabs 4 ++ lit "column_name AS " ++ DQ ++ lit "Field" ++ DQ ++ lit ",";
      tabs 4 ++ lit "data_type AS " ++ DQ ++ lit "Type" ++ DQ ++ lit ",";
      tabs 4 ++ lit "CASE WHEN is_nullable = 'YES' THEN 'YES' ELSE 'NO' END AS " ++ DQ ++ lit "Null" ++ DQ ++ lit ",";
      tabs 4 ++ lit "CASE ";
      tabs 5 ++ lit "WHEN column_default LIKE 'nextval%%' THEN 'PRI'";
      tabs 5 ++ lit "ELSE ''";
      tabs 4 ++ lit "END AS " ++ DQ ++ lit "Key" ++ DQ ++ lit ",";
      tabs 4 ++ lit "column_default AS " ++ DQ ++ lit "Default" ++ DQ ++ lit ",";
      tabs 4 ++ lit "CASE ";
      tabs 5 ++ lit "WHEN column_default LIKE 'nextval%%' THEN 'auto_increment'";
      tabs 5 ++ lit "ELSE ''";
      tabs 4 ++ lit "END AS " ++ DQ ++ lit "Extra" ++ DQ;
      tabs 3 ++ lit "FROM information_schema.columns ";
      tabs 3 ++ lit "WHERE table_schema = 'public' AND table_name = '%s'";
      tabs 3 ++ lit "ORDER BY ordinal_position" ].

(** translator.go, line 124. *)
Definition fmtShowFullColumns : gostring :=
  lines
    [ lit "SELECT ";
      tabs 4 ++ lit "column_name AS " ++ DQ ++ lit "Field" ++ DQ ++ lit ",";
      tabs 4 ++ lit "data_type AS " ++ DQ ++ lit "Type" ++ DQ ++ lit ",";
      tabs 4 ++ lit "character_set_name AS " ++ DQ ++ lit "Collation" ++ DQ ++ lit ",";
      tabs 4 ++ lit "CASE WHEN is_nullable = 'YES' THEN 'YES' ELSE 'NO' END AS " ++ DQ ++ lit "Null" ++ DQ ++ lit ",";
      tabs 4 ++ lit "'' AS " ++ DQ ++ lit "Key" ++ DQ ++ lit ",";
      tabs 4 ++ lit "column_default AS " ++ DQ ++ lit "Default" ++ DQ ++ lit ",";
      tabs 4 ++ lit "'' AS " ++ DQ ++ lit "Extra" ++ DQ ++ lit ",";
      tabs 4 ++ lit "'select,insert,update,references' AS " ++ DQ ++ lit "Privileges" ++ DQ ++ lit ",";
      tabs 4 ++ lit "'' AS " ++ DQ ++ lit "Comment" ++ DQ;
      tabs 3 ++ lit "FROM information_schema.columns ";
      tabs 3 ++ lit "WHERE table_schema = 'public' AND table_name = '%s'";
      tabs 3 ++ lit "ORDER BY ordinal_position" ].

(** translator.go, line 167. *)
Definition fmtShowIndex : gostring :=
  lines
    [ lit "SELECT ";
      tabs 4 ++ lit "schemaname AS " ++ DQ ++ lit "Table" ++ DQ ++ lit ",";
      tabs 4 ++ lit "indexname AS " ++ DQ ++ lit "Key_name" ++ DQ ++ lit ",";
      tabs 4 ++ lit "indexdef AS " ++ DQ ++ lit "Index_definition" ++ DQ;
      tabs 3 ++ lit "FROM pg_indexes ";
      tabs 3 ++ lit "WHERE schemaname = 'public' AND tablename = '%s'" ].

(** translator.go, line 179. *)
Definition sqlShowStatus : gostring :=
  lines
    [ lit "SELECT name AS " ++ DQ ++ lit "Variable_name" ++ DQ ++ lit ", setting AS " ++ DQ ++ lit "Value" ++ DQ ++ lit " ";
      tabs 5 ++ lit "FROM pg_settings ";
      tabs 5 ++ lit "ORDER BY name ";
      tabs 5 ++ lit "LIMIT 50" ].

(** translator.go, line 189. *)
Definition sqlShowVariables : gostring :=
  lines
    [ lit "SELECT name AS " ++ DQ ++ lit "Variable_name" ++ DQ ++ lit ", setting AS " ++ DQ ++ lit "Value" ++ DQ ++ lit " ";
      tabs 5 ++ lit "FROM pg_settings ";
      tabs 5 ++ lit "ORDER BY name" ].

(** translator.go, line 202. *)
Definition fmtShowVariablesLike : gostring :=
  lines
    [ lit "SELECT name AS " ++ DQ ++ lit "Variable_name" ++ DQ ++ lit ", setting AS " ++ DQ ++ lit "Value" ++ DQ ++ lit " ";
      tabs 5 ++ lit "FROM pg_settings ";
      tabs 5 ++ lit "WHERE name ~ '%s'";
      tabs 5 ++ lit "ORDER BY name" ].

(** translator.go, line 212. *)
Definition sqlShowProcesslist : gostring :=
  lines
    [ lit "SELECT ";
      tabs 4 ++ lit "pid AS " ++ DQ ++ lit "Id" ++ DQ ++ lit ",";
      tabs 4 ++ lit "usename AS " ++ DQ ++ lit "User" ++ DQ ++ lit ",";
      tabs 4 ++ lit "client_addr AS " ++ DQ ++ lit "Host" ++ DQ ++ lit ",";
      tabs 4 ++ lit "datname AS " ++ DQ ++ lit "db" ++ DQ ++ lit ",";
      tabs 4 ++ lit "state AS " ++ DQ ++ lit "Command" ++ DQ ++ lit ",";
      tabs 4 ++ lit "EXTRACT(EPOCH FROM (now() - query_start))::int AS " ++ DQ ++ lit "Time" ++ DQ ++ lit ",";
      tabs 4 ++ lit "state AS " ++ DQ ++ lit "State" ++ DQ ++ lit ",";
      tabs 4 ++ lit "query AS " ++ DQ ++ lit "Info" ++ DQ;
      tabs 3 ++ lit "FROM pg_stat_activity ";
      tabs 3 ++ lit "WHERE pid <> pg_backend_pid()" ].

(** translator.go, line 229. *)
Definition sqlShowGrants : gostring :=
  lines
    [ lit "SELECT ";
      tabs 4 ++ lit "grantee AS " ++ DQ ++ lit "User" ++ DQ ++ lit ",";
      tabs 4 ++ lit "privilege_type AS " ++ DQ ++ lit "Privilege" ++ DQ ++ lit ",";
      tabs 4 ++ lit "table_schema || '.' || table_name AS " ++ DQ ++ lit "On" ++ DQ;
      tabs 3 ++ lit "FROM information_schema.role_table_grants ";
      tabs 3 ++ lit "WHERE grantee = current_user" ].

(** translator.go, line 243. *)
Definition fmtShowGrantsFor : gostring :=
  lines
    [ lit "SELECT ";
      tabs 4 ++ lit "grantee AS " ++ DQ ++ lit "User" ++ DQ ++ lit ",";
      tabs 4 ++ lit "privilege_type AS " ++ DQ ++ lit "Privilege" ++ DQ ++ lit ",";
      tabs 4 ++ lit "table_schema || '.' || table_name AS " ++ DQ ++ lit "On" ++ DQ;
      tabs 3 ++ lit "FROM information_schema.role_table_grants ";
      tabs 3 ++ lit "WHERE grantee = '%s'" ].

(** translator.go, line 255. *)
Definition sqlShowTableStatus : gostring :=
  lines
    [ lit "SELECT ";
      tabs 4 ++ lit "relname AS " ++ DQ ++ lit "Name" ++ DQ ++ lit ",";
      tabs 4 ++ lit "CASE relkind WHEN 'r' THEN 'BASE TABLE' WHEN 'v' THEN 'VIEW' END AS " ++ DQ ++ lit "Engine" ++ DQ ++ lit ",";
      tabs 4 ++ lit "pg_size_pretty(pg_total_relation_size(oid)) AS " ++ DQ ++ lit "Data_length" ++ DQ ++ lit ",";
      tabs 4 ++ lit "n_live_tup AS " ++ DQ ++ lit "Rows" ++ DQ;
      tabs 3 ++ lit "FROM pg_stat_user_tables ";
      tabs 3 ++ lit "JOIN pg_class ON relname = pg_stat_user_tables.relname";
      tabs 3 ++ lit "WHERE schemaname = 'public'" ].

(** translator.go, line 269. *)
Definition sqlShowSchemas : gostring :=
  lines
    [ lit "SELECT schema_name AS " ++ DQ ++ lit "Database" ++ DQ ++ lit " ";
      tabs 5 ++ lit "FROM information_schema.schemata ";
      tabs 5 ++ lit "ORDER BY schema_name" ].

(** translator.go, line 278. *)
Definition sqlShowTriggers : gostring :=
  lines
    [ lit "SELECT ";
      tabs 4 ++ lit "trigger_name AS " ++ DQ ++ lit "Trigger" ++ DQ ++ lit ",";
      tabs 4 ++ lit "event_manipulation AS " ++ DQ ++ lit "Event" ++ DQ ++ lit ",";
      tabs 4 ++ lit "event_object_table AS " ++ DQ ++ lit "Table" ++ DQ ++ lit ",";
      tabs 4 ++ lit "action_statement AS " ++ DQ ++ lit "Statement" ++ DQ ++ lit ",";
      tabs 4 ++ lit "action_timing AS " ++ DQ ++ lit "Timing" ++ DQ;
      tabs 3 ++ lit "FROM information_schema.triggers ";
      tabs 3 ++ lit "WHERE trigger_schema = 'public'" ].

(** translator.go, line 292. *)
Definition sqlShowRoutines : gostring :=
  lines
    [ lit "SELECT ";
      tabs 4 ++ lit "routine_name AS " ++ DQ ++ lit "Name" ++ DQ ++ lit ",";
      tabs 4 ++ lit "routine_type AS " ++ DQ ++ lit "Type" ++ DQ ++ lit ",";
      tabs 4 ++ lit "routine_schema AS " ++ DQ ++ lit "Db" ++ DQ ++ lit ",";
      tabs 4 ++ lit "external_language AS " ++ DQ ++ lit "Language" ++ DQ;
      tabs 3 ++ lit "FROM information_schema.routines ";
      tabs 3 ++ lit "WHERE routine_schema = 'public'" ].

(** translator.go, line 315. *)
Definition sqlShowEngines : gostring :=
  lines
    [ lit "SELECT ";
      tabs 4 ++ lit "'PostgreSQL' AS " ++ DQ ++ lit "Engine" ++ DQ ++ lit ",";
      tabs 4 ++ lit "'DEFAULT' AS " ++ DQ ++ lit "Support" ++ DQ ++ lit ",";
      tabs 4 ++ lit "'PostgreSQL native storage' AS " ++ DQ ++ lit "Comment" ++ DQ ].

(** translator.go, line 325. *)
Definition sqlShowCharset : gostring :=
  lines
    [ lit "SELECT ";
      tabs 4 ++ lit "pg_encoding_to_char(encoding) AS " ++ DQ ++ lit "Charset" ++ DQ ++ lit ",";
      tabs 4 ++ lit "pg_encoding_to_char(encoding) AS " ++ DQ ++ lit "Description" ++ DQ ++ lit ",";
      tabs 4 ++ lit "'UTF-8' AS " ++ DQ ++ lit "Default collation" ++ DQ;
      tabs 3 ++ lit "FROM pg_database ";
      tabs 3 ++ lit "WHERE datname = current_database()" ].

(** translator.go, line 337. *)
Definition sqlShowCollation : gostring :=
  lines
    [ lit "SELECT ";
      tabs 4 ++ lit "collname AS " ++ DQ ++ lit "Collation" ++ DQ ++ lit ",";
      tabs 4 ++ lit "'utf8' AS " ++ DQ ++ lit "Charset" ++ DQ;
      tabs 3 ++ lit "FROM pg_collation ";
      tabs 3 ++ lit "LIMIT 50" ].

(** translator.go, line 348. *)
Definition sqlShowWarnings : gostring :=
  lit "SELECT 'Note' AS " ++ DQ ++ lit "Level" ++ DQ ++ lit ", 0 AS " ++ DQ ++ lit "Code" ++ DQ ++ lit ", 'PostgreSQL does not store warnings/errors like MySQL' AS " ++ DQ ++ lit "Message" ++ DQ.

(** translator.go, line 355. *)
Definition sqlSelectDatabase : gostring :=
  lit "SELECT current_database() AS " ++ DQ ++ lit "database()" ++ DQ.

(** translator.go, line 362. *)
Definition sqlSelectVersion : gostring :=
  lit "SELECT version() AS " ++ DQ ++ lit "version()" ++ DQ.

(** translator.go, line 369. *)
Definition sqlSelectUser : gostring :=
  lit "SELECT current_user AS " ++ DQ ++ lit "user()" ++ DQ.

(** translator.go, line 376. *)
Definition sqlSelectNow : gostring :=
  lit "SELECT now() AS " ++ DQ ++ lit "now()" ++ DQ.

(** translator.go, line 398. *)
Definition sqlListDatabases : gostring :=
  lit "SELECT datname AS " ++ DQ ++ lit "Database" ++ DQ ++ lit " FROM pg_database WHERE datistemplate = false ORDER BY datname".

(** translator.go, line 404. *)
Definition sqlListTables : gostring :=
  lit "SELECT tablename AS " ++ DQ ++ lit "Tables" ++ DQ ++ lit " FROM pg_tables WHERE schemaname = 'public' ORDER BY tablename".

(** translator.go, line 410. *)
Definition sqlListTablesSize : gostring :=
  lines
    [ lit "SELECT ";
      tabs 4 ++ lit "tablename AS " ++ DQ ++ lit "Name" ++ DQ ++ lit ",";
      tabs 4 ++ lit "pg_size_pretty(pg_total_relation_size(schemaname || '.' || tablename)) AS " ++ DQ ++ lit "Size" ++ DQ;
      tabs 3 ++ lit "FROM pg_tables ";
      tabs 3 ++ lit "WHERE schemaname = 'public' ";
      tabs 3 ++ lit "ORDER BY tablename" ].

(** translator.go, line 423. *)
Definition fmtDescribeRelation : gostring :=
  lines
    [ lit "SELECT ";
      tabs 5 ++ lit "column_name AS " ++ DQ ++ lit "Column" ++ DQ ++ lit ",";
      tabs 5 ++ lit "data_type AS " ++ DQ ++ lit "Type" ++ DQ ++ lit ",";
      tabs 5 ++ lit "CASE WHEN is_nullable = 'YES' THEN 'YES' ELSE 'NO' END AS " ++ DQ ++ lit "Nullable" ++ DQ;
      tabs 4 ++ lit "FROM information_schema.columns ";
      tabs 4 ++ lit "WHERE table_schema = 'public' AND table_name = '%s'";
      tabs 4 ++ lit "ORDER BY ordinal_position" ].

(** translator.go, line 434. *)
Definition sqlListRelations : gostring :=
  lines
    [ lit "SELECT tablename AS " ++ DQ ++ lit "Name" ++ DQ ++ lit ", 'table' AS " ++ DQ ++ lit "Type" ++ DQ ++ lit " FROM pg_tables WHERE schemaname = 'public'";
      tabs 5 ++ lit "UNION ALL";
      tabs 5 ++ lit "SELECT viewname AS " ++ DQ ++ lit "Name" ++ DQ ++ lit ", 'view' AS " ++ DQ ++ lit "Type" ++ DQ ++ lit " FROM pg_views WHERE schemaname = 'public'";
      tabs 5 ++ lit "ORDER BY " ++ DQ ++ lit "Name" ++ DQ ].

(** translator.go, line 443. *)
Definition sqlListIndexes : gostring :=
  lit "SELECT indexname AS " ++ DQ ++ lit "Index" ++ DQ ++ lit ", tablename AS " ++ DQ ++ lit "Table" ++ DQ ++ lit " FROM pg_indexes WHERE schemaname = 'public'".

(** translator.go, line 449. *)
Definition sqlListViews : gostring :=
  lit "SELECT viewname AS " ++ DQ ++ lit "View" ++ DQ ++ lit " FROM pg_views WHERE schemaname = 'public'".

(** translator.go, line 455. *)
Definition sqlListFunctions : gostring :=
  lines
    [ lit "SELECT routine_name AS " ++ DQ ++ lit "Function" ++ DQ ++ lit ", data_type AS " ++ DQ ++ lit "Return Type" ++ DQ ++ lit " ";
      tabs 5 ++ lit "FROM information_schema.routines ";
      tabs 5 ++ lit "WHERE routine_schema = 'public' AND routine_type = 'FUNCTION'" ].

(** translator.go, line 463. *)
Definition sqlListRoles : gostring :=
  lines
    [ lit "SELECT rolname AS " ++ DQ ++ lit "Role" ++ DQ ++ lit ", ";
      tabs 5 ++ lit "CASE WHEN rolsuper THEN 'Superuser' ELSE '' END AS " ++ DQ ++ lit "Attributes" ++ DQ;
      tabs 5 ++ lit "FROM pg_roles ORDER BY rolname" ].

(** translator.go, line 471. *)
Definition sqlListSchemas : gostring :=
  lit "SELECT schema_name AS " ++ DQ ++ lit "Schema" ++ DQ ++ lit " FROM information_schema.schemata ORDER BY schema_name".
(** *** The patterns *)

(** [\s+] *)
Definition sp : regex := Plus Space.

(** [(?i)^SHOW\s+TABLES\s+(FROM|IN)\s+(\w+)$] *)
Definition showTablesFromRe : regex :=
  cat [word "SHOW"; sp; word "TABLES"; sp; Group 1 (Alt (word "FROM") (word "IN")); sp;
       Group 2 (Plus Word)].

(** [(?i)^(SHOW\s+COLUMNS\s+FROM|DESC|DESCRIBE)\s+(\w+)$] *)
Definition showColumnsRe : regex :=
  cat [Group 1 (Alt (cat [word "SHOW"; sp; word "COLUMNS"; sp; word "FROM"])
                 (Alt (word "DESC") (word "DESCRIBE")));
       sp; Group 2 (Plus Word)].

(** [(?i)^SHOW\s+FULL\s+COLUMNS\s+FROM\s+(\w+)$] *)
Definition showFullColumnsRe : regex :=
  cat [word "SHOW"; sp; word "FULL"; sp; word "COLUMNS"; sp; word "FROM"; sp;
       Group 1 (Plus Word)].

(** [(?i)^SHOW\s+CREATE\s+TABLE\s+(\w+)$] *)
Definition showCreateTableRe : regex :=
  cat [word "SHOW"; sp; word "CREATE"; sp; word "TABLE"; sp; Group 1 (Plus Word)].

(** [(?i)^SHOW\s+CREATE\s+DATABASE\s+(\w+)$] *)
Definition showCreateDatabaseRe : regex :=
  cat [word "SHOW"; sp; word "CREATE"; sp; word "DATABASE"; sp; Group 1 (Plus Word)].

(** [(?i)^SHOW\s+(INDEX|INDEXES|KEYS)\s+FROM\s+(\w+)$] *)
Definition showIndexRe : regex :=
  cat [word "SHOW"; sp;
       Group 1 (Alt (word "INDEX") (Alt (word "INDEXES") (word "KEYS")));
       sp; word "FROM"; sp; Group 2 (Plus Word)].

(** [(?i)^SHOW\s+(GLOBAL\s+)?VARIABLES\s+LIKE\s+'([^']+)'$] *)
Definition showVarsLikeRe : regex :=
  cat [word "SHOW"; sp; Opt (Group 1 (cat [word "GLOBAL"; sp])); word "VARIABLES"; sp;
       word "LIKE"; sp; Lit "'"; Group 2 (Plus NotQuote); Lit "'"].

(** [(?i)^SHOW\s+GRANTS\s+FOR\s+'?(\w+)'?(@'?[^']*'?)?$] *)
Definition showGrantsForRe : regex :=
  cat [word "SHOW"; sp; word "GRANTS"; sp; word "FOR"; sp; Opt (Lit "'");
       Group 1 (Plus Word); Opt (Lit "'");
       Opt (Group 2 (cat [Lit "@"; Opt (Lit "'"); Star NotQuote; Opt (Lit "'")]))].

(** [(?i)^USE\s+(\w+)$] *)
Definition useDbRe : regex :=
  cat [word "USE"; sp; Group 1 (Plus Word)].

(** *** The rules *)

(** [handleHelpCommands]: the [--help] forms; [None] is the nil result. *)
Definition handleHelpCommands (input : gostring) : option TranslationResult :=
  let upperInput := ToUpper (TrimSpace input) in
  if streq upperInput (lit "SHOW --HELP") then
    Some (special (lit "show_help") [])
  else if streq upperInput (lit "SHOW CREATE --HELP") then
    Some (special (lit "show_create_help") [])
  else if streq upperInput (lit "SHOW TABLES --HELP") then
    Some (special (lit "show_tables_help") [])
  else if streq upperInput (lit "SHOW COLUMNS --HELP")
          || streq upperInput (lit "DESC --HELP")
          || streq upperInput (lit "DESCRIBE --HELP") then
    Some (special (lit "show_columns_help") [])
  else None.

(** [cmd] is one of the [case] labels of [translateBackslashCommand]. *)
Definition anyOf (cmd : gostring) (labels : list gostring) : bool :=
  existsb (streq cmd) labels.

(** [translateBackslashCommand]. [parts[0]] panics on an input without a
    field. *)
Definition translateBackslashCommand (input : gostring) : outcome :=
  let input := TrimSpace input in
  let parts := Fields input in
  match parts with
  | [] => Panic
  | cmd :: _ =>
    if anyOf cmd [lit "\l"; lit "\list"] then Ok (query sqlListDatabases)
    else if anyOf cmd [lit "\dt"] then Ok (query sqlListTables)
    else if anyOf cmd [lit "\dt+"] then Ok (query sqlListTablesSize)
    else if anyOf cmd [lit "\d"] then
      if 1 <? length parts
      then let tableName := sub parts 1 in
           Ok (query (Sprintf fmtDescribeRelation [tableName]))
      else Ok (query sqlListRelations)
    else if anyOf cmd [lit "\di"] then Ok (query sqlListIndexes)
    else if anyOf cmd [lit "\dv"] then Ok (query sqlListViews)
    else if anyOf cmd [lit "\df"] then Ok (query sqlListFunctions)
    else if anyOf cmd [lit "\du"] then Ok (query sqlListRoles)
    else if anyOf cmd [lit "\dn"] then Ok (query sqlListSchemas)
    else if anyOf cmd [lit "\c"; lit "\connect"] then
      if 1 <? length parts
      then Ok (special (lit "use_database") [sub parts 1])
      else Err (lit "usage: \c database_name")
    else if anyOf cmd [lit "\q"; lit "\quit"] then Ok (special (lit "quit") [])
    else if anyOf cmd [lit "\?"; lit "\help"] then Ok (special (lit "help") [])
    else if anyOf cmd [lit "\x"] then Ok (special (lit "toggle_expanded") [])
    else Err (Sprintf (lit "unknown command: %s") [cmd])
  end.

(** [translateForPostgres]: the rules in the order of the source, the
    first that applies decides. *)
Definition translateForPostgres (input : gostring) : outcome :=
  let trimmedInput := TrimSuffix input (lit ";") in
  let upperTrimmed := ToUpper trimmedInput in
  match handleHelpCommands trimmedInput with
  | Some result => Ok result
  | None =>
  if streq upperTrimmed (lit "SHOW DATABASES") then Ok (query sqlShowDatabases) else
  if streq upperTrimmed (lit "SHOW TABLES") then Ok (query sqlShowTables) else
  if streq upperTrimmed (lit "SHOW FULL TABLES") then Ok (query sqlShowFullTables) else
  match FindStringSubmatch showTablesFromRe trimmedInput with
  | Some matches =>
    let dbName := sub matches 2 in
    Ok {| Query := Sprintf fmtShowTablesFrom [dbName];
          IsSpecial := true;
          SpecialType := lit "cross_db_query";
          Args := [dbName] |}
  | None =>
  match FindStringSubmatch showColumnsRe trimmedInput with
  | Some matches =>
    let tableName := sub matches 2 in
    Ok (query (Sprintf fmtShowColumns [tableName]))
  | None =>
  match FindStringSubmatch showFullColumnsRe trimmedInput with
  | Some matches =>
    let tableName := sub matches 1 in
    Ok (query (Sprintf fmtShowFullColumns [tableName]))
  | None =>
  match FindStringSubmatch showCreateTableRe trimmedInput with
  | Some matches =>
    let tableName := sub matches 1 in
    Ok (special (lit "show_create_table") [tableName])
  | None =>
  match FindStringSubmatch showCreateDatabaseRe trimmedInput with
  | Some matches =>
    let dbName := sub matches 1 in
    Ok (special (lit "show_create_database") [dbName])
  | None =>
  match FindStringSubmatch showIndexRe trimmedInput with
  | Some matches =>
    let tableName := sub matches 2 in
    Ok (query (Sprintf fmtShowIndex [tableName]))
  | None =>
  if streq upperTrimmed (lit "SHOW STATUS") then Ok (query sqlShowStatus) else
  if streq upperTrimmed (lit "SHOW VARIABLES")
     || streq upperTrimmed (lit "SHOW GLOBAL VARIABLES") then Ok (query sqlShowVariables) else
  match FindStringSubmatch showVarsLikeRe trimmedInput with
  | Some matches =>
    let pattern := ReplaceAll (sub matches 2) (lit "%") (lit "%%") in
    let pattern := ReplaceAll pattern (lit "_") (lit ".") in
    let pattern := ReplaceAll pattern (lit "%%") (lit ".*") in
    Ok (query (Sprintf fmtShowVariablesLike [pattern]))
  | None =>
  if streq upperTrimmed (lit "SHOW PROCESSLIST")
     || streq upperTrimmed (lit "SHOW FULL PROCESSLIST") then Ok (query sqlShowProcesslist) else
  if streq upperTrimmed (lit "SHOW GRANTS") then Ok (query sqlShowGrants) else
  match FindStringSubmatch showGrantsForRe trimmedInput with
  | Some matches =>
    let userName := sub matches 1 in
    Ok (query (Sprintf fmtShowGrantsFor [userName]))
  | None =>
  if streq upperTrimmed (lit "SHOW TABLE STATUS") then Ok (query sqlShowTableStatus) else
  if streq upperTrimmed (lit "SHOW SCHEMAS") then Ok (query sqlShowSchemas) else
  if streq upperTrimmed (lit "SHOW TRIGGERS") then Ok (query sqlShowTriggers) else
  if streq upperTrimmed (lit "SHOW FUNCTION STATUS")
     || streq upperTrimmed (lit "SHOW PROCEDURE STATUS") then Ok (query sqlShowRoutines) else
  match FindStringSubmatch useDbRe trimmedInput with
  | Some matches => Ok (special (lit "use_database") [sub matches 1])
  | None =>
  if streq upperTrimmed (lit "SHOW ENGINES") then Ok (query sqlShowEngines) else
  if streq upperTrimmed (lit "SHOW CHARSET")
     || streq upperTrimmed (lit "SHOW CHARACTER SET") then Ok (query sqlShowCharset) else
  if streq upperTrimmed (lit "SHOW COLLATION") then Ok (query sqlShowCollation) else
  if streq upperTrimmed (lit "SHOW WARNINGS")
     || streq upperTrimmed (lit "SHOW ERRORS") then Ok (query sqlShowWarnings) else
  if streq upperTrimmed (lit "SELECT DATABASE()") then Ok (query sqlSelectDatabase) else
  if streq upperTrimmed (lit "SELECT VERSION()") then Ok (query sqlSelectVersion) else
  if streq upperTrimmed (lit "SELECT USER()")
     || streq upperTrimmed (lit "SELECT CURRENT_USER()") then Ok (query sqlSelectUser) else
  if streq upperTrimmed (lit "SELECT NOW()") then Ok (query sqlSelectNow) else
  if HasPrefix input (lit "\") then translateBackslashCommand input else
  Ok (query input)
  end end end end end end end end end end.

(** [Translate]. *)
Definition Translate (t : Translator) (input : gostring) : outcome :=
  let input := TrimSpace input in
  if streq (dbType t) DB.MySQL then Ok (query input)
  else translateForPostgres input.

End Translator.

(** ** The dispatcher (internal/client/client.go) *)

Module Client.
Import GoStrings.

(** The client's own [Config]; [Database] is what the prompt shows. *)
Record Config := {
  Host : gostring;
  Port : Z;
  User : gostring;
  Password : gostring;
  Database : gostring;
  DBType : gostring;
  SSLMode : gostring
}.

Definition withDatabase (cfg : Config) (dbName : gostring) : Config :=
  {| Host := Host cfg; Port := Port cfg; User := User cfg; Password := Password cfg;
     Database := dbName; DBType := DBType cfg; SSLMode := SSLMode cfg |}.

Record Client := {
  conn : DB.Connection;
  translator : Translator.Translator;
  config : Config;
  expandedOutput : bool
}.

(** What a call does besides changing the client. *)
Inductive event :=
| Printed (text : gostring)    (* fmt.Printf, fmt.Println *)
| Results (q : gostring)       (* printResults on the rows of the query *)
| HelpText (which : gostring)  (* printHelp, printShowHelp, ...: a fixed text *)
| Exit (status : Z).           (* os.Exit *)

(** The client after a call, what the call did, and the error returned. *)
Definition effect := (Client * list event * option DB.error)%type.

Definition setConn (c : Client) (k : DB.Connection) : Client :=
  {| conn := k; translator := translator c; config := config c;
     expandedOutput := expandedOutput c |}.

Definition setDatabase (c : Client) (dbName : gostring) : Client :=
  {| conn := conn c; translator := translator c;
     config := withDatabase (config c) dbName; expandedOutput := expandedOutput c |}.

Definition setExpanded (c : Client) (b : bool) : Client :=
  {| conn := conn c; translator := translator c; config := config c; expandedOutput := b |}.

(** client.go, line 278. *)
Definition fmtShowCreateTable : gostring :=
  lines
    [ [];
      tabs 2 ++ lit "SELECT ";
      tabs 3 ++ lit "'CREATE TABLE ' || '%s' || ' (' || E'\n' ||";
      tabs 3 ++ lit "string_agg(";
      tabs 4 ++ lit "'  ' || column_name || ' ' || ";
      tabs 4 ++ lit "CASE ";
      tabs 5 ++ lit "WHEN data_type = 'character varying' THEN 'VARCHAR(' || character_maximum_length || ')'";
      tabs 5 ++ lit "WHEN data_type = 'character' THEN 'CHAR(' || character_maximum_length || ')'";
      tabs 5 ++ lit "WHEN data_type = 'numeric' THEN 'NUMERIC(' || numeric_precision || ',' || numeric_scale || ')'";
      tabs 5 ++ lit "ELSE UPPER(data_type)";
      tabs 4 ++ lit "END ||";
      tabs 4 ++ lit "CASE WHEN is_nullable = 'NO' THEN ' NOT NULL' ELSE '' END ||";
      tabs 4 ++ lit "CASE WHEN column_default IS NOT NULL THEN ' DEFAULT ' || column_default ELSE '' END,";
      tabs 4 ++ lit "',' || E'\n'";
      tabs 4 ++ lit "ORDER BY ordinal_position";
      tabs 3 ++ lit ") || E'\n);' AS " ++ DQ ++ lit "Create Table" ++ DQ;
      tabs 2 ++ lit "FROM information_schema.columns";
      tabs 2 ++ lit "WHERE table_schema = 'public' AND table_name = '%s'";
      tabs 2 ++ lit "GROUP BY table_name";
      tabs 1 ].

(** client.go, line 321. *)
Definition fmtShowCreateDatabase : gostring :=
  lines
    [ [];
      tabs 2 ++ lit "SELECT ";
      tabs 3 ++ lit "'CREATE DATABASE ' || datname || ";
      tabs 3 ++ lit "' WITH OWNER = ' || pg_catalog.pg_get_userbyid(datdba) ||";
      tabs 3 ++ lit "' ENCODING = ''' || pg_encoding_to_char(encoding) || '''' ||";
      tabs 3 ++ lit "CASE ";
      tabs 4 ++ lit "WHEN datcollate IS NOT NULL THEN ' LC_COLLATE = ''' || datcollate || ''''";
      tabs 4 ++ lit "ELSE ''";
      tabs 3 ++ lit "END ||";
      tabs 3 ++ lit "CASE ";
      tabs 4 ++ lit "WHEN datctype IS NOT NULL THEN ' LC_CTYPE = ''' || datctype || ''''";
      tabs 4 ++ lit "ELSE ''";
      tabs 3 ++ lit "END ||";
      tabs 3 ++ lit "';' AS " ++ DQ ++ lit "Create Database" ++ DQ;
      tabs 2 ++ lit "FROM pg_database ";
      tabs 2 ++ lit "WHERE datname = '%s'";
      tabs 1 ].

(** [printResults] on the rows of the query [q]: what it prints and the
    error it returns. It reads the columns and every row before it prints
    anything, so an error of [rows.Columns], [rows.Scan] or [rows.Err] is
    returned with nothing printed. *)
Definition printResults (srv : DB.Server) (c : Client) (q : gostring)
  : list event * option DB.error :=
  if DB.delivers srv (DB.target (DB.DB (conn c))) q
  then ([Results q], None)
  else ([], Some (DB.RowsFailed q)).

(** Run a query and print its rows: the [Query], [printResults] pair of
    the source, with what is printed between the two. An error of the
    query is returned before anything is printed. *)
Definition runAndPrint (srv : DB.Server) (c : Client) (q : gostring) (before : list event)
  : effect :=
  match DB.Query srv (conn c) q with
  | Some err => (c, [], Some err)
  | None =>
    let (printed, err) := printResults srv c q in
    (c, before ++ printed, err)
  end.

(** [showCreateTable]. *)
Definition showCreateTable (srv : DB.Server) (c : Client) (tableName : gostring) : effect :=
  if streq (DB.Config_DBType (DB.Conn_Config (conn c))) DB.MySQL then
    runAndPrint srv c (lit "SHOW CREATE TABLE " ++ tableName) []
  else
    runAndPrint srv c (Sprintf fmtShowCreateTable [tableName; tableName])
      [Printed (Sprintf (lit "Table: %s") [tableName] ++ [NL])].

(** [showCreateDatabase]. *)
Definition showCreateDatabase (srv : DB.Server) (c : Client) (dbName : gostring) : effect :=
  if streq (DB.Config_DBType (DB.Conn_Config (conn c))) DB.MySQL then
    runAndPrint srv c (lit "SHOW CREATE DATABASE " ++ dbName) []
  else
    runAndPrint srv c (Sprintf fmtShowCreateDatabase [dbName])
      [Printed (Sprintf (lit "Database: %s") [dbName] ++ [NL])].

Definition kindIs (result : Translator.TranslationResult) (kind : string) : bool :=
  streq (Translator.SpecialType result) (lit kind).

(** [handleSpecialCommand]. The connection is shared with the client, so
    what [SetDatabase] did to it stays when the call returns an error. *)
Definition handleSpecialCommand (srv : DB.Server) (c : Client)
  (result : Translator.TranslationResult) : effect :=
  let args := Translator.Args result in
  if kindIs result "use_database" then
    match args with
    | [] => (c, [], Some (DB.Errorf (lit "database name required")))
    | dbName :: _ =>
      let '(printed, k, err) := DB.SetDatabase srv (conn c) dbName in
      let c := setConn c k in
      match err with
      | Some e => (c, map Printed printed, Some e)
      | None =>
        (setDatabase c dbName,
         map Printed printed
         ++ [Printed (Sprintf (lit "Database changed to '%s'") [dbName] ++ [NL])], None)
      end
    end
  else if kindIs result "quit" then
    (c, [Printed (lit "Bye!" ++ [NL]); Exit 0], None)
  else if kindIs result "help" then
    (c, [HelpText (lit "help")], None)
  else if kindIs result "toggle_expanded" then
    let c := setExpanded c (negb (expandedOutput c)) in
    (c, [Printed (if expandedOutput c
                  then lit "Expanded display is on." ++ [NL]
                  else lit "Expanded display is off." ++ [NL])], None)
  else if kindIs result "show_create_table" then
    match args with
    | [] => (c, [], Some (DB.Errorf (lit "table name required")))
    | tableName :: _ => showCreateTable srv c tableName
    end
  else if kindIs result "show_create_database" then
    match args with
    | [] => (c, [], Some (DB.Errorf (lit "database name required")))
    | dbName :: _ => showCreateDatabase srv c dbName
    end
  else if kindIs result "cross_db_query" then
    runAndPrint srv c (Translator.Query result) []
  else if kindIs result "show_help" then (c, [HelpText (lit "show_help")], None)
  else if kindIs result "show_create_help" then (c, [HelpText (lit "show_create_help")], None)
  else if kindIs result "show_tables_help" then (c, [HelpText (lit "show_tables_help")], None)
  else if kindIs result "show_columns_help" then (c, [HelpText (lit "show_columns_help")], None)
  else
    (c, [], Some (DB.Errorf (Sprintf (lit "unknown special command: %s")
                               [Translator.SpecialType result]))).

(** [executeQuery]: translate, then dispatch or run. *)
Definition executeQuery (srv : DB.Server) (c : Client) (query : gostring) : effect :=
  match Translator.Translate (translator c) query with
  | Translator.Err msg => (c, [], Some (DB.Errorf msg))
  | Translator.Panic => (c, [Exit 2], None)
  | Translator.Ok result =>
    if Translator.IsSpecial result
    then handleSpecialCommand srv c result
    else runAndPrint srv c (Translator.Query result) []
  end.

End Client.

(** ** The session (internal/client/client.go: New, getPrompt, Run) *)

Module Session.
Import GoStrings.

(** [New]: the client for the settings of the command line, after the
    lines that [db.New] prints. The type is PostgreSQL for the two
    spellings [pg] and [postgresql], and MySQL for every other text. *)
Definition New (srv : DB.Server) (cfg : Client.Config)
  : list gostring * (Client.Client + DB.error) :=
  let dbType :=
    if streq (Client.DBType cfg) (lit "pg") || streq (Client.DBType cfg) (lit "postgresql")
    then DB.PostgreSQL else DB.MySQL in
  let dbCfg :=
    {| DB.Host := Client.Host cfg; DB.Port := Client.Port cfg; DB.User := Client.User cfg;
       DB.Password := Client.Password cfg; DB.Database := Client.Database cfg;
       DB.Config_DBType := dbType; DB.SSLMode := Client.SSLMode cfg |} in
  match DB.New srv dbCfg with
  | (printed, inr err) => (printed, inr err)
  | (printed, inl conn) =>
    (printed,
     inl {| Client.conn := conn; Client.translator := Translator.New dbType;
            Client.config := cfg; Client.expandedOutput := false |})
  end.

(** [getPrompt]. *)
Definition getPrompt (c : Client.Client) : gostring :=
  let dbName := Client.Database (Client.config c) in
  let dbName := if isNil dbName then lit "(none)" else dbName in
  Sprintf (lit "mygo [%s]> ") [dbName].

(** [unicode.ToLower]. ASCII letters are exact. Of the runes above ASCII,
    the two whose lower case is an ASCII letter are mapped: U+0130
    (capital I with dot) to [i] and U+212A (the Kelvin sign) to [k]. The
    Unicode tables send every other rune above ASCII to a rune above
    ASCII; the model leaves such a rune as it is. [Run] compares
    lower-cased text with ASCII literals only, and no comparison can tell
    the two apart. *)
Definition unicodeToLower (r : N) : N :=
  if inRange 0x41 0x5A r then (r + 0x20)%N
  else if (r =? 0x130)%N then 0x69%N
  else if (r =? 0x212A)%N then 0x6B%N
  else r.

(** [strings.ToLower]. *)
Definition ToLower (s : gostring) : gostring := mapFrom unicodeToLower 0 s.

(** What [rl.Readline] returns: a line, or one of its errors. *)
Inductive reading :=
| Line (line : gostring)
| Interrupt               (* readline.ErrInterrupt *)
| EOF                     (* io.EOF *)
| Failed.                 (* any other error *)

(** What the loop of [Run] shows. *)
Inductive output :=
| SetPrompt (text : gostring)  (* rl.SetPrompt *)
| Out (e : Client.event)       (* what the loop and [executeQuery] print *)
| Stderr (err : DB.error).     (* fmt.Fprintf(os.Stderr, "ERROR: %v\n", err) *)

(** The variables of the loop. *)
Record loop := {
  client : Client.Client;
  multiLineBuffer : gostring;
  inMultiLine : bool
}.

Definition start (c : Client.Client) : loop :=
  {| client := c; multiLineBuffer := []; inMultiLine := false |}.

(** How [Run] ends: it returns (nil, or the error of [Readline]), the
    process exits inside [executeQuery], or the loop waits in [Readline]
    for a line that the input does not hold. *)
Inductive ending :=
| Returned (ok : bool)
| Exited
| Waiting (s : loop).

Inductive next :=
| Continue (s : loop)
| Stop (e : ending).

Definition quitWord (lowerLine : gostring) : bool :=
  streq lowerLine (lit "quit") || streq lowerLine (lit "exit")
  || streq lowerLine (lit "\q") || streq lowerLine (lit "\quit").

Definition helpWord (lowerLine : gostring) : bool :=
  streq lowerLine (lit "help") || streq lowerLine (lit "\?") || streq lowerLine (lit "\help").

Definition isExit (e : Client.event) : bool :=
  match e with Client.Exit _ => true | _ => false end.

Definition prompt (s : loop) : output :=
  SetPrompt (if inMultiLine s then lit "    -> " else getPrompt (client s)).

Definition report (err : option DB.error) : list output :=
  match err with Some e => [Stderr e] | None => [] end.

(** The call of [executeQuery] at the end of the loop body, and what the
    loop does with its error. An exit of the process is the last event of
    a call. *)
Definition execute (srv : DB.Server) (c : Client.Client) (buffer fullQuery : gostring)
  : list output * next :=
  let '(c, ev, err) := Client.executeQuery srv c fullQuery in
  if existsb isExit ev then (map Out ev, Stop Exited)
  else (map Out ev ++ report err,
        Continue {| client := c; multiLineBuffer := buffer; inMultiLine := false |}).

(** One turn of the loop of [Run], after the prompt is set and [Readline]
    has returned. *)
Definition turn (srv : DB.Server) (s : loop) (r : reading) : list output * next :=
  match r with
  | Interrupt =>
    if inMultiLine s
    then ([Out (Client.Printed [NL])],
          Continue {| client := client s; multiLineBuffer := []; inMultiLine := false |})
    else ([], Continue s)
  | EOF => ([Out (Client.Printed (NL :: lit "Bye!" ++ [NL]))], Stop (Returned true))
  | Failed => ([], Stop (Returned false))
  | Line line =>
    let line := TrimSpace line in
    if isNil line then ([], Continue s) else
    let lowerLine := ToLower line in
    if quitWord lowerLine then
      ([Out (Client.Printed (lit "Bye!" ++ [NL]))], Stop (Returned true))
    else if helpWord lowerLine then
      ([Out (Client.HelpText (lit "help"))], Continue s)
    else if negb (HasSuffix line (lit ";")) && negb (HasPrefix line (lit "\")) then
      ([], Continue {| client := client s;
                       multiLineBuffer := multiLineBuffer s ++ line ++ lit " ";
                       inMultiLine := true |})
    else if inMultiLine s then execute srv (client s) [] (multiLineBuffer s ++ line)
    else execute srv (client s) (multiLineBuffer s) line
  end.

(** The loop of [Run] on the results of [Readline], in order. The banner
    and the set-up of the line reader, which come before the loop, are
    left out. *)
Fixpoint Run (srv : DB.Server) (s : loop) (input : list reading) : list output * ending :=
  match input with
  | [] => ([prompt s], Waiting s)
  | r :: rest =>
    let (out, n) := turn srv s r in
    match n with
    | Stop e => (prompt s :: out, e)
    | Continue s' =>
      let (out', e) := Run srv s' rest in
      (prompt s :: out ++ out', e)
    end
  end.

End Session.

(** * Properties *)

Import GoStrings Regexp Translator.

Unset Implicit Arguments.

(** The translator of a session on PostgreSQL (the foreign dialect) and of
    a session on MySQL (the native one). *)
Definition pg : Translator := New DB.PostgreSQL.
Definition mysql : Translator := New DB.MySQL.

(** ** Strings *)

Lemma streq_refl (s : gostring) : streq s s = true.
Proof.
  induction s as [|c s IH]; simpl; [reflexivity|].
  rewrite Ascii.eqb_refl. exact IH.
Qed.

Lemma streq_eq (s t : gostring) : streq s t = true <-> s = t.
Proof.
  split.
  - revert t. induction s as [|c s IH]; intros [|d t] H; simpl in H;
      try discriminate; [reflexivity|].
    apply andb_true_iff in H. destruct H as [Hc Hs].
    apply Ascii.eqb_eq in Hc. apply IH in Hs. congruence.
  - intros ->. apply streq_refl.
Qed.

Lemma streq_neq (s t : gostring) : streq s t = false <-> s <> t.
Proof.
  split.
  - intros H E. apply streq_eq in E. congruence.
  - intros H. destruct (streq s t) eqn:E; [|reflexivity].
    apply streq_eq in E. contradiction.
Qed.

Lemma firstn_app_minus (A : Type) (p r : list A) :
  firstn (length (p ++ r) - length r) (p ++ r) = p.
Proof.
  rewrite length_app, Nat.add_sub.
  rewrite firstn_app, Nat.sub_diag, firstn_all. simpl. apply app_nil_r.
Qed.

(** [TrimSuffix] leaves a string alone that ends with another byte. *)
Lemma TrimSuffix_other (s : gostring) (c d : ascii) :
  Ascii.eqb c d = false -> TrimSuffix (s ++ [c]) [d] = s ++ [c].
Proof.
  intros H. unfold TrimSuffix, HasSuffix. rewrite rev_app_distr. simpl.
  rewrite H. reflexivity.
Qed.

(** [TrimSuffix] removes one final copy of the byte. *)
Lemma TrimSuffix_same (s : gostring) (c : ascii) : TrimSuffix (s ++ [c]) [c] = s.
Proof.
  unfold TrimSuffix, HasSuffix. rewrite rev_app_distr. simpl.
  rewrite Ascii.eqb_refl. simpl.
  replace (length (s ++ [c]) - 1) with (length (s ++ [c]) - length [c]) by reflexivity.
  apply firstn_app_minus.
Qed.

(** ** White space and case *)

(** An ASCII byte that is no white space. *)
Definition plain (c : ascii) : bool := (code c <? 0x80)%N && negb (IsSpace (code c)).

Lemma DecodeRune_ascii (c : ascii) (t : gostring) :
  (code c <? 0x80)%N = true -> DecodeRune (c :: t) = (code c, 1).
Proof. intros H. unfold DecodeRune. rewrite H. reflexivity. Qed.

Lemma spaceWidth_plain (c : ascii) (t : gostring) :
  plain c = true -> spaceWidth (c :: t) = 0.
Proof.
  intros H. apply andb_true_iff in H. destruct H as [Ha Hs].
  unfold spaceWidth. rewrite (DecodeRune_ascii c t Ha).
  apply negb_true_iff in Hs. rewrite Hs. reflexivity.
Qed.

Lemma TrimLeft_plain (c : ascii) (t : gostring) :
  plain c = true -> TrimLeft (c :: t) = c :: t.
Proof.
  intros H. unfold TrimLeft. simpl. rewrite (spaceWidth_plain c t H). reflexivity.
Qed.

Ltac bool_to_prop :=
  repeat match goal with
  | H : (_ && _) = true |- _ => apply andb_true_iff in H; destruct H
  | H : (_ && _) = false |- _ => apply andb_false_iff in H
  | H : (_ <=? _)%N = true |- _ => apply N.leb_le in H
  | H : (_ <=? _)%N = false |- _ => apply N.leb_gt in H
  | H : (_ <? _)%N = true |- _ => apply N.ltb_lt in H
  | H : (_ <? _)%N = false |- _ => apply N.ltb_ge in H
  | H : (_ =? _)%N = true |- _ => apply N.eqb_eq in H
  | H : (_ =? _)%N = false |- _ => apply N.eqb_neq in H
  end.

(** An ASCII byte is no continuation byte, whatever the range asked. *)
Lemma ascii_not_in_range (c : ascii) (lo hi : N) :
  (code c <? 0x80)%N = true -> (0x80 <= lo)%N -> inRange lo hi (code c) = false.
Proof.
  intros H Hlo. unfold inRange. apply andb_false_iff. left.
  apply N.leb_gt. apply N.ltb_lt in H. lia.
Qed.

(** The bytes of a rune after its first are continuation bytes: a rune
    that is followed, within its width, by an ASCII byte does not exist. *)
Lemma DecodeRune_width (a c : ascii) (x : gostring) (r : N) (w : nat) :
  (code c <? 0x80)%N = true ->
  DecodeRune (a :: x ++ [c]) = (r, w) -> w <= S (length x).
Proof.
  intros Hc. unfold DecodeRune, decodeMulti, isCont.
  destruct (code a <? 0x80)%N; [intros [= _ <-]; lia|].
  destruct (inRange 0xC2 0xDF (code a)).
  { destruct x as [|x1 x']; simpl.
    - rewrite (ascii_not_in_range c _ _ Hc) by lia. intros [= _ <-]; lia.
    - destruct (inRange 0x80 0xBF (code x1)); intros [= _ <-]; lia. }
  destruct (inRange 0xE0 0xEF (code a)).
  { destruct x as [|x1 [|x2 x']]; simpl; try (intros [= _ <-]; lia).
    - rewrite (ascii_not_in_range c _ _ Hc) by lia. rewrite andb_false_r. intros [= _ <-]; lia.
    - match goal with |- context [if ?b then _ else _] => destruct b end;
        intros [= _ <-]; lia. }
  destruct (inRange 0xF0 0xF4 (code a)); [|intros [= _ <-]; lia].
  destruct x as [|x1 [|x2 [|x3 x']]]; simpl; try (intros [= _ <-]; lia).
  - rewrite (ascii_not_in_range c _ _ Hc) by lia. rewrite andb_false_r. intros [= _ <-]; lia.
  - match goal with |- context [if ?b then _ else _] => destruct b end;
      intros [= _ <-]; lia.
Qed.

Lemma spaceWidth_le (a c : ascii) (x : gostring) :
  (code c <? 0x80)%N = true -> spaceWidth (a :: x ++ [c]) <= S (length x).
Proof.
  intros Hc. unfold spaceWidth.
  destruct (DecodeRune (a :: x ++ [c])) as [r w] eqn:E.
  apply DecodeRune_width in E; [|exact Hc].
  destruct (IsSpace r); lia.
Qed.

(** White space is not all there is in a string that ends with a plain
    byte. *)
Lemma trimLeftFrom_plain_last (c : ascii) :
  plain c = true ->
  forall (n : nat) (x : gostring) (skip : nat),
    length x <= n -> skip <= length x -> trimLeftFrom skip (x ++ [c]) <> [].
Proof.
  intros Hc. assert (Ha : (code c <? 0x80)%N = true).
  { apply andb_true_iff in Hc. tauto. }
  induction n as [|n IH]; intros x skip Hn Hs.
  - destruct x; simpl in *; [|lia]. assert (skip = 0) by lia. subst.
    rewrite (spaceWidth_plain c [] Hc). discriminate.
  - destruct x as [|a x]; simpl in *.
    + assert (skip = 0) by lia. subst. rewrite (spaceWidth_plain c [] Hc). discriminate.
    + destruct skip as [|k].
      * pose proof (spaceWidth_le a c x Ha) as Hw.
        destruct (spaceWidth (a :: x ++ [c])) as [|k]; [discriminate|].
        apply IH; lia.
      * apply IH; lia.
Qed.

Lemma TrimRight_plain_last (c : ascii) (x : gostring) :
  plain c = true -> TrimRight (x ++ [c]) = x ++ [c].
Proof.
  intros Hc. induction x as [|a x IH].
  - simpl. rewrite (TrimLeft_plain c [] Hc). reflexivity.
  - change (TrimRight ((a :: x) ++ [c]))
      with (if isNil (TrimLeft ((a :: x) ++ [c])) then [] else a :: TrimRight (x ++ [c])).
    rewrite IH.
    destruct (TrimLeft ((a :: x) ++ [c])) eqn:E; [|reflexivity].
    exfalso. revert E. unfold TrimLeft.
    apply (trimLeftFrom_plain_last c Hc (length (a :: x))); simpl; lia.
Qed.

(** [TrimSpace] leaves a string alone that starts and ends with a plain
    byte. *)
Lemma TrimSpace_plain_ends (c d : ascii) (x : gostring) :
  plain c = true -> plain d = true -> TrimSpace (c :: x ++ [d]) = c :: x ++ [d].
Proof.
  intros Hc Hd. unfold TrimSpace. rewrite (TrimLeft_plain c _ Hc).
  apply (TrimRight_plain_last d (c :: x) Hd).
Qed.

Lemma unicodeToUpper_ascii (x : N) :
  (x <? 0x80)%N = true -> (unicodeToUpper x <? 0x80)%N = true.
Proof.
  intros H. unfold unicodeToUpper, inRange.
  destruct ((0x61 <=? x)%N && (x <=? 0x7A)%N) eqn:E1; bool_to_prop.
  - apply N.ltb_lt. lia.
  - destruct (x =? 0x131)%N; [reflexivity|].
    destruct (x =? 0x17F)%N; [reflexivity|]. apply N.ltb_lt. exact H.
Qed.

(** The upper case of an ASCII byte. *)
Definition upperByte (c : ascii) : ascii := byte (unicodeToUpper (code c)).

Lemma ToUpper_ascii (c : ascii) (s : gostring) :
  (code c <? 0x80)%N = true -> ToUpper (c :: s) = upperByte c :: ToUpper s.
Proof.
  intros H. unfold ToUpper. simpl. rewrite H.
  unfold EncodeRune. rewrite (unicodeToUpper_ascii _ H). reflexivity.
Qed.

Definition isAscii (c : ascii) : bool := (code c <? 0x80)%N.

Definition asciiText (s : gostring) : Prop := Forall (fun c => isAscii c = true) s.

Lemma ToUpper_text (s : gostring) : asciiText s -> ToUpper s = map upperByte s.
Proof.
  induction 1 as [|c s Hc Hs IH]; [reflexivity|].
  rewrite (ToUpper_ascii c s Hc), IH. reflexivity.
Qed.

(** ** Matching *)

Arguments inClass !k !c /.
Arguments lead !k c /.
Arguments plusClass {A} k !s cont /.

Ltac ascii_cases c := destruct c as [[|] [|] [|] [|] [|] [|] [|] [|]].

Definition isWord (c : ascii) : bool := inClass Word c.

(** A name: one or more word characters of ASCII. [(\w+)] takes such a
    name whole; the names it takes with the two folded runes as well are
    the texts [wordText] below. *)
Definition wordName (t : gostring) : Prop := t <> [] /\ Forall (fun c => isWord c = true) t.

Lemma word_plain (c : ascii) : isWord c = true -> plain c = true.
Proof. ascii_cases c; vm_compute; intros H; try reflexivity; discriminate H. Qed.

Lemma word_not_space (c : ascii) : isWord c = true -> inClass Space c = false.
Proof. ascii_cases c; vm_compute; intros H; try reflexivity; discriminate H. Qed.

Lemma word_not_semicolon (c : ascii) : isWord c = true -> Ascii.eqb c ";" = false.
Proof. ascii_cases c; vm_compute; intros H; try reflexivity; discriminate H. Qed.

Lemma word_upper_not_dash (c : ascii) : isWord c = true -> Ascii.eqb (upperByte c) "-" = false.
Proof. ascii_cases c; vm_compute; intros H; try reflexivity; discriminate H. Qed.

Lemma word_ascii (c : ascii) : isWord c = true -> (code c <? 0x80)%N = true.
Proof. ascii_cases c; vm_compute; intros H; try reflexivity; discriminate H. Qed.

(** No rune of [k] starts [rest]: it is empty, or its first byte is no
    rune of the class and starts none. *)
Definition stops (k : class) (rest : gostring) : bool :=
  match rest with
  | [] => true
  | c :: _ => negb (inClass k c) && negb (lead k c)
  end.

Lemma starClass_stop (A : Type) (k : class) (s : gostring) (cont : gostring -> option A) :
  stops k s = true -> starClass k s cont = cont s.
Proof.
  destruct s as [|c s]; [reflexivity|]. unfold stops. intros H.
  apply andb_true_iff in H. destruct H as [H1 H2].
  apply negb_true_iff in H1, H2. cbn [starClass]. rewrite H1, H2. reflexivity.
Qed.

(** [k*] before the end of the pattern takes all of a string of [k]. *)
Lemma starClass_all (A : Type) (k : class) (p rest : gostring)
  (cont : gostring -> option A) (x : A) :
  Forall (fun c => inClass k c = true) p ->
  stops k rest = true ->
  cont rest = Some x ->
  starClass k (p ++ rest) cont = Some x.
Proof.
  intros Hp Hr Hc. induction Hp as [|c p Hcl _ IH].
  - cbn [app]. rewrite (starClass_stop _ k rest cont Hr). exact Hc.
  - cbn [app starClass]. rewrite Hcl, IH. reflexivity.
Qed.

Lemma plusClass_all (A : Type) (k : class) (p rest : gostring)
  (cont : gostring -> option A) (x : A) :
  p <> [] ->
  Forall (fun c => inClass k c = true) p ->
  stops k rest = true ->
  cont rest = Some x ->
  plusClass k (p ++ rest) cont = Some x.
Proof.
  intros Hne Hp Hr Hc. destruct p as [|c p]; [congruence|].
  inversion Hp; subst. simpl.
  match goal with H : inClass k c = true |- _ => rewrite H end.
  apply starClass_all; assumption.
Qed.

Lemma wordName_last (t : gostring) :
  wordName t -> exists t0 d, t = t0 ++ [d] /\ isWord d = true.
Proof.
  intros [Hne Hall]. destruct (exists_last Hne) as [t0 [d ->]].
  exists t0, d. split; [reflexivity|].
  apply Forall_app in Hall. destruct Hall as [_ Hd]. inversion Hd; assumption.
Qed.

Lemma wordName_head (t : gostring) :
  wordName t -> exists c t', t = c :: t' /\ isWord c = true.
Proof.
  intros [Hne Hall]. destruct t as [|c t']; [congruence|].
  exists c, t'. split; [reflexivity|]. inversion Hall; assumption.
Qed.

(** [(\w+)$] takes the rest of a name whole. *)
Lemma starClass_name (A : Type) (t : gostring) (cont : gostring -> option A) (x : A) :
  Forall (fun c => isWord c = true) t -> cont [] = Some x -> starClass Word t cont = Some x.
Proof.
  intros Hall Hc. rewrite <- (app_nil_r t).
  apply starClass_all; [exact Hall|reflexivity|exact Hc].
Qed.

(** The text a group took: what was read between two points of the input. *)
Lemma firstn_taken (p r s : gostring) :
  s = p ++ r -> firstn (length s - length r) s = p.
Proof. intros ->. apply firstn_app_minus. Qed.

Ltac taken p r :=
  match goal with
  | |- context [firstn (length ?s - length r) ?s] =>
    rewrite (firstn_taken p r s) by (rewrite ?app_nil_r; reflexivity)
  end.

(** A pattern that ends with [\s+(\w+)$], on an input that ends with one
    blank and a name [c :: t']: the matcher runs on the known text, passes
    the blank, and takes the name. *)
Ltac match_name c t' Hc Hall :=
  unfold FindStringSubmatch;
  cbn -[firstn length];
  rewrite (word_not_space c Hc);
  cbn -[firstn length];
  change (inClass Word c) with (isWord c); rewrite Hc;
  erewrite starClass_name; [|exact Hall|reflexivity];
  cbn -[firstn length].

Lemma showColumnsRe_DESC (t : gostring) :
  wordName t ->
  FindStringSubmatch showColumnsRe (lit "DESC " ++ t) = Some [lit "DESC " ++ t; lit "DESC"; t].
Proof.
  intros Ht. destruct (wordName_head t Ht) as [c [t' [-> Hc]]].
  destruct Ht as [_ Hall]. inversion Hall as [|? ? _ Hall']; subst.
  match_name c t' Hc Hall'.
  taken (c :: t') (@nil ascii). taken (lit "DESC") (" "%char :: c :: t'). reflexivity.
Qed.

Lemma showColumnsRe_DESCRIBE (t : gostring) :
  wordName t ->
  FindStringSubmatch showColumnsRe (lit "DESCRIBE " ++ t)
  = Some [lit "DESCRIBE " ++ t; lit "DESCRIBE"; t].
Proof.
  intros Ht. destruct (wordName_head t Ht) as [c [t' [-> Hc]]].
  destruct Ht as [_ Hall]. inversion Hall as [|? ? _ Hall']; subst.
  match_name c t' Hc Hall'.
  taken (c :: t') (@nil ascii). taken (lit "DESCRIBE") (" "%char :: c :: t'). reflexivity.
Qed.

Lemma showColumnsRe_SHOW_COLUMNS_FROM (t : gostring) :
  wordName t ->
  FindStringSubmatch showColumnsRe (lit "SHOW COLUMNS FROM " ++ t)
  = Some [lit "SHOW COLUMNS FROM " ++ t; lit "SHOW COLUMNS FROM"; t].
Proof.
  intros Ht. destruct (wordName_head t Ht) as [c [t' [-> Hc]]].
  destruct Ht as [_ Hall]. inversion Hall as [|? ? _ Hall']; subst.
  match_name c t' Hc Hall'.
  taken (c :: t') (@nil ascii). taken (lit "SHOW COLUMNS FROM") (" "%char :: c :: t').
  reflexivity.
Qed.

(** ** The rule chain on a known phrase *)

Lemma Translate_pg (input : gostring) :
  Translate pg input = translateForPostgres (TrimSpace input).
Proof. reflexivity. Qed.

Lemma TrimSpace_phrase (c : ascii) (pre t : gostring) :
  plain c = true -> wordName t -> TrimSpace (c :: pre ++ t) = c :: pre ++ t.
Proof.
  intros Hc Ht. destruct (wordName_last t Ht) as [t0 [d [-> Hd]]].
  rewrite app_assoc. apply TrimSpace_plain_ends; [exact Hc|].
  apply word_plain. exact Hd.
Qed.

Lemma TrimSuffix_phrase (pre t : gostring) :
  wordName t -> TrimSuffix (pre ++ t) (lit ";") = pre ++ t.
Proof.
  intros Ht. destruct (wordName_last t Ht) as [t0 [d [-> Hd]]].
  rewrite app_assoc. apply TrimSuffix_other. apply word_not_semicolon. exact Hd.
Qed.

(** A condition of the rule chain that the known text of the input
    decides: it computes to [false], or the pattern finds no match. *)
Ltac rule_fails :=
  lazymatch goal with
  | |- (if ?b then _ else _) = _ =>
    let E := fresh "E" in
    assert (E : b = false) by (vm_compute; reflexivity);
    rewrite E; clear E; cbv iota
  | |- match FindStringSubmatch ?re ?s with Some _ => _ | None => _ end = _ =>
    let E := fresh "E" in
    assert (E : FindStringSubmatch re s = None) by (vm_compute; reflexivity);
    rewrite E; clear E; cbv iota
  end.

(** The upper case of a name does not start with a dash. *)
Lemma streq_name_dash (pre t rest : gostring) :
  wordName t -> streq (pre ++ ToUpper t) (pre ++ "-"%char :: rest) = false.
Proof.
  intros Ht. destruct (wordName_head t Ht) as [c [t' [-> Hc]]].
  rewrite (ToUpper_ascii c t' (word_ascii c Hc)).
  induction pre as [|a pre IH]; simpl.
  - rewrite (word_upper_not_dash c Hc). reflexivity.
  - rewrite Ascii.eqb_refl. exact IH.
Qed.

Lemma ToUpper_DESC (s : gostring) : ToUpper (lit "DESC " ++ s) = lit "DESC " ++ ToUpper s.
Proof. reflexivity. Qed.

Lemma ToUpper_DESCRIBE (s : gostring) :
  ToUpper (lit "DESCRIBE " ++ s) = lit "DESCRIBE " ++ ToUpper s.
Proof. reflexivity. Qed.

Lemma help_DESC (t : gostring) : wordName t -> handleHelpCommands (lit "DESC " ++ t) = None.
Proof.
  intros Ht. unfold handleHelpCommands.
  change (lit "DESC " ++ t) with ("D"%char :: lit "ESC " ++ t).
  rewrite (TrimSpace_phrase "D" (lit "ESC ") t eq_refl Ht).
  change ("D"%char :: lit "ESC " ++ t) with (lit "DESC " ++ t).
  cbv zeta. do 3 rule_fails.
  rewrite ToUpper_DESC.
  change (lit "DESC --HELP") with (lit "DESC " ++ "-"%char :: lit "-HELP").
  rewrite (streq_name_dash _ _ _ Ht).
  rewrite <- ToUpper_DESC. rule_fails. reflexivity.
Qed.

Lemma help_DESCRIBE (t : gostring) :
  wordName t -> handleHelpCommands (lit "DESCRIBE " ++ t) = None.
Proof.
  intros Ht. unfold handleHelpCommands.
  change (lit "DESCRIBE " ++ t) with ("D"%char :: lit "ESCRIBE " ++ t).
  rewrite (TrimSpace_phrase "D" (lit "ESCRIBE ") t eq_refl Ht).
  change ("D"%char :: lit "ESCRIBE " ++ t) with (lit "DESCRIBE " ++ t).
  cbv zeta. do 3 rule_fails.
  rewrite ToUpper_DESCRIBE.
  change (lit "DESCRIBE --HELP") with (lit "DESCRIBE " ++ "-"%char :: lit "-HELP").
  rewrite (streq_name_dash _ _ _ Ht).
  rewrite <- ToUpper_DESCRIBE. rule_fails. reflexivity.
Qed.

Lemma help_SHOW_COLUMNS_FROM (t : gostring) :
  wordName t -> handleHelpCommands (lit "SHOW COLUMNS FROM " ++ t) = None.
Proof.
  intros Ht. unfold handleHelpCommands.
  change (lit "SHOW COLUMNS FROM " ++ t) with ("S"%char :: lit "HOW COLUMNS FROM " ++ t).
  rewrite (TrimSpace_phrase "S" (lit "HOW COLUMNS FROM ") t eq_refl Ht).
  cbv zeta. do 4 rule_fails. reflexivity.
Qed.

Definition describeColumns (t : gostring) : gostring :=
  lines
    [ lit "SELECT ";
      tabs 4 ++ lit "column_name AS " ++ DQ ++ lit "Field" ++ DQ ++ lit ",";
      tabs 4 ++ lit "data_type AS " ++ DQ ++ lit "Type" ++ DQ ++ lit ",";
      tabs 4 ++ lit "CASE WHEN is_nullable = 'YES' THEN 'YES' ELSE 'NO' END AS " ++ DQ ++ lit "Null" ++ DQ ++ lit ",";
      tabs 4 ++ lit "CASE ";
      tabs 5 ++ lit "WHEN column_default LIKE 'nextval%' THEN 'PRI'";
      tabs 5 ++ lit "ELSE ''";
      tabs 4 ++ lit "END AS " ++ DQ ++ lit "Key" ++ DQ ++ lit ",";
      tabs 4 ++ lit "column_default AS " ++ DQ ++ lit "Default" ++ DQ ++ lit ",";
      tabs 4 ++ lit "CASE ";
      tabs 5 ++ lit "WHEN column_default LIKE 'nextval%' THEN 'auto_increment'";
      tabs 5 ++ lit "ELSE ''";
      tabs 4 ++ lit "END AS " ++ DQ ++ lit "Extra" ++ DQ;
      tabs 3 ++ lit "FROM information_schema.columns ";
      tabs 3 ++ lit "WHERE table_schema = 'public' AND table_name = '" ++ t ++ lit "'";
      tabs 3 ++ lit "ORDER BY ordinal_position" ].

Definition settingsLike (filter : gostring) : gostring :=
  lines
    [ lit "SELECT name AS " ++ DQ ++ lit "Variable_name" ++ DQ ++ lit ", setting AS " ++ DQ ++ lit "Value" ++ DQ ++ lit " ";
      tabs 5 ++ lit "FROM pg_settings ";
      tabs 5 ++ lit "WHERE name ~ '" ++ filter ++ lit "'";
      tabs 5 ++ lit "ORDER BY name" ].

Lemma Sprintf_fmtShowColumns (t : gostring) : Sprintf fmtShowColumns [t] = describeColumns t.
Proof.
  unfold describeColumns, lines. rewrite <- !app_assoc. vm_compute. reflexivity.
Qed.

Lemma translate_DESC (t : gostring) :
  wordName t -> translateForPostgres (lit "DESC " ++ t) = Ok (query (describeColumns t)).
Proof.
  intros Ht. unfold translateForPostgres.
  rewrite (TrimSuffix_phrase (lit "DESC ") t Ht). cbv zeta.
  rewrite (help_DESC t Ht). do 4 rule_fails.
  rewrite (showColumnsRe_DESC t Ht).
  rewrite <- Sprintf_fmtShowColumns. reflexivity.
Qed.

Lemma translate_DESCRIBE (t : gostring) :
  wordName t -> translateForPostgres (lit "DESCRIBE " ++ t) = Ok (query (describeColumns t)).
Proof.
  intros Ht. unfold translateForPostgres.
  rewrite (TrimSuffix_phrase (lit "DESCRIBE ") t Ht). cbv zeta.
  rewrite (help_DESCRIBE t Ht). do 4 rule_fails.
  rewrite (showColumnsRe_DESCRIBE t Ht).
  rewrite <- Sprintf_fmtShowColumns. reflexivity.
Qed.

Lemma translate_SHOW_COLUMNS_FROM (t : gostring) :
  wordName t ->
  translateForPostgres (lit "SHOW COLUMNS FROM " ++ t) = Ok (query (describeColumns t)).
Proof.
  intros Ht. unfold translateForPostgres.
  rewrite (TrimSuffix_phrase (lit "SHOW COLUMNS FROM ") t Ht). cbv zeta.
  rewrite (help_SHOW_COLUMNS_FROM t Ht). do 4 rule_fails.
  rewrite (showColumnsRe_SHOW_COLUMNS_FROM t Ht).
  rewrite <- Sprintf_fmtShowColumns. reflexivity.
Qed.

(** C7. Under the foreign dialect, for every table name [t] of word
    characters, [DESC t], [DESCRIBE t] and [SHOW COLUMNS FROM t] are all
    rewritten to the same query, [describeColumns t]: the column catalog
    restricted to table [t] and ordered by ordinal position; no special
    action, no error. *)
Theorem C7_describe_synonyms (t : gostring) :
  wordName t ->
  Translate pg (lit "DESC " ++ t) = Ok (query (describeColumns t))
  /\ Translate pg (lit "DESCRIBE " ++ t) = Ok (query (describeColumns t))
  /\ Translate pg (lit "SHOW COLUMNS FROM " ++ t) = Ok (query (describeColumns t)).
Proof.
  intros Ht. rewrite !Translate_pg.
  change (lit "DESC " ++ t) with ("D"%char :: lit "ESC " ++ t).
  change (lit "DESCRIBE " ++ t) with ("D"%char :: lit "ESCRIBE " ++ t).
  change (lit "SHOW COLUMNS FROM " ++ t) with ("S"%char :: lit "HOW COLUMNS FROM " ++ t).
  rewrite !TrimSpace_phrase by (reflexivity || exact Ht).
  split; [|split].
  - apply (translate_DESC t Ht).
  - apply (translate_DESCRIBE t Ht).
  - apply (translate_SHOW_COLUMNS_FROM t Ht).
Qed.

Lemma C7_describe_synonyms_witness :
  Translate pg (lit "DESC " ++ lit "users") = Ok (query (describeColumns (lit "users")))
  /\ Translate pg (lit "DESCRIBE " ++ lit "users") = Ok (query (describeColumns (lit "users")))
  /\ Translate pg (lit "SHOW COLUMNS FROM " ++ lit "users")
     = Ok (query (describeColumns (lit "users"))).
Proof.
  apply (C7_describe_synonyms (lit "users")).
  split; [discriminate|]. repeat constructor.
Defined.

(** ** Wild cards *)

(** The pattern of [LIKE] in the pattern syntax of [~]: [%] (any run of
    characters) becomes [.*], [_] (any one character) becomes [.], and
    every other byte stays. *)
Definition wildcards (p : gostring) : gostring :=
  flat_map (fun c => if Ascii.eqb c "%" then lit ".*"
                     else if Ascii.eqb c "_" then lit "."
                     else [c]) p.

Definition replaced (p : gostring) : gostring :=
  ReplaceAll (ReplaceAll (ReplaceAll p (lit "%") (lit "%%")) (lit "_") (lit ".")) (lit "%%") (lit ".*").

Lemma replaced_wildcards (p : gostring) : replaced p = wildcards p.
Proof.
  unfold replaced, ReplaceAll, wildcards. cbv [lit list_ascii_of_string].
  induction p as [|c p IH]; [reflexivity|].
  simpl. destruct (Ascii.eqb c "%") eqn:E1; simpl.
  - rewrite IH. reflexivity.
  - destruct (Ascii.eqb c "_") eqn:E2; simpl.
    + rewrite IH. reflexivity.
    + rewrite E1. simpl. rewrite IH. reflexivity.
Qed.

Lemma Sprintf_fmtShowVariablesLike (f : gostring) :
  Sprintf fmtShowVariablesLike [f] = settingsLike f.
Proof.
  unfold settingsLike, lines. rewrite <- !app_assoc. vm_compute. reflexivity.
Qed.

Lemma notQuote_class (c : ascii) : c <> "'"%char -> inClass NotQuote c = true.
Proof.
  intros H. unfold inClass. apply negb_true_iff. apply N.eqb_neq. intros E.
  apply H. rewrite <- (ascii_N_embedding c). unfold code in E. rewrite E. reflexivity.
Qed.

Lemma showVarsLikeRe_matches (p : gostring) :
  p <> [] -> Forall (fun c => c <> "'"%char) p ->
  FindStringSubmatch showVarsLikeRe (lit "SHOW VARIABLES LIKE '" ++ p ++ lit "'")
  = Some [lit "SHOW VARIABLES LIKE '" ++ p ++ lit "'"; []; p].
Proof.
  intros Hne Hp.
  assert (Hq : Forall (fun c => inClass NotQuote c = true) p).
  { eapply Forall_impl; [|exact Hp]. apply notQuote_class. }
  unfold FindStringSubmatch.
  cbn -[firstn length].
  erewrite plusClass_all; [|exact Hne|exact Hq|reflexivity|reflexivity].
  cbn -[firstn length].
  taken p ["'"%char]. reflexivity.
Qed.

(** C6 as written fails at the empty pattern, which is a pattern of
    non-quote characters: the rule asks for one character at least, and
    [SHOW VARIABLES LIKE ''] is passed through, no query on [pg_settings]
    is made. *)
Lemma C6_counterexample :
  Translate pg (lit "SHOW VARIABLES LIKE '" ++ [] ++ lit "'")
  = Ok (query (lit "SHOW VARIABLES LIKE ''"))
  /\ Translate pg (lit "SHOW VARIABLES LIKE '" ++ [] ++ lit "'")
     <> Ok (query (settingsLike (wildcards []))).
Proof. vm_compute. split; [reflexivity|discriminate]. Qed.

(** C6 (as amended). Under the foreign dialect, for every pattern [p] of
    characters other than the quote: when [p] holds one character or more,
    [SHOW VARIABLES LIKE 'p'] is rewritten to a query on [pg_settings]
    whose filter on [name] is [p] with every [%] written [.*] (any run) and
    every [_] written [.] (any one); when [p] is empty, the input is passed
    through as it is. *)
Theorem C6_show_variables_like (p : gostring) :
  Forall (fun c => c <> "'"%char) p ->
  Translate pg (lit "SHOW VARIABLES LIKE '" ++ p ++ lit "'")
  = Ok (query (match p with
               | [] => lit "SHOW VARIABLES LIKE ''"
               | _ :: _ => settingsLike (wildcards p)
               end)).
Proof.
  destruct p as [|c0 p0]; [intros _; vm_compute; reflexivity|].
  cbv iota.
  assert (Hne : c0 :: p0 <> []) by discriminate.
  revert Hne. generalize (c0 :: p0). clear c0 p0. intros p Hne Hp.
  rewrite Translate_pg.
  assert (Ex : lit "SHOW VARIABLES LIKE '" ++ p ++ lit "'"
               = "S"%char :: (lit "HOW VARIABLES LIKE '" ++ p) ++ ["'"%char]).
  { rewrite <- app_assoc. reflexivity. }
  assert (Et : TrimSpace (lit "SHOW VARIABLES LIKE '" ++ p ++ lit "'")
               = lit "SHOW VARIABLES LIKE '" ++ p ++ lit "'").
  { rewrite Ex. apply TrimSpace_plain_ends; reflexivity. }
  rewrite Et. unfold translateForPostgres.
  assert (Es : TrimSuffix (lit "SHOW VARIABLES LIKE '" ++ p ++ lit "'") (lit ";")
               = lit "SHOW VARIABLES LIKE '" ++ p ++ lit "'").
  { rewrite Ex. rewrite app_comm_cons. apply TrimSuffix_other. reflexivity. }
  rewrite Es. cbv zeta.
  assert (Eh : handleHelpCommands (lit "SHOW VARIABLES LIKE '" ++ p ++ lit "'") = None).
  { unfold handleHelpCommands. rewrite Et. cbv zeta. do 4 rule_fails. reflexivity. }
  rewrite Eh. do 11 rule_fails.
  rewrite (showVarsLikeRe_matches p Hne Hp).
  change (sub [lit "SHOW VARIABLES LIKE '" ++ p ++ lit "'"; []; p] 2) with p.
  fold (replaced p). rewrite replaced_wildcards, Sprintf_fmtShowVariablesLike. reflexivity.
Qed.

Lemma C6_show_variables_like_witness :
  Translate pg (lit "SHOW VARIABLES LIKE '" ++ lit "max%" ++ lit "'")
  = Ok (query (settingsLike (lit "max.*"))).
Proof.
  apply (C6_show_variables_like (lit "max%")).
  repeat constructor; discriminate.
Defined.

(** ** What a translation returns *)

(** The kinds of special action that carry no query. *)
Definition actionKinds : list gostring :=
  [lit "use_database"; lit "quit"; lit "help"; lit "toggle_expanded";
   lit "show_create_table"; lit "show_create_database";
   lit "show_help"; lit "show_create_help"; lit "show_tables_help"; lit "show_columns_help"].

(** The results of a translation of the command [cmd] (the input,
    trimmed): the query of a rule, the command passed through, a special
    action without a query, or the cross-database marker, which holds a
    query and a special action. *)
Inductive resultForm (cmd : gostring) : TranslationResult -> Prop :=
| RewrittenQuery (q : gostring) : q <> [] -> resultForm cmd (query q)
| Passthrough : resultForm cmd (query cmd)
| Action (kind : gostring) (args : list gostring) :
    In kind actionKinds -> resultForm cmd (special kind args)
| CrossDatabase (dbName : gostring) :
    resultForm cmd
      {| Query := Sprintf fmtShowTablesFrom [dbName];
         IsSpecial := true;
         SpecialType := lit "cross_db_query";
         Args := [dbName] |}.

Ltac nonempty := let H := fresh in intros H; vm_compute in H; discriminate H.

Ltac in_kinds := unfold actionKinds; simpl; tauto.

Lemma help_cases (s : gostring) (r : TranslationResult) :
  handleHelpCommands s = Some r ->
  exists kind, r = special kind []
    /\ In kind [lit "show_help"; lit "show_create_help"; lit "show_tables_help";
                lit "show_columns_help"].
Proof.
  unfold handleHelpCommands. cbv zeta.
  repeat match goal with
  | |- (if ?b then _ else _) = _ -> _ => destruct b
  end; intros [= <-]; eexists; (split; [reflexivity|simpl; tauto]).
Qed.

(** A field that was begun is returned. *)
Lemma fieldsFrom_cur (s cur : gostring) (skip : nat) :
  cur <> [] -> fieldsFrom skip cur s <> [].
Proof.
  revert cur skip. induction s as [|c s IH]; intros cur skip Hc; simpl.
  - destruct cur; [congruence|discriminate].
  - destruct skip; [|apply IH; exact Hc].
    destruct (spaceWidth (c :: s)).
    + apply IH. destruct cur; discriminate.
    + destruct cur; [congruence|discriminate].
Qed.

Lemma HasPrefix_byte (s : gostring) (c : ascii) :
  HasPrefix s [c] = true -> exists rest, s = c :: rest.
Proof.
  destruct s as [|d s]; simpl; [discriminate|].
  rewrite andb_true_r. intros H. apply Ascii.eqb_eq in H. subst. exists s. reflexivity.
Qed.

(** A directive has a first token. *)
Lemma directive_fields (rest : gostring) :
  exists cmd more, Fields (TrimSpace ("\"%char :: rest)) = cmd :: more.
Proof.
  change (TrimSpace ("\"%char :: rest)) with ("\"%char :: TrimRight rest).
  change (Fields ("\"%char :: TrimRight rest)) with (fieldsFrom 0 ["\"%char] (TrimRight rest)).
  destruct (fieldsFrom 0 ["\"%char] (TrimRight rest)) as [|cmd more] eqn:E.
  - exfalso. revert E. apply fieldsFrom_cur. discriminate.
  - exists cmd, more. reflexivity.
Qed.

(** The rule chain, one condition at a time; [leaf] closes what a rule
    returns. *)
Ltac chain leaf :=
  lazymatch goal with
  | |- match (if ?b then _ else _) with Ok _ => _ | Err _ => _ | Panic => _ end =>
    destruct b eqn:?; chain leaf
  | |- match (match ?o with Some _ => _ | None => _ end)
       with Ok _ => _ | Err _ => _ | Panic => _ end =>
    destruct o eqn:?; chain leaf
  | |- _ => leaf
  end.

Ltac form_leaf :=
  first [ exact I
        | apply RewrittenQuery; nonempty
        | apply Passthrough
        | apply CrossDatabase
        | apply Action; in_kinds ].

Lemma backslash_cases (rest : gostring) :
  match translateBackslashCommand ("\"%char :: rest) with
  | Ok r => resultForm ("\"%char :: rest) r
  | Err _ => True
  | Panic => False
  end.
Proof.
  unfold translateBackslashCommand. cbv zeta.
  destruct (directive_fields rest) as [cmd [more ->]].
  chain form_leaf.
Qed.

(** The rule chain returns, and its result has one of the four forms; an
    error comes from the directive of a command that starts with the
    backslash. *)
Lemma postgres_cases (cmd : gostring) :
  match translateForPostgres cmd with
  | Ok r => resultForm cmd r
  | Err msg => HasPrefix cmd (lit "\") = true /\ translateBackslashCommand cmd = Err msg
  | Panic => False
  end.
Proof.
  unfold translateForPostgres. cbv zeta.
  destruct (handleHelpCommands (TrimSuffix cmd (lit ";"))) as [r|] eqn:Eh.
  { destruct (help_cases _ _ Eh) as [kind [-> Hk]].
    apply Action. unfold actionKinds. simpl in *. tauto. }
  chain ltac:(first [ form_leaf | idtac ]).
  match goal with H : HasPrefix cmd _ = true |- _ =>
    destruct (HasPrefix_byte _ _ H) as [rest ->] end.
  pose proof (backslash_cases rest) as Hb.
  destruct (translateBackslashCommand ("\"%char :: rest)); [exact Hb| |exact Hb].
  split; reflexivity.
Qed.

Lemma Translate_cases (t : Translator) (input : gostring) :
  match Translate t input with
  | Ok r => resultForm (TrimSpace input) r
  | Err msg =>
    HasPrefix (TrimSpace input) (lit "\") = true
    /\ translateBackslashCommand (TrimSpace input) = Err msg
  | Panic => False
  end.
Proof.
  unfold Translate. cbv zeta. destruct (streq (dbType t) DB.MySQL).
  - apply Passthrough.
  - apply postgres_cases.
Qed.

(** The directives of [translateBackslashCommand]. *)
Definition directives : list gostring :=
  [lit "\l"; lit "\list"; lit "\dt"; lit "\dt+"; lit "\d"; lit "\di"; lit "\dv"; lit "\df";
   lit "\du"; lit "\dn"; lit "\c"; lit "\connect"; lit "\q"; lit "\quit"; lit "\?";
   lit "\help"; lit "\x"].

Lemma Sprintf_unknown (cmd : gostring) :
  Sprintf (lit "unknown command: %s") [cmd] = lit "unknown command: " ++ cmd.
Proof. cbn. rewrite app_nil_r. reflexivity. Qed.

Ltac split_orb :=
  repeat match goal with
  | H : (_ || _) = false |- _ => apply orb_false_iff in H; destruct H
  end.

(** The two errors of a directive. *)
Lemma backslash_errors (s msg : gostring) :
  translateBackslashCommand s = Err msg ->
  exists cmd more, Fields (TrimSpace s) = cmd :: more
    /\ ((anyOf cmd directives = false /\ msg = lit "unknown command: " ++ cmd)
        \/ (anyOf cmd [lit "\c"; lit "\connect"] = true /\ more = []
            /\ msg = lit "usage: \c database_name")).
Proof.
  unfold translateBackslashCommand. cbv zeta.
  destruct (Fields (TrimSpace s)) as [|cmd more]; [discriminate|].
  repeat lazymatch goal with
  | |- (if ?b then _ else _) = _ -> _ =>
    destruct b eqn:?; [ try (intros H; discriminate H) | ]
  end.
  all: try (intros H; discriminate H).
  - intros [= <-]. exists cmd, more. split; [reflexivity|]. right.
    split; [assumption|]. split; [|reflexivity].
    match goal with H : (1 <? _) = false |- _ => apply Nat.ltb_ge in H; simpl in H end.
    destruct more; [reflexivity|simpl in *; lia].
  - intros [= <-]. exists cmd, more. split; [reflexivity|]. left.
    split; [|apply Sprintf_unknown].
    unfold anyOf in *. simpl in *. split_orb.
    repeat match goal with H : streq cmd _ = false |- _ => rewrite H; clear H end.
    reflexivity.
Qed.

(** ** Recognized forms *)

(** The literal phrases of the rule chain. *)
Definition phrases : list gostring :=
  [lit "SHOW DATABASES"; lit "SHOW TABLES"; lit "SHOW FULL TABLES"; lit "SHOW STATUS";
   lit "SHOW VARIABLES"; lit "SHOW GLOBAL VARIABLES"; lit "SHOW PROCESSLIST";
   lit "SHOW FULL PROCESSLIST"; lit "SHOW GRANTS"; lit "SHOW TABLE STATUS";
   lit "SHOW SCHEMAS"; lit "SHOW TRIGGERS"; lit "SHOW FUNCTION STATUS";
   lit "SHOW PROCEDURE STATUS"; lit "SHOW ENGINES"; lit "SHOW CHARSET";
   lit "SHOW CHARACTER SET"; lit "SHOW COLLATION"; lit "SHOW WARNINGS"; lit "SHOW ERRORS";
   lit "SELECT DATABASE()"; lit "SELECT VERSION()"; lit "SELECT USER()";
   lit "SELECT CURRENT_USER()"; lit "SELECT NOW()"].

(** Its patterns. *)
Definition patterns : list regex :=
  [showTablesFromRe; showColumnsRe; showFullColumnsRe; showCreateTableRe;
   showCreateDatabaseRe; showIndexRe; showVarsLikeRe; showGrantsForRe; useDbRe].

Definition found (re : regex) (s : gostring) : bool :=
  match FindStringSubmatch re s with Some _ => true | None => false end.

Definition isHelp (s : gostring) : bool :=
  match handleHelpCommands s with Some _ => true | None => false end.

(** A command is recognized when a form of the table matches it: a help
    form, a literal phrase or a pattern, the terminator apart. *)
Definition recognized (cmd : gostring) : bool :=
  let trimmed := TrimSuffix cmd (lit ";") in
  isHelp trimmed || anyOf (ToUpper trimmed) phrases || existsb (fun re => found re trimmed) patterns.

(** The tokens the directive rewriter reads. *)
Definition directiveTokens (input : gostring) : list gostring :=
  Fields (TrimSpace (TrimSpace input)).

(** A condition holds that the hypotheses say is false, one disjunct
    after the other. *)
Ltac refute E :=
  lazymatch type of E with
  | (_ || _) = true => apply orb_true_iff in E; destruct E as [E|E]; refute E
  | ?x = true =>
    first [ discriminate E
          | match goal with Hf : x = false |- _ => exact (eq_true_false_abs x E Hf) end ]
  end.

Ltac absurd_cond E :=
  exfalso;
  first [ match goal with Hf : true = false |- _ => discriminate Hf end | refute E ].

Ltac absurd_found re s E :=
  exfalso;
  match goal with
  | Hf : found re s = false |- _ => unfold found in Hf; rewrite E in Hf; discriminate Hf
  end.

(** What no form of the table matches is passed through. *)
Lemma unrecognized_passthrough (cmd : gostring) :
  recognized cmd = false -> HasPrefix cmd (lit "\") = false ->
  translateForPostgres cmd = Ok (query cmd).
Proof.
  intros H Hb. unfold recognized in H. cbv zeta in H.
  apply orb_false_iff in H. destruct H as [H Hp].
  apply orb_false_iff in H. destruct H as [Hh Hl].
  cbn [existsb anyOf phrases patterns] in Hl, Hp. split_orb.
  unfold translateForPostgres. cbv zeta.
  unfold isHelp in Hh.
  destruct (handleHelpCommands (TrimSuffix cmd (lit ";"))) eqn:Eh; [discriminate Hh|].
  repeat lazymatch goal with
  | |- (if ?b then _ else _) = _ =>
    let E := fresh "E" in destruct b eqn:E; [absurd_cond E|]
  | |- match FindStringSubmatch ?re ?s with Some _ => _ | None => _ end = _ =>
    let E := fresh "E" in destruct (FindStringSubmatch re s) eqn:E; [absurd_found re s E|]
  end.
  reflexivity.
Qed.

(** C3 (as amended). [Translate] fails only for a directive: when it
    returns an error, the input starts, once trimmed, with the backslash,
    and either its first token is no directive of the table (the error
    names the token, as for [\z]) or it is [\c] or [\connect] with no
    argument (the usage error). It never panics. For an input that does
    not start, once trimmed, with the backslash it returns no error, and
    when no form of the table matches, the trimmed input comes back as the
    query. *)
Theorem C3_errors_only_for_directives :
  Translate pg (lit "\z") = Err (lit "unknown command: \z")
  /\ (forall (t : Translator) (input : gostring),
        match Translate t input with
        | Ok _ => True
        | Err msg =>
          HasPrefix (TrimSpace input) (lit "\") = true
          /\ exists cmd more, directiveTokens input = cmd :: more
             /\ ((anyOf cmd directives = false /\ msg = lit "unknown command: " ++ cmd)
                 \/ (anyOf cmd [lit "\c"; lit "\connect"] = true /\ more = []
                     /\ msg = lit "usage: \c database_name"))
        | Panic => False
        end)
  /\ (forall (t : Translator) (input : gostring),
        HasPrefix (TrimSpace input) (lit "\") = false ->
        exists r, Translate t input = Ok r)
  /\ (forall (t : Translator) (input : gostring),
        HasPrefix (TrimSpace input) (lit "\") = false ->
        recognized (TrimSpace input) = false ->
        Translate t input = Ok (query (TrimSpace input))).
Proof.
  split; [vm_compute; reflexivity|]. split; [|split].
  - intros t input. pose proof (Translate_cases t input) as H.
    destruct (Translate t input) as [r|msg|]; [exact I| |exact H].
    destruct H as [Hp He]. split; [exact Hp|]. apply backslash_errors. exact He.
  - intros t input Hp. pose proof (Translate_cases t input) as H.
    destruct (Translate t input) as [r|msg|]; [exists r; reflexivity| |contradiction].
    destruct H as [Hq _]. congruence.
  - intros t input Hp Hr. unfold Translate. cbv zeta.
    destruct (streq (dbType t) DB.MySQL); [reflexivity|].
    apply unrecognized_passthrough; assumption.
Qed.

(** The claim as written fails twice: [\c] alone fails, and its first
    token is a directive of the table; and an input that begins with a
    blank, not with the backslash, fails when a directive follows. *)
Lemma C3_counterexample :
  (Translate pg (lit "\c") = Err (lit "usage: \c database_name")
   /\ anyOf (lit "\c") directives = true)
  /\ (Translate pg (lit " \z") = Err (lit "unknown command: \z")
      /\ HasPrefix (lit " \z") (lit "\") = false).
Proof. vm_compute. repeat split. Qed.

Lemma C3_errors_only_for_directives_witness :
  Translate pg (lit "SELECT 1;") = Ok (query (TrimSpace (lit "SELECT 1;"))).
Proof.
  apply (proj2 (proj2 (proj2 C3_errors_only_for_directives))); vm_compute; reflexivity.
Defined.

(** The two runes above ASCII that [\w] holds under [(?i)], as the
    decoder reads them, and what the rules make of them: a name may hold
    them, a keyword may be written with them, and a part of their encoding
    is no part of a name. *)
Lemma folded_runes :
  DecodeRune [byte 0xC5; byte 0xBF] = (0x17F%N, 2)
  /\ DecodeRune [byte 0xE2; byte 0x84; byte 0xAA] = (0x212A%N, 3)
  /\ Translate pg (lit "USE " ++ [byte 0xE2; byte 0x84; byte 0xAA])
     = Ok (special (lit "use_database") [[byte 0xE2; byte 0x84; byte 0xAA]])
  /\ recognized (lit "USE " ++ [byte 0xE2; byte 0x84; byte 0xAA]) = true
  /\ Translate pg (lit "SHOW CREATE TABLE a" ++ [byte 0xC5; byte 0xBF] ++ lit "b")
     = Ok (special (lit "show_create_table") [lit "a" ++ [byte 0xC5; byte 0xBF] ++ lit "b"])
  /\ Translate pg (lit "u" ++ [byte 0xC5; byte 0xBF] ++ lit "e x")
     = Ok (special (lit "use_database") [lit "x"])
  /\ Translate pg (lit "USE " ++ [byte 0xE2; byte 0x84])
     = Ok (query (lit "USE " ++ [byte 0xE2; byte 0x84]))
  /\ Translate pg (lit "USE a" ++ [byte 0xC5])
     = Ok (query (lit "USE a" ++ [byte 0xC5])).
Proof. vm_compute. repeat split. Qed.

(** ** The claims on fixed inputs, and the invariant of a result *)

(** *** The native dialect: the input, trimmed *)

(** A text without white space around it: no white-space rune starts it,
    and none ends it (no suffix of the text is one white-space rune). *)
Definition unpadded (q : gostring) : Prop :=
  spaceWidth q = 0
  /\ forall p r, q = p ++ r -> r <> [] -> spaceWidth r <> length r.

(** A rune is no longer than the bytes it is read from. *)
Lemma DecodeRune_le (s : gostring) (r : N) (w : nat) :
  DecodeRune s = (r, w) -> w <= length s.
Proof.
  destruct s as [|c t]; [intros [= _ <-]; simpl; lia|].
  unfold DecodeRune, decodeMulti.
  destruct (code c <? 0x80)%N; [intros [= _ <-]; simpl; lia|].
  destruct (inRange 0xC2 0xDF (code c)).
  { destruct t as [|c1 t]; [intros [= _ <-]; simpl; lia|].
    destruct (isCont (code c1)); intros [= _ <-]; simpl; lia. }
  destruct (inRange 0xE0 0xEF (code c)).
  { destruct t as [|c1 [|c2 t]]; try (intros [= _ <-]; simpl; lia).
    match goal with |- context [if ?b then _ else _] => destruct b end;
      intros [= _ <-]; simpl; lia. }
  destruct (inRange 0xF0 0xF4 (code c)); [|intros [= _ <-]; simpl; lia].
  destruct t as [|c1 [|c2 [|c3 t]]]; try (intros [= _ <-]; simpl; lia).
  match goal with |- context [if ?b then _ else _] => destruct b end;
    intros [= _ <-]; simpl; lia.
Qed.

Lemma spaceWidth_length (s : gostring) : spaceWidth s <= length s.
Proof.
  unfold spaceWidth. destruct (DecodeRune s) as [r w] eqn:E.
  apply DecodeRune_le in E. destruct (IsSpace r); lia.
Qed.

(** Dropping the rest of a rune, then trimming: trimming what follows
    the rune. *)
Lemma trimLeftFrom_skip (s : gostring) :
  forall k, k <= length s -> trimLeftFrom k s = TrimLeft (skipn k s).
Proof.
  induction s as [|c s IH]; intros k Hk.
  - simpl in Hk. assert (k = 0) by lia. subst. reflexivity.
  - destruct k as [|k]; [reflexivity|]. simpl in Hk.
    cbn [trimLeftFrom skipn]. apply IH. lia.
Qed.

(** What [TrimLeft] removes whole ends with a white-space rune. *)
Lemma white_suffix (n : nat) :
  forall s, length s <= n -> s <> [] -> TrimLeft s = [] ->
  exists p r, s = p ++ r /\ r <> [] /\ spaceWidth r = length r.
Proof.
  induction n as [|n IH]; intros s Hn Hne E.
  - destruct s; [congruence|simpl in Hn; lia].
  - destruct s as [|c s']; [congruence|].
    pose proof (spaceWidth_length (c :: s')) as Hw.
    unfold TrimLeft in E. cbn [trimLeftFrom] in E.
    destruct (spaceWidth (c :: s')) as [|k] eqn:Ew; [discriminate E|].
    simpl in Hw, Hn.
    rewrite (trimLeftFrom_skip s' k) in E by lia.
    destruct (skipn k s') as [|d rest] eqn:Er.
    + exists [], (c :: s'). split; [reflexivity|]. split; [discriminate|].
      rewrite Ew. simpl. f_equal.
      assert (Hl : length (skipn k s') = 0) by (rewrite Er; reflexivity).
      rewrite length_skipn in Hl. lia.
    + assert (Hl : length (d :: rest) <= n).
      { rewrite <- Er, length_skipn. lia. }
      destruct (IH (d :: rest) Hl ltac:(discriminate) E) as [p [r [Ep [Hr Hs]]]].
      exists (c :: firstn k s' ++ p), r. split; [|split; assumption].
      rewrite <- (firstn_skipn k s') at 1. rewrite Er, Ep.
      cbn [app]. rewrite <- app_assoc. reflexivity.
Qed.

(** [TrimSpace] leaves a text alone that has no white space around it. *)
Lemma TrimSpace_unpadded (q : gostring) : unpadded q -> TrimSpace q = q.
Proof.
  intros [Hs He]. unfold TrimSpace.
  assert (El : TrimLeft q = q).
  { destruct q as [|c s]; [reflexivity|]. unfold TrimLeft. cbn [trimLeftFrom].
    rewrite Hs. reflexivity. }
  rewrite El. clear Hs El.
  induction q as [|c q IH]; [reflexivity|].
  cbn [TrimRight].
  destruct (TrimLeft (c :: q)) as [|a t] eqn:E.
  - exfalso.
    destruct (white_suffix (length (c :: q)) (c :: q) (Nat.le_refl _)
                ltac:(discriminate) E) as [p [r [Ep [Hr Hw]]]].
    exact (He p r Ep Hr Hw).
  - cbn [isNil]. f_equal. apply IH.
    intros p r Ep. apply (He (c :: p) r). rewrite Ep. reflexivity.
Qed.

(** The two ends of a text are ASCII and no white space. *)
Definition plainEnds (p : gostring) : bool :=
  match p with
  | c :: _ => plain c && plain (last p c)
  | [] => false
  end.

Lemma ends_split (A : Type) (c : A) (s : list A) :
  s <> [] -> c :: s = c :: removelast s ++ [last s c].
Proof.
  intros Hne. rewrite (app_removelast_last c Hne) at 1. reflexivity.
Qed.

Lemma plain_ascii (c : ascii) : plain c = true -> (code c <? 0x80)%N = true.
Proof. intros H. apply andb_true_iff in H. tauto. Qed.

(** A text that ends with a plain byte ends with no white-space rune. *)
Lemma plain_last_unpadded (x : gostring) (d : ascii) :
  plain d = true ->
  forall p r, x ++ [d] = p ++ r -> r <> [] -> spaceWidth r <> length r.
Proof.
  intros Hd p r E Hr.
  destruct (exists_last Hr) as [r0 [d' Er]]. subst r.
  rewrite app_assoc in E. apply app_inj_tail in E. destruct E as [_ <-].
  destruct r0 as [|a r0].
  - simpl. rewrite (spaceWidth_plain d [] Hd). discriminate.
  - pose proof (spaceWidth_le a d r0 (plain_ascii d Hd)) as Hw.
    simpl. rewrite length_app. simpl. lia.
Qed.

Lemma plainEnds_unpadded (q : gostring) : plainEnds q = true -> unpadded q.
Proof.
  destruct q as [|c s]; [discriminate|]. unfold plainEnds.
  intros H. apply andb_true_iff in H. destruct H as [Hc Hd]. split.
  - apply spaceWidth_plain. exact Hc.
  - destruct s as [|b s].
    + apply (plain_last_unpadded [] c Hc).
    + change (last (c :: b :: s) c) with (last (b :: s) c) in Hd.
      rewrite (ends_split _ c (b :: s)) by discriminate.
      rewrite app_comm_cons. apply plain_last_unpadded. exact Hd.
Qed.

(** White space of ASCII, as a user types it: tabs, line ends and
    blanks. *)
Definition blank (c : ascii) : bool := (code c <? 0x80)%N && IsSpace (code c).

Lemma TrimLeft_blanks (pre x : gostring) :
  Forall (fun c => blank c = true) pre -> TrimLeft (pre ++ x) = TrimLeft x.
Proof.
  induction 1 as [|c pre Hc _ IH]; [reflexivity|].
  apply andb_true_iff in Hc. destruct Hc as [Ha Hs].
  unfold TrimLeft in *. cbn [app trimLeftFrom]. unfold spaceWidth.
  rewrite (DecodeRune_ascii c (pre ++ x) Ha), Hs. exact IH.
Qed.

Lemma DecodeRune_width_more (a c : ascii) (x y : gostring) (r : N) (w : nat) :
  (code c <? 0x80)%N = true ->
  DecodeRune (a :: x ++ c :: y) = (r, w) -> w <= S (length x).
Proof.
  intros Hc. unfold DecodeRune, decodeMulti, isCont.
  destruct (code a <? 0x80)%N; [intros [= _ <-]; lia|].
  destruct (inRange 0xC2 0xDF (code a)).
  { destruct x as [|x1 x']; simpl.
    - rewrite (ascii_not_in_range c _ _ Hc) by lia. intros [= _ <-]; lia.
    - destruct (inRange 0x80 0xBF (code x1)); intros [= _ <-]; lia. }
  destruct (inRange 0xE0 0xEF (code a)).
  { destruct x as [|x1 [|x2 x']]; simpl.
    - destruct y as [|y1 y]; [intros [= _ <-]; lia|].
      rewrite (ascii_not_in_range c _ _ Hc) by (destruct (code a =? 0xE0)%N; lia).
      intros [= _ <-]; lia.
    - rewrite (ascii_not_in_range c _ _ Hc) by lia. rewrite andb_false_r.
      intros [= _ <-]; lia.
    - match goal with |- context [if ?b then _ else _] => destruct b end;
        intros [= _ <-]; lia. }
  destruct (inRange 0xF0 0xF4 (code a)); [|intros [= _ <-]; lia].
  destruct x as [|x1 [|x2 [|x3 x']]]; simpl.
  - destruct y as [|y1 [|y2 y]]; try (intros [= _ <-]; lia).
    rewrite (ascii_not_in_range c _ _ Hc) by (destruct (code a =? 0xF0)%N; lia).
    intros [= _ <-]; lia.
  - destruct y as [|y1 y]; [intros [= _ <-]; lia|].
    rewrite (ascii_not_in_range c _ _ Hc) by lia. rewrite andb_false_r.
    intros [= _ <-]; lia.
  - rewrite (ascii_not_in_range c _ _ Hc) by lia. rewrite andb_false_r.
    intros [= _ <-]; lia.
  - match goal with |- context [if ?b then _ else _] => destruct b end;
      intros [= _ <-]; lia.
Qed.

(** White space is not all there is in a string that holds a plain
    byte. *)
Lemma trimLeftFrom_plain_more (c : ascii) (y : gostring) :
  plain c = true ->
  forall (n : nat) (x : gostring) (skip : nat),
    length x <= n -> skip <= length x -> trimLeftFrom skip (x ++ c :: y) <> [].
Proof.
  intros Hc. pose proof (plain_ascii c Hc) as Ha.
  induction n as [|n IH]; intros x skip Hn Hs.
  - destruct x; simpl in *; [|lia]. assert (skip = 0) by lia. subst.
    rewrite (spaceWidth_plain c y Hc). discriminate.
  - destruct x as [|a x]; simpl in *.
    + assert (skip = 0) by lia. subst. rewrite (spaceWidth_plain c y Hc). discriminate.
    + destruct skip as [|k]; [|apply IH; lia].
      assert (Hw : spaceWidth (a :: x ++ c :: y) <= S (length x)).
      { unfold spaceWidth. destruct (DecodeRune (a :: x ++ c :: y)) as [r w] eqn:E.
        apply DecodeRune_width_more in E; [|exact Ha]. destruct (IsSpace r); lia. }
      destruct (spaceWidth (a :: x ++ c :: y)) as [|k]; [discriminate|].
      apply IH; lia.
Qed.

Lemma TrimRight_blanks (post : gostring) :
  Forall (fun c => blank c = true) post -> TrimRight post = [].
Proof.
  intros H. destruct post as [|c post]; [reflexivity|]. cbn [TrimRight].
  rewrite <- (app_nil_r (c :: post)). rewrite (TrimLeft_blanks (c :: post) [] H).
  reflexivity.
Qed.

(** [TrimRight] removes the blanks after a plain byte, and nothing
    before it. *)
Lemma TrimRight_plain_blanks (x : gostring) (d : ascii) (post : gostring) :
  plain d = true -> Forall (fun c => blank c = true) post ->
  TrimRight (x ++ d :: post) = x ++ [d].
Proof.
  intros Hd Hp. induction x as [|a x IH].
  - cbn [app TrimRight]. rewrite (TrimLeft_plain d post Hd). cbn [isNil].
    rewrite (TrimRight_blanks post Hp). reflexivity.
  - change (TrimRight ((a :: x) ++ d :: post))
      with (if isNil (TrimLeft ((a :: x) ++ d :: post)) then []
            else a :: TrimRight (x ++ d :: post)).
    rewrite IH.
    destruct (TrimLeft ((a :: x) ++ d :: post)) eqn:E; [|reflexivity].
    exfalso. revert E. unfold TrimLeft.
    apply (trimLeftFrom_plain_more d post Hd (length (a :: x))); simpl; lia.
Qed.

Lemma TrimSpace_padded (pre q post : gostring) :
  Forall (fun c => blank c = true) pre -> Forall (fun c => blank c = true) post ->
  plainEnds q = true ->
  TrimSpace (pre ++ q ++ post) = q.
Proof.
  intros Hpre Hpost Hq. unfold TrimSpace. rewrite (TrimLeft_blanks pre _ Hpre).
  destruct q as [|c s]; [discriminate|]. unfold plainEnds in Hq.
  apply andb_true_iff in Hq. destruct Hq as [Hc Hd].
  change ((c :: s) ++ post) with (c :: s ++ post).
  rewrite (TrimLeft_plain c (s ++ post) Hc).
  destruct s as [|b s].
  - apply (TrimRight_plain_blanks [] c post Hc Hpost).
  - change (last (c :: b :: s) c) with (last (b :: s) c) in Hd.
    assert (E : b :: s = removelast (b :: s) ++ [last (b :: s) c])
      by (apply app_removelast_last; discriminate).
    rewrite E. rewrite <- app_assoc.
    apply (TrimRight_plain_blanks (c :: removelast (b :: s)) (last (b :: s) c) post Hd Hpost).
Qed.

(** C2 as written fails: white space around the input is not returned. *)
Lemma C2_counterexample :
  Translate mysql (lit " SHOW DATABASES; ") = Ok (query (lit "SHOW DATABASES;"))
  /\ Translate mysql (lit " SHOW DATABASES; ") <> Ok (query (lit " SHOW DATABASES; ")).
Proof. vm_compute. split; [reflexivity|discriminate]. Qed.

(** C2 (as amended). For the native dialect, every input comes back as
    the query, trimmed of the white space around it, with no special
    action and no error. So an input without white space around it (no
    white-space rune starts it and none ends it) comes back as it is: the
    identity law holds of such inputs. And blanks, tabs and line ends
    around a text whose two ends are plain characters are removed: the
    text comes back without them. *)
Theorem C2_native_identity_trimmed :
  (forall input, Translate mysql input = Ok (query (TrimSpace input)))
  /\ (forall q, unpadded q -> Translate mysql q = Ok (query q))
  /\ (forall pre q post,
        Forall (fun c => blank c = true) pre -> Forall (fun c => blank c = true) post ->
        plainEnds q = true ->
        Translate mysql (pre ++ q ++ post) = Ok (query q)).
Proof.
  split; [reflexivity|]. split.
  - intros q Hq. change (Translate mysql q) with (Ok (query (TrimSpace q))).
    rewrite (TrimSpace_unpadded q Hq). reflexivity.
  - intros pre q post Hpre Hpost Hq.
    change (Translate mysql (pre ++ q ++ post)) with (Ok (query (TrimSpace (pre ++ q ++ post)))).
    rewrite (TrimSpace_padded pre q post Hpre Hpost Hq). reflexivity.
Qed.

Lemma C2_native_identity_trimmed_witness :
  Translate mysql (lit "SELECT 1;") = Ok (query (lit "SELECT 1;"))
  /\ Translate mysql ([TAB; " "%char] ++ lit "USE shop" ++ [" "%char; NL])
     = Ok (query (lit "USE shop")).
Proof.
  split.
  - apply (proj1 (proj2 C2_native_identity_trimmed)).
    apply plainEnds_unpadded. reflexivity.
  - apply (proj2 (proj2 C2_native_identity_trimmed)); [| |reflexivity];
      repeat constructor.
Defined.

(** C4. [\c] and [\connect] with no token after them fail with the usage
    error; [\c mydb] yields the switch of database with the one argument
    [mydb]. *)
Theorem C4_connect_needs_argument :
  Translate pg (lit "\c") = Err (lit "usage: \c database_name")
  /\ Translate pg (lit "\connect") = Err (lit "usage: \c database_name")
  /\ Translate pg (lit "\c mydb") = Ok (special (lit "use_database") [lit "mydb"]).
Proof. vm_compute. repeat split. Qed.

(** C5. [USE testdb] yields the switch of database with the one argument
    [testdb] and no query. *)
Theorem C5_use_database :
  Translate pg (lit "USE testdb")
  = Ok {| Query := []; IsSpecial := true; SpecialType := lit "use_database";
          Args := [lit "testdb"] |}.
Proof. vm_compute. reflexivity. Qed.

(** ** The help phrases *)

(** The help phrases, each with the kind it yields. *)
Definition helpPhrases : list (gostring * gostring) :=
  [(lit "SHOW --HELP", lit "show_help");
   (lit "SHOW CREATE --HELP", lit "show_create_help");
   (lit "SHOW TABLES --HELP", lit "show_tables_help");
   (lit "SHOW COLUMNS --HELP", lit "show_columns_help");
   (lit "DESC --HELP", lit "show_columns_help");
   (lit "DESCRIBE --HELP", lit "show_columns_help")].

(** What the help rules compare: the input trimmed, without one final
    terminator, trimmed again, in upper case. *)
Definition normalized (input : gostring) : gostring :=
  ToUpper (TrimSpace (TrimSuffix (TrimSpace input) (lit ";"))).

(** ** Switching the database *)

(** C9. The code at the failing input: when no connection can be opened
    to the database [n], whatever the error of [New] and whatever it
    printed before, the dispatch of [use_database n] prints what [New]
    printed, returns the error and leaves the client's own database name
    as it was, but the connection it is left with is closed and already
    carries the name [n]: [SetDatabase] stores the name and closes the
    handle before it opens the new connection. Every later query fails on
    the closed handle. *)
Theorem C9_failed_switch_loses_connection
  (srv : DB.Server) (c : Client.Client) (n : gostring) (rest : list gostring)
  (out : list gostring) (e : DB.error) :
  DB.New srv (DB.withDatabase (DB.Conn_Config (Client.conn c)) n) = (out, inr e) ->
  exists c',
    Client.handleSpecialCommand srv c (special (lit "use_database") (n :: rest))
    = (c', map Client.Printed out, Some e)
    /\ Client.Database (Client.config c') = Client.Database (Client.config c)
    /\ DB.closed (DB.DB (Client.conn c')) = true
    /\ DB.GetCurrentDatabase (Client.conn c') = n
    /\ forall q, DB.Query srv (Client.conn c') q = Some DB.DatabaseClosed.
Proof.
  intros H. eexists. split.
  - unfold Client.handleSpecialCommand. cbv zeta.
    change (Client.kindIs (special (lit "use_database") (n :: rest)) "use_database") with true.
    cbv iota. change (Args (special (lit "use_database") (n :: rest))) with (n :: rest).
    cbv iota. unfold DB.SetDatabase. cbv zeta.
    change (DB.Conn_Config (DB.Close _)) with (DB.withDatabase (DB.Conn_Config (Client.conn c)) n).
    rewrite H. reflexivity.
  - repeat split.
Qed.

(** A server on which only the database [prod] exists, and a client
    connected to it. *)
Definition prodServer : DB.Server :=
  {| DB.opens := fun _ => true;
     DB.accepts := fun cfg => streq (DB.Database cfg) (lit "prod");
     DB.answers := fun _ _ => true;
     DB.delivers := fun _ _ => true |}.

Definition prodConfig : DB.Config :=
  {| DB.Host := lit "localhost"; DB.Port := 5432%Z; DB.User := lit "app"; DB.Password := [];
     DB.Database := lit "prod"; DB.Config_DBType := DB.PostgreSQL; DB.SSLMode := [] |}.

Definition prodClient : Client.Client :=
  {| Client.conn := {| DB.DB := {| DB.target := prodConfig; DB.closed := false |};
                       DB.Conn_Config := prodConfig |};
     Client.translator := pg;
     Client.config :=
       {| Client.Host := lit "localhost"; Client.Port := 5432%Z; Client.User := lit "app";
          Client.Password := []; Client.Database := lit "prod"; Client.DBType := lit "pg";
          Client.SSLMode := [] |};
     Client.expandedOutput := false |}.

Lemma C9_failed_switch_loses_connection_witness :
  exists c',
    Client.handleSpecialCommand prodServer prodClient
      (special (lit "use_database") [lit "nosuchdb"])
    = (c',
       map Client.Printed
         [lit "Connecting to PostgreSQL: host=localhost port=5432 user=app dbname=nosuchdb sslmode="
          ++ [NL]],
       Some (DB.ConnectFailed (DB.withDatabase prodConfig (lit "nosuchdb"))))
    /\ Client.Database (Client.config c') = lit "prod"
    /\ DB.closed (DB.DB (Client.conn c')) = true
    /\ DB.GetCurrentDatabase (Client.conn c') = lit "nosuchdb"
    /\ forall q, DB.Query prodServer (Client.conn c') q = Some DB.DatabaseClosed.
Proof.
  apply (C9_failed_switch_loses_connection prodServer prodClient (lit "nosuchdb") []).
  vm_compute. reflexivity.
Defined.

(** * Further properties of the code *)

(** The text a group took, [p], whatever was left to read. *)
Ltac took p :=
  match goal with
  | |- context [firstn (length ?s - length ?r) ?s] =>
    rewrite (firstn_taken p r s) by (rewrite ?app_nil_r; reflexivity)
  end.

(** ** Keywords in any case, names as written *)

Definition lowerByte (c : ascii) : ascii :=
  if inRange 0x41 0x5A (code c) then byte (code c + 0x20) else c.

(** The spellings of an upper-case word in every mix of cases. *)
Fixpoint caseVariants (w : gostring) : list gostring :=
  match w with
  | [] => [[]]
  | c :: w' => flat_map (fun v => [c :: v; lowerByte c :: v]) (caseVariants w')
  end.

(** One or more blanks of [\s]. *)
Definition blanks (ws : gostring) : Prop :=
  ws <> [] /\ Forall (fun c => inClass Space c = true) ws.

Lemma wordName_not_space (t : gostring) : wordName t -> stops Space t = true.
Proof.
  intros Ht. destruct (wordName_head t Ht) as [c [t' [-> Hc]]].
  unfold stops. rewrite (word_not_space c Hc). reflexivity.
Qed.

(** [(\w+)$] takes a name whole. *)
Lemma plusClass_name (A : Type) (t : gostring) (cont : gostring -> option A) (x : A) :
  wordName t -> cont [] = Some x -> plusClass Word t cont = Some x.
Proof.
  intros [Hne Hall] Hc. rewrite <- (app_nil_r t).
  apply plusClass_all; [exact Hne|exact Hall|reflexivity|exact Hc].
Qed.

(** [\s+(\w+)$] on blanks and a name: the blanks are passed, the name is
    taken whole; [found] is what the pattern's end returns. *)
Lemma blanks_then_name (ws t : gostring)
  (cont : gostring -> gostring -> option captures) (x : captures) :
  blanks ws -> wordName t -> cont t [] = Some x ->
  plusClass Space (ws ++ t) (fun s' => plusClass Word s' (cont s')) = Some x.
Proof.
  intros [Hne Hws] Ht Hc.
  apply plusClass_all; [exact Hne|exact Hws|apply wordName_not_space; exact Ht|].
  apply plusClass_name; assumption.
Qed.

Definition plainHead (s : gostring) : bool :=
  match s with c :: _ => plain c | [] => false end.

Lemma TrimSpace_command (pre ws t : gostring) :
  plainHead pre = true -> wordName t -> TrimSpace (pre ++ ws ++ t) = pre ++ ws ++ t.
Proof.
  intros Hc Ht. destruct pre as [|c pre]; [discriminate|].
  rewrite app_assoc. apply (TrimSpace_phrase c (pre ++ ws) t Hc Ht).
Qed.

Lemma TrimSuffix_command (pre ws t : gostring) :
  wordName t -> TrimSuffix (pre ++ ws ++ t) (lit ";") = pre ++ ws ++ t.
Proof. intros Ht. rewrite app_assoc. apply TrimSuffix_phrase. exact Ht. Qed.

(** A test of [handleHelpCommands] that the known text decides. *)
Ltac help_fails :=
  lazymatch goal with
  | |- context [if ?b then Some _ else _] =>
    let E := fresh "E" in
    assert (E : b = false) by (vm_compute; reflexivity);
    rewrite E; clear E; cbv iota
  end.

(** The steps shared by the rules of the form keyword, blanks, name: the
    command is left alone by the two trims, and is no help request. *)
Ltac command_start pre ws t Ht :=
  rewrite Translate_pg;
  rewrite (TrimSpace_command pre ws t eq_refl Ht);
  unfold translateForPostgres;
  rewrite (TrimSuffix_command pre ws t Ht); cbv zeta;
  unfold handleHelpCommands at 1;
  rewrite (TrimSpace_command pre ws t eq_refl Ht); cbv zeta;
  do 4 help_fails.

Lemma use_matches (kw ws t : gostring) :
  In kw (caseVariants (lit "USE")) -> blanks ws -> wordName t ->
  FindStringSubmatch useDbRe (kw ++ ws ++ t) = Some [kw ++ ws ++ t; t].
Proof.
  intros Hk Hws Ht. unfold FindStringSubmatch. simpl in Hk.
  repeat (destruct Hk as [<-|Hk];
          [ cbn -[firstn length];
            erewrite blanks_then_name; [|exact Hws|exact Ht|reflexivity];
            cbn -[firstn length]; taken t (@nil ascii); reflexivity | ]).
  contradiction.
Qed.

(** [USE name], the keyword in any mix of cases, one or more blanks, a
    name of word characters: the switch of database with the name as it
    was written. *)
Theorem use_any_case (kw ws t : gostring) :
  In kw (caseVariants (lit "USE")) -> blanks ws -> wordName t ->
  Translate pg (kw ++ ws ++ t) = Ok (special (lit "use_database") [t]).
Proof.
  intros Hk Hws Ht. pose proof (use_matches kw ws t Hk Hws Ht) as Hm.
  simpl in Hk.
  repeat (destruct Hk as [<-|Hk];
          [ match goal with
            | |- Translate pg (?pre ++ _ ++ _) = _ => command_start pre ws t Ht
            end;
            do 19 rule_fails; rewrite Hm; reflexivity | ]).
  contradiction.
Qed.

Lemma use_any_case_witness :
  Translate pg (lit "uSe" ++ lit "  " ++ lit "MyDb") = Ok (special (lit "use_database") [lit "MyDb"]).
Proof.
  apply (use_any_case (lit "uSe") (lit "  ") (lit "MyDb")).
  - simpl. tauto.
  - split; [discriminate|repeat constructor].
  - split; [discriminate|repeat constructor].
Defined.

(** ** The rules that take a name *)

Definition tablesOf (dbName : gostring) : gostring :=
  lines
    [ lit "SELECT tablename AS " ++ DQ ++ lit "Tables_in_" ++ dbName ++ DQ ++ lit " ";
      tabs 5 ++ lit "FROM pg_tables ";
      tabs 5 ++ lit "WHERE schemaname = 'public' ";
      tabs 5 ++ lit "ORDER BY tablename" ].

Definition fullColumns (t : gostring) : gostring :=
  lines
    [ lit "SELECT ";
      tabs 4 ++ lit "column_name AS " ++ DQ ++ lit "Field" ++ DQ ++ lit ",";
      tabs 4 ++ lit "data_type AS " ++ DQ ++ lit "Type" ++ DQ ++ lit ",";
      tabs 4 ++ lit "character_set_name AS " ++ DQ ++ lit "Collation" ++ DQ ++ lit ",";
      tabs 4 ++ lit "CASE WHEN is_nullable = 'YES' THEN 'YES' ELSE 'NO' END AS " ++ DQ ++ lit "Null" ++ DQ ++ lit ",";
      tabs 4 ++ lit "'' AS " ++ DQ ++ lit "Key" ++ DQ ++ lit ",";
      tabs 4 ++ lit "column_default AS " ++ DQ ++ lit "Default" ++ DQ ++ lit ",";
      tabs 4 ++ lit "'' AS " ++ DQ ++ lit "Extra" ++ DQ ++ lit ",";
      tabs 4 ++ lit "'select,insert,update,references' AS " ++ DQ ++ lit "Privileges" ++ DQ ++ lit ",";
      tabs 4 ++ lit "'' AS " ++ DQ ++ lit "Comment" ++ DQ;
      tabs 3 ++ lit "FROM information_schema.columns ";
      tabs 3 ++ lit "WHERE table_schema = 'public' AND table_name = '" ++ t ++ lit "'";
      tabs 3 ++ lit "ORDER BY ordinal_position" ].

Definition indexesOf (t : gostring) : gostring :=
  lines
    [ lit "SELECT ";
      tabs 4 ++ lit "schemaname AS " ++ DQ ++ lit "Table" ++ DQ ++ lit ",";
      tabs 4 ++ lit "indexname AS " ++ DQ ++ lit "Key_name" ++ DQ ++ lit ",";
      tabs 4 ++ lit "indexdef AS " ++ DQ ++ lit "Index_definition" ++ DQ;
      tabs 3 ++ lit "FROM pg_indexes ";
      tabs 3 ++ lit "WHERE schemaname = 'public' AND tablename = '" ++ t ++ lit "'" ].

Definition grantsFor (userName : gostring) : gostring :=
  lines
    [ lit "SELECT ";
      tabs 4 ++ lit "grantee AS " ++ DQ ++ lit "User" ++ DQ ++ lit ",";
      tabs 4 ++ lit "privilege_type AS " ++ DQ ++ lit "Privilege" ++ DQ ++ lit ",";
      tabs 4 ++ lit "table_schema || '.' || table_name AS " ++ DQ ++ lit "On" ++ DQ;
      tabs 3 ++ lit "FROM information_schema.role_table_grants ";
      tabs 3 ++ lit "WHERE grantee = '" ++ userName ++ lit "'" ].

Definition describeRelation (t : gostring) : gostring :=
  lines
    [ lit "SELECT ";
      tabs 5 ++ lit "column_name AS " ++ DQ ++ lit "Column" ++ DQ ++ lit ",";
      tabs 5 ++ lit "data_type AS " ++ DQ ++ lit "Type" ++ DQ ++ lit ",";
      tabs 5 ++ lit "CASE WHEN is_nullable = 'YES' THEN 'YES' ELSE 'NO' END AS " ++ DQ ++ lit "Nullable" ++ DQ;
      tabs 4 ++ lit "FROM information_schema.columns ";
      tabs 4 ++ lit "WHERE table_schema = 'public' AND table_name = '" ++ t ++ lit "'";
      tabs 4 ++ lit "ORDER BY ordinal_position" ].

Ltac same_text := unfold lines; rewrite <- ?app_assoc; vm_compute; reflexivity.

Lemma Sprintf_fmtShowTablesFrom (n : gostring) : Sprintf fmtShowTablesFrom [n] = tablesOf n.
Proof. unfold tablesOf. same_text. Qed.

Lemma Sprintf_fmtShowFullColumns (t : gostring) : Sprintf fmtShowFullColumns [t] = fullColumns t.
Proof. unfold fullColumns. same_text. Qed.

Lemma Sprintf_fmtShowIndex (t : gostring) : Sprintf fmtShowIndex [t] = indexesOf t.
Proof. unfold indexesOf. same_text. Qed.

Lemma Sprintf_fmtShowGrantsFor (u : gostring) : Sprintf fmtShowGrantsFor [u] = grantsFor u.
Proof. unfold grantsFor. same_text. Qed.

Lemma Sprintf_fmtDescribeRelation (t : gostring) :
  Sprintf fmtDescribeRelation [t] = describeRelation t.
Proof. unfold describeRelation. same_text. Qed.

(** A pattern that ends with [\s+(\w+)$] on a command that ends with
    blanks and a name. *)
Ltac matches_name ws t Hws Ht :=
  unfold FindStringSubmatch; cbn -[firstn length];
  erewrite blanks_then_name; [|exact Hws|exact Ht|reflexivity];
  cbn -[firstn length]; taken t (@nil ascii).

Lemma showTablesFromRe_FROM (ws t : gostring) :
  blanks ws -> wordName t ->
  FindStringSubmatch showTablesFromRe (lit "SHOW TABLES FROM" ++ ws ++ t)
  = Some [lit "SHOW TABLES FROM" ++ ws ++ t; lit "FROM"; t].
Proof.
  intros Hws Ht. matches_name ws t Hws Ht. took (lit "FROM"). reflexivity.
Qed.

Lemma showTablesFromRe_IN (ws t : gostring) :
  blanks ws -> wordName t ->
  FindStringSubmatch showTablesFromRe (lit "SHOW TABLES IN" ++ ws ++ t)
  = Some [lit "SHOW TABLES IN" ++ ws ++ t; lit "IN"; t].
Proof.
  intros Hws Ht. matches_name ws t Hws Ht. took (lit "IN"). reflexivity.
Qed.

(** The result of the cross-database form. *)
Definition crossDatabase (dbName : gostring) : TranslationResult :=
  {| Query := tablesOf dbName; IsSpecial := true;
     SpecialType := lit "cross_db_query"; Args := [dbName] |}.

(** [SHOW TABLES FROM db] and [SHOW TABLES IN db] yield the same
    cross-database marker: the query names [db] in its column title only,
    and reads [pg_tables] of the connected database. *)
Theorem show_tables_from_in (ws t : gostring) :
  blanks ws -> wordName t ->
  Translate pg (lit "SHOW TABLES FROM" ++ ws ++ t) = Ok (crossDatabase t)
  /\ Translate pg (lit "SHOW TABLES IN" ++ ws ++ t) = Ok (crossDatabase t).
Proof.
  intros Hws Ht. split.
  - command_start (lit "SHOW TABLES FROM") ws t Ht. do 3 rule_fails.
    rewrite (showTablesFromRe_FROM ws t Hws Ht).
    unfold crossDatabase. rewrite <- Sprintf_fmtShowTablesFrom. reflexivity.
  - command_start (lit "SHOW TABLES IN") ws t Ht. do 3 rule_fails.
    rewrite (showTablesFromRe_IN ws t Hws Ht).
    unfold crossDatabase. rewrite <- Sprintf_fmtShowTablesFrom. reflexivity.
Qed.

Lemma show_tables_from_in_witness :
  Translate pg (lit "SHOW TABLES FROM" ++ lit " " ++ lit "shop") = Ok (crossDatabase (lit "shop"))
  /\ Translate pg (lit "SHOW TABLES IN" ++ lit " " ++ lit "shop") = Ok (crossDatabase (lit "shop")).
Proof.
  apply (show_tables_from_in (lit " ") (lit "shop")).
  - split; [discriminate|repeat constructor].
  - split; [discriminate|repeat constructor].
Defined.

(** *** A query, an action, or both *)

(** C1 as written fails: the results of [SHOW TABLES FROM db] and of
    [SHOW TABLES IN db] are special, hold the name as argument, and hold a
    query, which is not empty. *)
Lemma C1_counterexample :
  Translate pg (lit "SHOW TABLES FROM db")
  = Ok {| Query := tablesOf (lit "db"); IsSpecial := true;
          SpecialType := lit "cross_db_query"; Args := [lit "db"] |}
  /\ Translate pg (lit "SHOW TABLES IN db")
     = Ok {| Query := tablesOf (lit "db"); IsSpecial := true;
             SpecialType := lit "cross_db_query"; Args := [lit "db"] |}
  /\ tablesOf (lit "db") <> [].
Proof. vm_compute. repeat split. discriminate. Qed.

Lemma crossQuery_nonempty (dbName : gostring) : Sprintf fmtShowTablesFrom [dbName] <> [].
Proof. nonempty. Qed.

(** C1 (as amended). For every translator (either dialect) and every
    input, a result that is special has a kind, and has an empty query
    unless its kind is [cross_db_query]; a result of that kind has one
    argument, a name, and its query, which is not empty, is the query on
    the tables written for that name. A result that is not special has no
    kind and no argument, and its query is empty only when it is the
    trimmed input passed through. The results of the kind [cross_db_query]
    are those of [SHOW TABLES FROM db] and [SHOW TABLES IN db]: either
    form, with a name [db], yields the special result of that kind whose
    one argument is [db] and whose query is the query on the tables written
    for [db]. *)
Theorem C1_query_or_action :
  (forall (t : Translator) (input : gostring),
     match Translate t input with
     | Ok r =>
       if IsSpecial r then
         SpecialType r <> []
         /\ (if streq (SpecialType r) (lit "cross_db_query")
             then exists dbName,
                 Args r = [dbName] /\ Query r = tablesOf dbName /\ Query r <> []
             else Query r = [])
       else
         SpecialType r = [] /\ Args r = []
         /\ (Query r = [] -> TrimSpace input = [])
     | Err _ => True
     | Panic => False
     end)
  /\ (forall ws db : gostring,
        blanks ws -> wordName db ->
        Translate pg (lit "SHOW TABLES FROM" ++ ws ++ db)
        = Ok {| Query := tablesOf db; IsSpecial := true;
                SpecialType := lit "cross_db_query"; Args := [db] |}
        /\ Translate pg (lit "SHOW TABLES IN" ++ ws ++ db)
           = Ok {| Query := tablesOf db; IsSpecial := true;
                   SpecialType := lit "cross_db_query"; Args := [db] |}).
Proof.
  split.
  - intros t input.
    pose proof (Translate_cases t input) as H.
    destruct (Translate t input) as [r|msg|]; [|exact I|exact H].
    destruct H as [q Hq| |kind args Hk|dbName]; simpl.
    + repeat split. intros E. contradiction.
    + repeat split. intros E. exact E.
    + unfold actionKinds in Hk. simpl in Hk.
      repeat (destruct Hk as [<-|Hk]; [split; [discriminate|reflexivity]|]).
      contradiction.
    + split; [discriminate|]. exists dbName.
      split; [reflexivity|]. split; [apply Sprintf_fmtShowTablesFrom|].
      apply crossQuery_nonempty.
  - intros ws db Hws Hdb. split.
    + command_start (lit "SHOW TABLES FROM") ws db Hdb. do 3 rule_fails.
      rewrite (showTablesFromRe_FROM ws db Hws Hdb).
      rewrite <- Sprintf_fmtShowTablesFrom. reflexivity.
    + command_start (lit "SHOW TABLES IN") ws db Hdb. do 3 rule_fails.
      rewrite (showTablesFromRe_IN ws db Hws Hdb).
      rewrite <- Sprintf_fmtShowTablesFrom. reflexivity.
Qed.

Lemma C1_query_or_action_witness :
  Translate pg (lit "SHOW TABLES FROM" ++ [TAB; " "%char] ++ lit "Shop_2")
  = Ok {| Query := tablesOf (lit "Shop_2"); IsSpecial := true;
          SpecialType := lit "cross_db_query"; Args := [lit "Shop_2"] |}
  /\ Translate pg (lit "SHOW TABLES IN" ++ [TAB; " "%char] ++ lit "Shop_2")
     = Ok {| Query := tablesOf (lit "Shop_2"); IsSpecial := true;
             SpecialType := lit "cross_db_query"; Args := [lit "Shop_2"] |}.
Proof.
  apply (proj2 C1_query_or_action [TAB; " "%char] (lit "Shop_2")).
  - split; [discriminate|repeat constructor].
  - split; [discriminate|repeat constructor].
Defined.

Lemma showFullColumnsRe_matches (ws t : gostring) :
  blanks ws -> wordName t ->
  FindStringSubmatch showFullColumnsRe (lit "SHOW FULL COLUMNS FROM" ++ ws ++ t)
  = Some [lit "SHOW FULL COLUMNS FROM" ++ ws ++ t; t].
Proof. intros Hws Ht. matches_name ws t Hws Ht. reflexivity. Qed.

(** [SHOW FULL COLUMNS FROM t] reaches its own rule: the rule of
    [SHOW COLUMNS FROM], which is tested first, does not take it. *)
Theorem show_full_columns (ws t : gostring) :
  blanks ws -> wordName t ->
  Translate pg (lit "SHOW FULL COLUMNS FROM" ++ ws ++ t) = Ok (query (fullColumns t)).
Proof.
  intros Hws Ht. command_start (lit "SHOW FULL COLUMNS FROM") ws t Ht. do 5 rule_fails.
  rewrite (showFullColumnsRe_matches ws t Hws Ht).
  rewrite <- Sprintf_fmtShowFullColumns. reflexivity.
Qed.

Lemma show_full_columns_witness :
  Translate pg (lit "SHOW FULL COLUMNS FROM" ++ lit " " ++ lit "users")
  = Ok (query (fullColumns (lit "users"))).
Proof.
  apply (show_full_columns (lit " ") (lit "users")).
  - split; [discriminate|repeat constructor].
  - split; [discriminate|repeat constructor].
Defined.

Lemma showCreateTableRe_matches (ws t : gostring) :
  blanks ws -> wordName t ->
  FindStringSubmatch showCreateTableRe (lit "SHOW CREATE TABLE" ++ ws ++ t)
  = Some [lit "SHOW CREATE TABLE" ++ ws ++ t; t].
Proof. intros Hws Ht. matches_name ws t Hws Ht. reflexivity. Qed.

Lemma showCreateDatabaseRe_matches (ws t : gostring) :
  blanks ws -> wordName t ->
  FindStringSubmatch showCreateDatabaseRe (lit "SHOW CREATE DATABASE" ++ ws ++ t)
  = Some [lit "SHOW CREATE DATABASE" ++ ws ++ t; t].
Proof. intros Hws Ht. matches_name ws t Hws Ht. reflexivity. Qed.

(** [SHOW CREATE TABLE t] and [SHOW CREATE DATABASE t] yield the two
    synthesis actions, with the name as the one argument and no query. *)
Theorem show_create (ws t : gostring) :
  blanks ws -> wordName t ->
  Translate pg (lit "SHOW CREATE TABLE" ++ ws ++ t) = Ok (special (lit "show_create_table") [t])
  /\ Translate pg (lit "SHOW CREATE DATABASE" ++ ws ++ t)
     = Ok (special (lit "show_create_database") [t]).
Proof.
  intros Hws Ht. split.
  - command_start (lit "SHOW CREATE TABLE") ws t Ht. do 6 rule_fails.
    rewrite (showCreateTableRe_matches ws t Hws Ht). reflexivity.
  - command_start (lit "SHOW CREATE DATABASE") ws t Ht. do 7 rule_fails.
    rewrite (showCreateDatabaseRe_matches ws t Hws Ht). reflexivity.
Qed.

Lemma show_create_witness :
  Translate pg (lit "SHOW CREATE TABLE" ++ lit " " ++ lit "users")
  = Ok (special (lit "show_create_table") [lit "users"])
  /\ Translate pg (lit "SHOW CREATE DATABASE" ++ lit " " ++ lit "users")
     = Ok (special (lit "show_create_database") [lit "users"]).
Proof.
  apply (show_create (lit " ") (lit "users")).
  - split; [discriminate|repeat constructor].
  - split; [discriminate|repeat constructor].
Defined.

Lemma showIndexRe_INDEX (ws t : gostring) :
  blanks ws -> wordName t ->
  FindStringSubmatch showIndexRe (lit "SHOW INDEX FROM" ++ ws ++ t)
  = Some [lit "SHOW INDEX FROM" ++ ws ++ t; lit "INDEX"; t].
Proof.
  intros Hws Ht. matches_name ws t Hws Ht.
  took (lit "INDEX"). reflexivity.
Qed.

Lemma showIndexRe_INDEXES (ws t : gostring) :
  blanks ws -> wordName t ->
  FindStringSubmatch showIndexRe (lit "SHOW INDEXES FROM" ++ ws ++ t)
  = Some [lit "SHOW INDEXES FROM" ++ ws ++ t; lit "INDEXES"; t].
Proof.
  intros Hws Ht. matches_name ws t Hws Ht.
  took (lit "INDEXES"). reflexivity.
Qed.

Lemma showIndexRe_KEYS (ws t : gostring) :
  blanks ws -> wordName t ->
  FindStringSubmatch showIndexRe (lit "SHOW KEYS FROM" ++ ws ++ t)
  = Some [lit "SHOW KEYS FROM" ++ ws ++ t; lit "KEYS"; t].
Proof.
  intros Hws Ht. matches_name ws t Hws Ht.
  took (lit "KEYS"). reflexivity.
Qed.

(** [SHOW INDEX FROM t], [SHOW INDEXES FROM t] and [SHOW KEYS FROM t]
    yield the same query on [pg_indexes], restricted to table [t]. *)
Theorem show_index_synonyms (ws t : gostring) :
  blanks ws -> wordName t ->
  Translate pg (lit "SHOW INDEX FROM" ++ ws ++ t) = Ok (query (indexesOf t))
  /\ Translate pg (lit "SHOW INDEXES FROM" ++ ws ++ t) = Ok (query (indexesOf t))
  /\ Translate pg (lit "SHOW KEYS FROM" ++ ws ++ t) = Ok (query (indexesOf t)).
Proof.
  intros Hws Ht. split; [|split].
  - command_start (lit "SHOW INDEX FROM") ws t Ht. do 8 rule_fails.
    rewrite (showIndexRe_INDEX ws t Hws Ht). rewrite <- Sprintf_fmtShowIndex. reflexivity.
  - command_start (lit "SHOW INDEXES FROM") ws t Ht. do 8 rule_fails.
    rewrite (showIndexRe_INDEXES ws t Hws Ht). rewrite <- Sprintf_fmtShowIndex. reflexivity.
  - command_start (lit "SHOW KEYS FROM") ws t Ht. do 8 rule_fails.
    rewrite (showIndexRe_KEYS ws t Hws Ht). rewrite <- Sprintf_fmtShowIndex. reflexivity.
Qed.

Lemma show_index_synonyms_witness :
  Translate pg (lit "SHOW INDEX FROM" ++ lit " " ++ lit "users") = Ok (query (indexesOf (lit "users")))
  /\ Translate pg (lit "SHOW INDEXES FROM" ++ lit " " ++ lit "users")
     = Ok (query (indexesOf (lit "users")))
  /\ Translate pg (lit "SHOW KEYS FROM" ++ lit " " ++ lit "users")
     = Ok (query (indexesOf (lit "users"))).
Proof.
  apply (show_index_synonyms (lit " ") (lit "users")).
  - split; [discriminate|repeat constructor].
  - split; [discriminate|repeat constructor].
Defined.

(** ** Grants *)

Lemma word_not_quote (c : ascii) : isWord c = true -> matchLit "'" (c :: nil) = None.
Proof. ascii_cases c; vm_compute; intros H; try reflexivity; discriminate H. Qed.

Lemma matchLit_word_quote (c : ascii) (s : gostring) :
  isWord c = true -> matchLit "'" (c :: s) = None.
Proof.
  intros H. pose proof (word_not_quote c H) as Hq. pose proof (word_ascii c H) as Ha.
  unfold matchLit in *. rewrite (DecodeRune_ascii c s Ha).
  rewrite (DecodeRune_ascii c [] Ha) in Hq.
  destruct (foldKey (code c) =? foldKey (code "'"))%N; [discriminate Hq|reflexivity].
Qed.

(** A command that starts with a plain byte and ends with a quote is left
    alone by the two trims. *)
Lemma TrimSpace_quoted (pre body : gostring) :
  plainHead pre = true -> TrimSpace (pre ++ body ++ lit "'") = pre ++ body ++ lit "'".
Proof.
  intros H. destruct pre as [|c pre]; [discriminate|].
  rewrite app_assoc. apply (TrimSpace_plain_ends c "'" (pre ++ body) H eq_refl).
Qed.

Lemma TrimSuffix_quoted (pre body : gostring) :
  TrimSuffix (pre ++ body ++ lit "'") (lit ";") = pre ++ body ++ lit "'".
Proof. rewrite app_assoc. apply TrimSuffix_other. reflexivity. Qed.

Ltac quoted_start pre body :=
  rewrite Translate_pg;
  rewrite (TrimSpace_quoted pre body eq_refl);
  unfold translateForPostgres;
  rewrite (TrimSuffix_quoted pre body); cbv zeta;
  unfold handleHelpCommands at 1;
  rewrite (TrimSpace_quoted pre body eq_refl); cbv zeta;
  do 4 help_fails.

Definition noQuote (h : gostring) : Prop := Forall (fun c => c <> "'"%char) h.

Lemma noQuote_class (h : gostring) :
  noQuote h -> Forall (fun c => inClass NotQuote c = true) h.
Proof. intros H. eapply Forall_impl; [|exact H]. apply notQuote_class. Qed.

(** What follows [FOR\s+] in the pattern: ['?(\w+)'?(@'?[^']*'?)?]. *)
Definition grantsUser : regex :=
  cat [Opt (Lit "'"); Group 1 (Plus Word); Opt (Lit "'");
       Opt (Group 2 (cat [Lit "@"; Opt (Lit "'"); Star NotQuote; Opt (Lit "'")]))].

Lemma grantsUser_bare (u : gostring) :
  wordName u -> rmatch grantsUser u [] atEnd = Some [(1, u)].
Proof.
  intros Hu. destruct (wordName_head u Hu) as [c [u' [-> Hc]]].
  unfold grantsUser. cbn [rmatch cat].
  rewrite (matchLit_word_quote c u' Hc).
  erewrite plusClass_name; [|exact Hu|reflexivity].
  cbn -[firstn length]. took (c :: u'). reflexivity.
Qed.

Lemma showGrantsForRe_bare (u : gostring) :
  wordName u ->
  FindStringSubmatch showGrantsForRe (lit "SHOW GRANTS FOR " ++ u)
  = Some [lit "SHOW GRANTS FOR " ++ u; u; []].
Proof.
  intros Hu. pose proof (grantsUser_bare u Hu) as Hm.
  destruct (wordName_head u Hu) as [c [u' [-> Hc]]].
  unfold FindStringSubmatch.
  change showGrantsForRe
    with (cat [word "SHOW"; sp; word "GRANTS"; sp; word "FOR"; sp; grantsUser]) at 1.
  cbn -[firstn length grantsUser groups].
  rewrite (word_not_space c Hc), Hm. reflexivity.
Qed.

Lemma showGrantsForRe_quoted (u : gostring) :
  wordName u ->
  FindStringSubmatch showGrantsForRe (lit "SHOW GRANTS FOR '" ++ u ++ lit "'")
  = Some [lit "SHOW GRANTS FOR '" ++ u ++ lit "'"; u; []].
Proof.
  intros [Hne Hu]. unfold FindStringSubmatch. cbn -[firstn length].
  erewrite plusClass_all; [|exact Hne|exact Hu|reflexivity|reflexivity].
  cbn -[firstn length]. took u. reflexivity.
Qed.

Lemma showGrantsForRe_host (u h : gostring) :
  wordName u -> noQuote h ->
  FindStringSubmatch showGrantsForRe (lit "SHOW GRANTS FOR '" ++ u ++ lit "'@'" ++ h ++ lit "'")
  = Some [lit "SHOW GRANTS FOR '" ++ u ++ lit "'@'" ++ h ++ lit "'"; u;
          lit "@'" ++ h ++ lit "'"].
Proof.
  intros [Hne Hu] Hh. apply noQuote_class in Hh.
  unfold FindStringSubmatch. cbn -[firstn length].
  erewrite plusClass_all; [|exact Hne|exact Hu|reflexivity|].
  2:{ cbn -[firstn length].
      erewrite starClass_all; [reflexivity|exact Hh|reflexivity|reflexivity]. }
  cbn -[firstn length]. took u. took (lit "@'" ++ h ++ lit "'"). reflexivity.
Qed.

(** [SHOW GRANTS FOR] a user name, bare, quoted, or quoted with a host:
    the same query, on the user name alone. The host takes no part. *)
Theorem show_grants_for (u h : gostring) :
  wordName u -> noQuote h ->
  Translate pg (lit "SHOW GRANTS FOR " ++ u) = Ok (query (grantsFor u))
  /\ Translate pg (lit "SHOW GRANTS FOR '" ++ u ++ lit "'") = Ok (query (grantsFor u))
  /\ Translate pg (lit "SHOW GRANTS FOR '" ++ u ++ lit "'@'" ++ h ++ lit "'")
     = Ok (query (grantsFor u)).
Proof.
  intros Hu Hh. split; [|split].
  - change (lit "SHOW GRANTS FOR " ++ u) with (lit "SHOW GRANTS FOR" ++ lit " " ++ u).
    command_start (lit "SHOW GRANTS FOR") (lit " ") u Hu. do 14 rule_fails.
    change (lit "SHOW GRANTS FOR" ++ lit " " ++ u) with (lit "SHOW GRANTS FOR " ++ u).
    rewrite (showGrantsForRe_bare u Hu). rewrite <- Sprintf_fmtShowGrantsFor. reflexivity.
  - quoted_start (lit "SHOW GRANTS FOR '") u. do 14 rule_fails.
    rewrite (showGrantsForRe_quoted u Hu). rewrite <- Sprintf_fmtShowGrantsFor. reflexivity.
  - replace (lit "SHOW GRANTS FOR '" ++ u ++ lit "'@'" ++ h ++ lit "'")
      with (lit "SHOW GRANTS FOR '" ++ (u ++ lit "'@'" ++ h) ++ lit "'")
      by (rewrite <- !app_assoc; reflexivity).
    quoted_start (lit "SHOW GRANTS FOR '") (u ++ lit "'@'" ++ h). do 14 rule_fails.
    replace (lit "SHOW GRANTS FOR '" ++ (u ++ lit "'@'" ++ h) ++ lit "'")
      with (lit "SHOW GRANTS FOR '" ++ u ++ lit "'@'" ++ h ++ lit "'")
      by (rewrite <- !app_assoc; reflexivity).
    rewrite (showGrantsForRe_host u h Hu Hh). rewrite <- Sprintf_fmtShowGrantsFor.
    reflexivity.
Qed.

Lemma show_grants_for_witness :
  Translate pg (lit "SHOW GRANTS FOR " ++ lit "bob") = Ok (query (grantsFor (lit "bob")))
  /\ Translate pg (lit "SHOW GRANTS FOR '" ++ lit "bob" ++ lit "'")
     = Ok (query (grantsFor (lit "bob")))
  /\ Translate pg (lit "SHOW GRANTS FOR '" ++ lit "bob" ++ lit "'@'" ++ lit "%" ++ lit "'")
     = Ok (query (grantsFor (lit "bob"))).
Proof.
  apply (show_grants_for (lit "bob") (lit "%")).
  - split; [discriminate|repeat constructor].
  - repeat (constructor; [discriminate|]). constructor.
Defined.

(** ** Directives *)

(** A token: one or more ASCII bytes that are no white space. *)
Definition token (t : gostring) : Prop := t <> [] /\ Forall (fun c => plain c = true) t.

Lemma token_last (t : gostring) : token t -> exists t0 d, t = t0 ++ [d] /\ plain d = true.
Proof.
  intros [Hne Hall]. destruct (exists_last Hne) as [t0 [d ->]].
  exists t0, d. split; [reflexivity|].
  apply Forall_app in Hall. destruct Hall as [_ Hd]. inversion Hd; assumption.
Qed.

(** Without its last [;], a string keeps its first byte if there is more
    to it. *)
Lemma TrimSuffix_backslash (rest : gostring) :
  exists rest', TrimSuffix ("\"%char :: rest) (lit ";") = "\"%char :: rest'.
Proof.
  unfold TrimSuffix. destruct (HasSuffix ("\"%char :: rest) (lit ";")) eqn:E.
  - destruct rest as [|c rest]; [discriminate E|].
    eexists. simpl. reflexivity.
  - exists rest. reflexivity.
Qed.

(** No rule of the chain takes a command that starts with the backslash:
    it goes to the directive rewriter. *)
Lemma postgres_directive (rest : gostring) :
  translateForPostgres ("\"%char :: rest) = translateBackslashCommand ("\"%char :: rest).
Proof.
  unfold translateForPostgres.
  destruct (TrimSuffix_backslash rest) as [rest' ->]. cbv zeta.
  unfold handleHelpCommands at 1. cbv zeta. do 4 help_fails.
  do 28 rule_fails. reflexivity.
Qed.

Lemma TrimRight_plain_app (d s : gostring) :
  Forall (fun c => plain c = true) d -> TrimRight (d ++ s) = d ++ TrimRight s.
Proof.
  intros Hd. induction Hd as [|c d Hc _ IH]; [reflexivity|].
  change (TrimRight ((c :: d) ++ s))
    with (if isNil (TrimLeft (c :: d ++ s)) then [] else c :: TrimRight (d ++ s)).
  rewrite (TrimLeft_plain c (d ++ s) Hc), IH. reflexivity.
Qed.

(** The bytes of a token go to the field being read. *)
Lemma fieldsFrom_plain (d cur s : gostring) :
  Forall (fun c => plain c = true) d ->
  fieldsFrom 0 cur (d ++ s) = fieldsFrom 0 (cur ++ d) s.
Proof.
  intros Hd. revert cur. induction Hd as [|c d Hc _ IH]; intros cur.
  - rewrite app_nil_r. reflexivity.
  - simpl. rewrite (spaceWidth_plain c (d ++ s) Hc), IH, <- app_assoc. reflexivity.
Qed.

(** What [TrimSpace] leaves of a token followed by a blank and more: the
    token, then nothing or the blank and more. *)
Lemma TrimSpace_token_more (d x : gostring) :
  token d ->
  exists y, TrimSpace (d ++ " "%char :: x) = d ++ y
            /\ (y = [] \/ exists z, y = " "%char :: z).
Proof.
  intros [Hne Hd]. unfold TrimSpace.
  assert (El : TrimLeft (d ++ " "%char :: x) = d ++ " "%char :: x).
  { destruct d as [|c d]; [congruence|]. inversion Hd; subst.
    apply TrimLeft_plain. assumption. }
  rewrite El, (TrimRight_plain_app d _ Hd).
  exists (TrimRight (" "%char :: x)). split; [reflexivity|].
  change (TrimRight (" "%char :: x))
    with (if isNil (TrimLeft (" "%char :: x)) then [] else " "%char :: TrimRight x).
  destruct (isNil (TrimLeft (" "%char :: x))); [left; reflexivity|right; eexists; reflexivity].
Qed.

(** The first field of a directive with more text after a blank. *)
Lemma Fields_token_more (d x : gostring) :
  token d ->
  exists more, Fields (TrimSpace (TrimSpace (d ++ " "%char :: x))) = d :: more.
Proof.
  intros Hd. destruct (TrimSpace_token_more d x Hd) as [y [-> Hy]].
  assert (H2 : exists y', TrimSpace (d ++ y) = d ++ y' /\ (y' = [] \/ exists z, y' = " "%char :: z)).
  { destruct Hy as [->|[z ->]].
    - exists []. split; [|left; reflexivity].
      rewrite app_nil_r. destruct (token_last d Hd) as [d0 [c [-> Hc]]].
      destruct d0 as [|a d0].
      + unfold TrimSpace. simpl app. rewrite (TrimLeft_plain c [] Hc).
        apply (TrimRight_plain_last c [] Hc).
      + destruct Hd as [_ Hd]. inversion Hd; subst.
        apply TrimSpace_plain_ends; assumption.
    - apply TrimSpace_token_more. exact Hd. }
  destruct H2 as [y' [-> Hy']]. destruct Hd as [Hne Hd].
  unfold Fields. rewrite (fieldsFrom_plain d [] y' Hd). simpl app.
  destruct Hy' as [->|[z ->]].
  - simpl. destruct d; [congruence|]. eexists. reflexivity.
  - simpl. destruct d; [congruence|]. eexists. reflexivity.
Qed.

Lemma Fields_token (d : gostring) : token d -> Fields (TrimSpace (TrimSpace d)) = [d].
Proof.
  intros Hd.
  assert (E : TrimSpace d = d).
  { destruct (token_last d Hd) as [d0 [c [-> Hc]]]. destruct d0 as [|a d0].
    - unfold TrimSpace. simpl app. rewrite (TrimLeft_plain c [] Hc).
      apply (TrimRight_plain_last c [] Hc).
    - destruct Hd as [_ Hd]. inversion Hd; subst.
      apply TrimSpace_plain_ends; assumption. }
  rewrite !E. destruct Hd as [Hne Hd]. unfold Fields.
  rewrite <- (app_nil_r d) at 1. rewrite (fieldsFrom_plain d [] [] Hd).
  simpl. destruct d; [congruence|reflexivity].
Qed.

(** The [switch] of [translateBackslashCommand] on a first token that is
    none of [\d], [\c], [\connect] does not read the other tokens. *)
Lemma directive_by_first_token (s s' cmd : gostring) (more more' : list gostring) :
  anyOf cmd [lit "\d"; lit "\c"; lit "\connect"] = false ->
  Fields (TrimSpace s) = cmd :: more ->
  Fields (TrimSpace s') = cmd :: more' ->
  translateBackslashCommand s = translateBackslashCommand s'.
Proof.
  intros Hc E E'. unfold translateBackslashCommand. cbv zeta. rewrite E, E'.
  unfold anyOf in Hc. cbn [existsb] in Hc. split_orb.
  unfold anyOf. cbn [existsb].
  repeat match goal with H : streq cmd _ = false |- _ => rewrite H; clear H end.
  cbn [orb]. reflexivity.
Qed.

(** A directive other than [\d], [\c] and [\connect] is decided by its
    first token: what follows it after a blank is not read, so the result
    (the unknown-command error included) is that of the token alone. *)
Theorem directive_ignores_rest (d x : gostring) :
  token d -> HasPrefix d (lit "\") = true ->
  anyOf d [lit "\d"; lit "\c"; lit "\connect"] = false ->
  Translate pg (d ++ lit " " ++ x) = Translate pg d.
Proof.
  intros Hd Hp Hc. rewrite !Translate_pg.
  destruct (HasPrefix_byte d "\" Hp) as [rest Er].
  destruct (Fields_token_more d x Hd) as [more Em].
  pose proof (Fields_token d Hd) as E1.
  assert (Ea : exists r1, TrimSpace (d ++ lit " " ++ x) = "\"%char :: r1).
  { destruct (TrimSpace_token_more d x Hd) as [y [Ey _]].
    change (lit " " ++ x) with (" "%char :: x). rewrite Ey, Er. eexists. reflexivity. }
  assert (Eb : exists r2, TrimSpace d = "\"%char :: r2).
  { destruct (token_last d Hd) as [d0 [c [E0 Hc0]]].
    assert (E : TrimSpace d = d).
    { rewrite E0. destruct d0 as [|a d0].
      - unfold TrimSpace. simpl app. rewrite (TrimLeft_plain c [] Hc0).
        apply (TrimRight_plain_last c [] Hc0).
      - destruct Hd as [_ Hd]. rewrite E0 in Hd. inversion Hd; subst.
        apply TrimSpace_plain_ends; assumption. }
    rewrite E, Er. eexists. reflexivity. }
  destruct Ea as [r1 Ea]. destruct Eb as [r2 Eb].
  change (lit " " ++ x) with (" "%char :: x) in *.
  rewrite Ea, Eb, !postgres_directive. rewrite <- Ea, <- Eb.
  apply (directive_by_first_token _ _ d more []); assumption.
Qed.

Lemma directive_ignores_rest_witness :
  Translate pg (lit "\dt" ++ lit " " ++ lit "users; drop") = Translate pg (lit "\dt").
Proof.
  apply (directive_ignores_rest (lit "\dt") (lit "users; drop")).
  - split; [discriminate|repeat constructor].
  - reflexivity.
  - reflexivity.
Defined.

Lemma TrimSpace_directive_arg (d t : gostring) :
  token d -> token t -> TrimSpace (d ++ " "%char :: t) = d ++ " "%char :: t.
Proof.
  intros [Hne Hd] Ht. destruct (token_last t Ht) as [t0 [c [-> Hc]]].
  destruct d as [|a d]; [congruence|]. inversion Hd; subst.
  change ((a :: d) ++ " "%char :: t0 ++ [c]) with (a :: d ++ (" "%char :: t0) ++ [c]).
  rewrite app_assoc. apply TrimSpace_plain_ends; assumption.
Qed.

Lemma Fields_directive_arg (d t : gostring) :
  token d -> token t -> Fields (d ++ " "%char :: t) = [d; t].
Proof.
  intros [Hne Hd] [Hnt Ht]. unfold Fields.
  rewrite (fieldsFrom_plain d [] _ Hd). simpl app.
  simpl. rewrite <- (app_nil_r t) at 1. rewrite (fieldsFrom_plain t [] [] Ht).
  simpl. destruct d; [congruence|]. destruct t; [congruence|]. reflexivity.
Qed.

Lemma token_literal_d : token (lit "\d").
Proof. split; [discriminate|repeat constructor]. Qed.

Lemma token_literal_c : token (lit "\c").
Proof. split; [discriminate|repeat constructor]. Qed.

Lemma token_literal_connect : token (lit "\connect").
Proof. split; [discriminate|repeat constructor]. Qed.

Ltac directive_arg d Hd t Ht :=
  rewrite Translate_pg;
  change (d ++ lit " " ++ t) with (d ++ " "%char :: t);
  rewrite (TrimSpace_directive_arg d t Hd Ht);
  change (d ++ " "%char :: t) with ("\"%char :: tl d ++ " "%char :: t);
  rewrite postgres_directive;
  change ("\"%char :: tl d ++ " "%char :: t) with (d ++ " "%char :: t);
  unfold translateBackslashCommand;
  rewrite (TrimSpace_directive_arg d t Hd Ht); cbv zeta;
  rewrite (Fields_directive_arg d t Hd Ht).

(** [\d name] describes the relation [name], and [\c name] and
    [\connect name] switch to the database [name], for every token: the
    name is whatever stands between the blank and the end, taken as it is
    (a quote or a terminator in it is part of the name). *)
Theorem directive_with_name (t : gostring) :
  token t ->
  Translate pg (lit "\d" ++ lit " " ++ t) = Ok (query (describeRelation t))
  /\ Translate pg (lit "\c" ++ lit " " ++ t) = Ok (special (lit "use_database") [t])
  /\ Translate pg (lit "\connect" ++ lit " " ++ t) = Ok (special (lit "use_database") [t]).
Proof.
  intros Ht. split; [|split].
  - directive_arg (lit "\d") token_literal_d t Ht.
    rewrite <- Sprintf_fmtDescribeRelation. reflexivity.
  - directive_arg (lit "\c") token_literal_c t Ht. reflexivity.
  - directive_arg (lit "\connect") token_literal_connect t Ht. reflexivity.
Qed.

Lemma directive_with_name_witness :
  Translate pg (lit "\d" ++ lit " " ++ lit "o'brien;")
  = Ok (query (describeRelation (lit "o'brien;")))
  /\ Translate pg (lit "\c" ++ lit " " ++ lit "o'brien;")
     = Ok (special (lit "use_database") [lit "o'brien;"])
  /\ Translate pg (lit "\connect" ++ lit " " ++ lit "o'brien;")
     = Ok (special (lit "use_database") [lit "o'brien;"]).
Proof.
  apply (directive_with_name (lit "o'brien;")).
  split; [discriminate|repeat constructor].
Defined.

(** *** Directives with a terminator *)

(** C10 as written fails: a terminator after an argument leaves the
    directive recognized, and stays in the argument. *)
Lemma C10_counterexample :
  Translate pg (lit "\d users;") = Ok (query (Sprintf fmtDescribeRelation [lit "users;"]))
  /\ Translate pg (lit "\c mydb;") = Ok (special (lit "use_database") [lit "mydb;"]).
Proof. vm_compute. repeat split. Qed.

Lemma token_terminated (t : gostring) : token t -> token (t ++ lit ";").
Proof.
  intros [_ Ht]. split; [destruct t; discriminate|].
  apply Forall_app. split; [exact Ht|repeat constructor].
Qed.

(** C10 (as amended). Every directive of the table written with the
    terminator right after its name fails with the unknown-command error,
    which names the token with its terminator: the terminator is removed
    from the copy the rules are matched on, and the directive rewriter
    reads the input as it was. A directive that takes an argument is
    recognized when the terminator follows the argument, whatever token the
    argument is, and the terminator stays in the argument. *)
Theorem C10_terminated_directive_unknown :
  Forall (fun name =>
            Translate pg (name ++ lit ";") = Err (lit "unknown command: " ++ name ++ lit ";"))
         directives
  /\ (forall t : gostring,
        token t ->
        Translate pg (lit "\d" ++ lit " " ++ t ++ lit ";")
        = Ok (query (Sprintf fmtDescribeRelation [t ++ lit ";"]))
        /\ Translate pg (lit "\c" ++ lit " " ++ t ++ lit ";")
           = Ok (special (lit "use_database") [t ++ lit ";"])
        /\ Translate pg (lit "\connect" ++ lit " " ++ t ++ lit ";")
           = Ok (special (lit "use_database") [t ++ lit ";"])).
Proof.
  split; [repeat constructor|].
  intros t Ht. pose proof (token_terminated t Ht) as Hs.
  split; [|split].
  - directive_arg (lit "\d") token_literal_d (t ++ lit ";") Hs. reflexivity.
  - directive_arg (lit "\c") token_literal_c (t ++ lit ";") Hs. reflexivity.
  - directive_arg (lit "\connect") token_literal_connect (t ++ lit ";") Hs. reflexivity.
Qed.

Lemma C10_terminated_directive_unknown_witness :
  Translate pg (lit "\d" ++ lit " " ++ lit "users" ++ lit ";")
  = Ok (query (Sprintf fmtDescribeRelation [lit "users" ++ lit ";"]))
  /\ Translate pg (lit "\c" ++ lit " " ++ lit "users" ++ lit ";")
     = Ok (special (lit "use_database") [lit "users" ++ lit ";"])
  /\ Translate pg (lit "\connect" ++ lit " " ++ lit "users" ++ lit ";")
     = Ok (special (lit "use_database") [lit "users" ++ lit ";"]).
Proof.
  apply (proj2 C10_terminated_directive_unknown (lit "users")).
  split; [discriminate|repeat constructor].
Defined.

(** ** The terminator *)

Lemma trimLeftFrom_length (s : gostring) : forall skip, length (trimLeftFrom skip s) <= length s.
Proof.
  induction s as [|c s IH]; intros skip; simpl; [lia|].
  destruct skip as [|k].
  - destruct (spaceWidth (c :: s)); [simpl; lia|].
    specialize (IH n). lia.
  - specialize (IH k). lia.
Qed.

Lemma TrimRight_length (s : gostring) : length (TrimRight s) <= length s.
Proof.
  induction s as [|c s IH]; simpl; [lia|].
  destruct (isNil (TrimLeft (c :: s))); simpl; lia.
Qed.

(** A command that [TrimSpace] leaves alone starts with no white space. *)
Lemma trimmed_head (cmd : gostring) :
  TrimSpace cmd = cmd -> cmd <> [] -> spaceWidth cmd = 0 /\ TrimRight cmd = cmd.
Proof.
  intros E Hne. unfold TrimSpace in E.
  assert (Hl : length (TrimLeft cmd) = length cmd).
  { pose proof (TrimRight_length (TrimLeft cmd)) as H1.
    pose proof (trimLeftFrom_length cmd 0) as H2. unfold TrimLeft in *.
    rewrite E in H1. lia. }
  destruct cmd as [|c s]; [congruence|].
  unfold TrimLeft in *. simpl in Hl, E.
  destruct (spaceWidth (c :: s)) as [|k] eqn:Ew.
  - split; [reflexivity|]. simpl in E. exact E.
  - pose proof (trimLeftFrom_length s k) as H. simpl in Hl. lia.
Qed.

(** An ASCII byte after the bytes read does not change the rune read. *)
Lemma DecodeRune_then_ascii (c a : ascii) (s : gostring) :
  (code a <? 0x80)%N = true -> DecodeRune (c :: s ++ [a]) = DecodeRune (c :: s).
Proof.
  intros Ha. unfold DecodeRune, decodeMulti, isCont.
  destruct (code c <? 0x80)%N; [reflexivity|].
  destruct (inRange 0xC2 0xDF (code c)).
  { destruct s as [|x1 s]; simpl; [|reflexivity].
    rewrite (ascii_not_in_range a _ _ Ha) by lia. reflexivity. }
  destruct (inRange 0xE0 0xEF (code c)).
  { destruct s as [|x1 [|x2 s]]; simpl; try reflexivity.
    rewrite (ascii_not_in_range a _ _ Ha) by lia. rewrite andb_false_r. reflexivity. }
  destruct (inRange 0xF0 0xF4 (code c)); [|reflexivity].
  destruct s as [|x1 [|x2 [|x3 s]]]; simpl; try reflexivity.
  rewrite (ascii_not_in_range a _ _ Ha) by lia. rewrite andb_false_r. reflexivity.
Qed.

Lemma TrimSpace_terminated (cmd : gostring) :
  TrimSpace cmd = cmd -> cmd <> [] -> TrimSpace (cmd ++ lit ";") = cmd ++ lit ";".
Proof.
  intros E Hne. destruct (trimmed_head cmd E Hne) as [Hw _].
  unfold TrimSpace.
  assert (El : TrimLeft (cmd ++ lit ";") = cmd ++ lit ";").
  { destruct cmd as [|c s]; [congruence|]. unfold TrimLeft. simpl.
    unfold spaceWidth in *. change (lit ";") with [";"%char].
    rewrite (DecodeRune_then_ascii c ";" s eq_refl).
    destruct (DecodeRune (c :: s)) as [r w]. destruct (IsSpace r); [|reflexivity].
    subst w. reflexivity. }
  rewrite El. apply (TrimRight_plain_last ";" cmd eq_refl).
Qed.

Lemma TrimSuffix_absent (cmd suffix : gostring) :
  HasSuffix cmd suffix = false -> TrimSuffix cmd suffix = cmd.
Proof. intros H. unfold TrimSuffix. rewrite H. reflexivity. Qed.

Ltac none_to_false :=
  repeat match goal with
  | H : FindStringSubmatch ?re ?s = None |- _ =>
    assert (found re s = false) by (unfold found; rewrite H; reflexivity); clear H
  end.

(** A recognized command (no directive) yields the same result with and
    without one final terminator. *)
Theorem terminator_optional (cmd : gostring) :
  TrimSpace cmd = cmd -> cmd <> [] ->
  HasSuffix cmd (lit ";") = false ->
  recognized cmd = true ->
  Translate pg (cmd ++ lit ";") = Translate pg cmd.
Proof.
  intros E Hne Hs Hr. rewrite !Translate_pg.
  rewrite (TrimSpace_terminated cmd E Hne), E.
  unfold recognized in Hr. rewrite (TrimSuffix_absent cmd _ Hs) in Hr. cbv zeta in Hr.
  unfold translateForPostgres.
  rewrite (TrimSuffix_absent cmd _ Hs).
  change (TrimSuffix (cmd ++ lit ";") (lit ";")) with (TrimSuffix (cmd ++ [";"%char]) [";"%char]).
  rewrite (TrimSuffix_same cmd ";"). cbv zeta.
  unfold isHelp in Hr.
  destruct (handleHelpCommands cmd) eqn:Eh; [reflexivity|].
  repeat lazymatch goal with
  | |- (if ?b then _ else _) = _ =>
    let E := fresh "E" in destruct b eqn:E; [reflexivity|]
  | |- match FindStringSubmatch ?re ?s with Some _ => _ | None => _ end = _ =>
    let E := fresh "E" in destruct (FindStringSubmatch re s) eqn:E; [reflexivity|]
  end.
  exfalso. none_to_false. split_orb.
  unfold anyOf, phrases, patterns in Hr. cbn [existsb] in Hr.
  refute Hr.
Qed.

Lemma terminator_optional_witness :
  Translate pg (lit "show Tables from shop" ++ lit ";") = Translate pg (lit "show Tables from shop").
Proof.
  apply (terminator_optional (lit "show Tables from shop")).
  - vm_compute. reflexivity.
  - discriminate.
  - reflexivity.
  - vm_compute. reflexivity.
Defined.

(** ** Help *)

Definition helpKinds : list gostring :=
  [lit "show_help"; lit "show_create_help"; lit "show_tables_help"; lit "show_columns_help"].

Ltac not_help Hk :=
  exfalso; vm_compute in Hk;
  repeat (destruct Hk as [Hk|Hk]; [discriminate Hk|]); exact Hk.

Lemma backslash_not_help (s : gostring) (r : TranslationResult) :
  translateBackslashCommand s = Ok r -> In (SpecialType r) helpKinds -> False.
Proof.
  unfold translateBackslashCommand. cbv zeta.
  destruct (Fields (TrimSpace s)) as [|cmd more]; [discriminate|].
  repeat lazymatch goal with
  | |- (if ?b then _ else _) = _ -> _ => destruct b
  end; intros [= <-] Hk; not_help Hk.
Qed.

(** The help rules return the action of a phrase, and only on the
    phrase. *)
Lemma help_phrase (s : gostring) (r : TranslationResult) :
  handleHelpCommands s = Some r ->
  r = special (SpecialType r) []
  /\ In (ToUpper (TrimSpace s), SpecialType r) helpPhrases.
Proof.
  unfold handleHelpCommands. cbv zeta. unfold helpPhrases.
  destruct (streq (ToUpper (TrimSpace s)) (lit "SHOW --HELP")) eqn:E1.
  { apply streq_eq in E1. rewrite E1. intros [= <-]. simpl. tauto. }
  destruct (streq (ToUpper (TrimSpace s)) (lit "SHOW CREATE --HELP")) eqn:E2.
  { apply streq_eq in E2. rewrite E2. intros [= <-]. simpl. tauto. }
  destruct (streq (ToUpper (TrimSpace s)) (lit "SHOW TABLES --HELP")) eqn:E3.
  { apply streq_eq in E3. rewrite E3. intros [= <-]. simpl. tauto. }
  destruct (streq (ToUpper (TrimSpace s)) (lit "SHOW COLUMNS --HELP")) eqn:E4.
  { apply streq_eq in E4. rewrite E4. intros [= <-]. simpl. tauto. }
  destruct (streq (ToUpper (TrimSpace s)) (lit "DESC --HELP")) eqn:E5.
  { apply streq_eq in E5. rewrite E5. intros [= <-]. simpl. tauto. }
  destruct (streq (ToUpper (TrimSpace s)) (lit "DESCRIBE --HELP")) eqn:E6.
  { apply streq_eq in E6. rewrite E6. intros [= <-]. simpl. tauto. }
  discriminate.
Qed.

(** Past the help rules, no rule and no directive returns a help action. *)
Lemma rules_not_help (cmd : gostring) (r : TranslationResult) :
  handleHelpCommands (TrimSuffix cmd (lit ";")) = None ->
  translateForPostgres cmd = Ok r -> In (SpecialType r) helpKinds -> False.
Proof.
  intros Eh. unfold translateForPostgres. cbv zeta. rewrite Eh.
  repeat lazymatch goal with
  | |- (if HasPrefix _ _ then _ else _) = _ -> _ => fail
  | |- (if ?b then _ else _) = _ -> _ =>
    destruct b; [intros [= <-] Hk; not_help Hk|]
  | |- match FindStringSubmatch ?re ?s with Some _ => _ | None => _ end = _ -> _ =>
    destruct (FindStringSubmatch re s); [intros [= <-] Hk; not_help Hk|]
  end.
  destruct (HasPrefix cmd (lit "\")).
  - intros H Hk. exact (backslash_not_help _ _ H Hk).
  - intros [= <-] Hk. not_help Hk.
Qed.

(** A text that goes on after [p] is not the text [q], unless [q] goes on
    the same way. *)
Lemma longer_prefix (p rest q : gostring) (c : ascii) :
  p ++ c :: rest = q -> HasPrefix q (p ++ [c]) = true.
Proof.
  intros <-. induction p as [|a p IH]; simpl; rewrite Ascii.eqb_refl; [reflexivity|exact IH].
Qed.

Lemma token_ascii (t : gostring) : token t -> asciiText t.
Proof.
  intros [_ H]. eapply Forall_impl; [|exact H]. intros c Hc. apply plain_ascii. exact Hc.
Qed.

(** A phrase, a blank and one more word: what the help rules compare is
    the phrase, the blank and a word still. The one word that leaves the
    phrase alone is the terminator. *)
Lemma normalized_more (c : ascii) (P x : gostring) :
  plain c = true -> asciiText (c :: P) -> token x -> x <> lit ";" ->
  exists y, normalized ((c :: P) ++ lit " " ++ x)
            = map upperByte (c :: P) ++ " "%char :: y.
Proof.
  intros Hc HP Hx Hne.
  assert (Htrim : forall y, token y ->
            TrimSpace ((c :: P) ++ lit " " ++ y) = (c :: P) ++ lit " " ++ y).
  { intros y Hy. destruct (token_last y Hy) as [y0 [d [-> Hd]]].
    change ((c :: P) ++ lit " " ++ y0 ++ [d]) with (c :: P ++ lit " " ++ y0 ++ [d]).
    rewrite !app_assoc. apply TrimSpace_plain_ends; assumption. }
  assert (Hcut : exists y, token y
            /\ TrimSuffix ((c :: P) ++ lit " " ++ x) (lit ";") = (c :: P) ++ lit " " ++ y).
  { destruct (token_last x Hx) as [x0 [d [Ex Hd]]]. subst x.
    destruct (Ascii.eqb d ";") eqn:Ed.
    - apply Ascii.eqb_eq in Ed. subst d. exists x0. split.
      + destruct Hx as [_ Hall]. apply Forall_app in Hall. destruct Hall as [Hall _].
        split; [|exact Hall]. intros E. subst x0. apply Hne. reflexivity.
      + rewrite !app_assoc. apply (TrimSuffix_same _ ";").
    - exists (x0 ++ [d]). split; [exact Hx|].
      rewrite !app_assoc. apply TrimSuffix_other. exact Ed. }
  destruct Hcut as [y [Hy Ecut]].
  exists (map upperByte y). unfold normalized.
  rewrite (Htrim x Hx), Ecut, (Htrim y Hy).
  rewrite ToUpper_text.
  - rewrite map_app. reflexivity.
  - apply Forall_app. split; [exact HP|].
    constructor; [reflexivity|]. apply token_ascii. exact Hy.
Qed.

(** C8 as written fails: text after the phrase makes the input ordinary
    text, with no help in the result; it is passed through, trimmed. *)
Lemma C8_counterexample :
  Translate pg (lit "SHOW TABLES --help extra") = Ok (query (lit "SHOW TABLES --help extra"))
  /\ Translate pg (lit " SHOW TABLES --help extra ")
     = Ok (query (lit "SHOW TABLES --help extra"))
  /\ Translate pg (lit "SHOW TABLES --help") = Ok (special (lit "show_tables_help") [])
  /\ Translate pg (lit "SHOW TABLES --help extra") <> Translate pg (lit "SHOW TABLES --help").
Proof. vm_compute. repeat split. discriminate. Qed.

(** C8 (as amended). The help outcome depends on what the help rules
    compare, the input trimmed, without one final terminator, trimmed
    again and in upper case, and on nothing else. An input that is a help
    phrase in that sense yields the help action of the phrase, without
    query or argument, as the bare phrase does. No other input yields a
    help action: a result of a help kind comes from an input that is the
    phrase of that kind. Text after the phrase is not accepted: a phrase,
    a blank and one more word (other than the terminator alone) yield no
    help action. *)
Theorem C8_help_by_phrase :
  (forall input phrase kind,
     In (phrase, kind) helpPhrases -> normalized input = phrase ->
     Translate pg input = Ok (special kind [])
     /\ Translate pg input = Translate pg phrase)
  /\ (forall input r,
        Translate pg input = Ok r -> In (SpecialType r) helpKinds ->
        r = special (SpecialType r) []
        /\ In (normalized input, SpecialType r) helpPhrases)
  /\ (forall phrase kind x r,
        In (phrase, kind) helpPhrases -> token x -> x <> lit ";" ->
        Translate pg (phrase ++ lit " " ++ x) = Ok r ->
        ~ In (SpecialType r) helpKinds).
Proof.
  assert (Hback : forall input r,
            Translate pg input = Ok r -> In (SpecialType r) helpKinds ->
            r = special (SpecialType r) []
            /\ In (normalized input, SpecialType r) helpPhrases).
  { intros input r. rewrite Translate_pg.
    destruct (handleHelpCommands (TrimSuffix (TrimSpace input) (lit ";"))) as [h|] eqn:Eh.
    - unfold translateForPostgres. cbv zeta. rewrite Eh. intros [= <-] _.
      exact (help_phrase _ _ Eh).
    - intros H Hk. exfalso. exact (rules_not_help _ _ Eh H Hk). }
  split; [|split; [exact Hback|]].
  - intros input phrase kind Hin Hn.
    assert (E : Translate pg input = Ok (special kind [])).
    { rewrite Translate_pg. unfold translateForPostgres, handleHelpCommands. cbv zeta.
      fold (normalized input). rewrite Hn.
      unfold helpPhrases in Hin. simpl in Hin.
      repeat (destruct Hin as [[= <- <-]|Hin]; [reflexivity|]). contradiction. }
    split; [exact E|]. rewrite E.
    unfold helpPhrases in Hin. simpl in Hin.
    repeat (destruct Hin as [[= <- <-]|Hin]; [vm_compute; reflexivity|]). contradiction.
  - intros phrase kind x r Hin Hx Hne Ht Hk.
    destruct (Hback _ r Ht Hk) as [_ Hn].
    assert (Hm : exists y, normalized (phrase ++ lit " " ++ x) = phrase ++ " "%char :: y).
    { unfold helpPhrases in Hin. simpl in Hin.
      repeat (destruct Hin as [[= <- _]|Hin];
              [ apply normalized_more; [reflexivity|repeat constructor|exact Hx|exact Hne] | ]).
      contradiction. }
    destruct Hm as [y Ey]. rewrite Ey in Hn.
    assert (Hall : forallb (fun e => negb (existsb (fun e' => HasPrefix (fst e') (fst e ++ lit " "))
                                             helpPhrases))
                           helpPhrases = true) by (vm_compute; reflexivity).
    rewrite forallb_forall in Hall. specialize (Hall _ Hin). cbv beta in Hall.
    apply negb_true_iff in Hall.
    assert (Hex : existsb (fun e' => HasPrefix (fst e') (fst (phrase, kind) ++ lit " "))
                          helpPhrases = true).
    { apply existsb_exists. eexists. split; [exact Hn|].
      apply (longer_prefix phrase y). reflexivity. }
    exact (eq_true_false_abs _ Hex Hall).
Qed.

Lemma C8_help_by_phrase_witness :
  (Translate pg (lit "  show tables --Help ;") = Ok (special (lit "show_tables_help") [])
   /\ Translate pg (lit "  show tables --Help ;") = Translate pg (lit "SHOW TABLES --HELP"))
  /\ ~ In (SpecialType (query (lit "DESC --HELP users"))) helpKinds.
Proof.
  split.
  - apply (proj1 C8_help_by_phrase (lit "  show tables --Help ;") (lit "SHOW TABLES --HELP")
             (lit "show_tables_help")).
    + unfold helpPhrases. simpl. tauto.
    + vm_compute. reflexivity.
  - apply (proj2 (proj2 C8_help_by_phrase) (lit "DESC --HELP") (lit "show_columns_help")
             (lit "users") (query (lit "DESC --HELP users"))).
    + unfold helpPhrases. simpl. tauto.
    + split; [discriminate|repeat constructor].
    + discriminate.
    + vm_compute. reflexivity.
Defined.

(** ** Help, and nothing but the phrase *)

(** A help action comes from a help phrase and from nothing else: the
    input, normalized, is one of the six phrases, the one of the kind
    returned, with nothing after it. *)
Theorem help_only_by_phrase (input : gostring) (r : TranslationResult) :
  Translate pg input = Ok r -> In (SpecialType r) helpKinds ->
  r = special (SpecialType r) []
  /\ In (normalized input, SpecialType r) helpPhrases.
Proof.
  rewrite Translate_pg. unfold translateForPostgres. cbv zeta.
  unfold handleHelpCommands. cbv zeta. fold (normalized input).
  unfold helpPhrases.
  destruct (streq (normalized input) (lit "SHOW --HELP")) eqn:E1.
  { apply streq_eq in E1. rewrite E1. intros [= <-] _. simpl. tauto. }
  destruct (streq (normalized input) (lit "SHOW CREATE --HELP")) eqn:E2.
  { apply streq_eq in E2. rewrite E2. intros [= <-] _. simpl. tauto. }
  destruct (streq (normalized input) (lit "SHOW TABLES --HELP")) eqn:E3.
  { apply streq_eq in E3. rewrite E3. intros [= <-] _. simpl. tauto. }
  destruct (streq (normalized input) (lit "SHOW COLUMNS --HELP")) eqn:E4.
  { apply streq_eq in E4. rewrite E4. intros [= <-] _. simpl. tauto. }
  destruct (streq (normalized input) (lit "DESC --HELP")) eqn:E5.
  { apply streq_eq in E5. rewrite E5. intros [= <-] _. simpl. tauto. }
  destruct (streq (normalized input) (lit "DESCRIBE --HELP")) eqn:E6.
  { apply streq_eq in E6. rewrite E6. intros [= <-] _. simpl. tauto. }
  cbn [orb]. cbv iota.
  repeat lazymatch goal with
  | |- (if ?b then _ else _) = _ -> _ =>
    destruct b; [intros [= <-] Hk; not_help Hk|]
  | |- match FindStringSubmatch ?re ?s with Some _ => _ | None => _ end = _ -> _ =>
    destruct (FindStringSubmatch re s); [intros [= <-] Hk; not_help Hk|]
  end.
  destruct (HasPrefix (TrimSpace input) (lit "\")).
  - intros H Hk. exfalso. exact (backslash_not_help _ _ H Hk).
  - intros [= <-] Hk. not_help Hk.
Qed.

Lemma help_only_by_phrase_witness :
  special (lit "show_help") [] = special (SpecialType (special (lit "show_help") [])) []
  /\ In (normalized (lit "show --help;"), SpecialType (special (lit "show_help") []))
        helpPhrases.
Proof.
  apply (help_only_by_phrase (lit "show --help;") (special (lit "show_help") [])).
  - vm_compute. reflexivity.
  - simpl. tauto.
Defined.

(** ** A switch that succeeds *)

(** When the new connection opens, the dispatch of [use_database n]
    prints what [New] printed (the line on the connection for PostgreSQL,
    nothing for MySQL) and then the line on the change, returns no error,
    the client's own database name and the connection's are both [n], and
    the connection holds an open handle on [n]. *)
Theorem switch_succeeds
  (srv : DB.Server) (c : Client.Client) (n : gostring) (rest : list gostring)
  (out : list gostring) (k : DB.Connection) :
  DB.New srv (DB.withDatabase (DB.Conn_Config (Client.conn c)) n) = (out, inl k) ->
  exists c',
    Client.handleSpecialCommand srv c (special (lit "use_database") (n :: rest))
    = (c',
       map Client.Printed out
       ++ [Client.Printed (lit "Database changed to '" ++ n ++ lit "'" ++ [NL])], None)
    /\ out = (if streq (DB.Config_DBType (DB.Conn_Config (Client.conn c))) DB.PostgreSQL
              then [DB.connecting (DB.withDatabase (DB.Conn_Config (Client.conn c)) n)]
              else [])
    /\ Client.Database (Client.config c') = n
    /\ DB.GetCurrentDatabase (Client.conn c') = n
    /\ DB.closed (DB.DB (Client.conn c')) = false
    /\ DB.Database (DB.target (DB.DB (Client.conn c'))) = n.
Proof.
  intros H. eexists. split.
  - unfold Client.handleSpecialCommand. cbv zeta.
    change (Client.kindIs (special (lit "use_database") (n :: rest)) "use_database") with true.
    cbv iota. change (Args (special (lit "use_database") (n :: rest))) with (n :: rest).
    cbv iota. unfold DB.SetDatabase. cbv zeta.
    change (DB.Conn_Config (DB.Close _)) with (DB.withDatabase (DB.Conn_Config (Client.conn c)) n).
    rewrite H. cbv iota beta.
    replace (Sprintf (lit "Database changed to '%s'") [n])
      with (lit "Database changed to '" ++ n ++ lit "'").
    + rewrite <- !app_assoc. reflexivity.
    + cbn. reflexivity.
  - unfold DB.New in H. cbv zeta in H.
    change (DB.Config_DBType (DB.withDatabase (DB.Conn_Config (Client.conn c)) n))
      with (DB.Config_DBType (DB.Conn_Config (Client.conn c))) in H.
    destruct (streq _ DB.MySQL || streq _ DB.PostgreSQL); [|discriminate H].
    destruct (DB.opens srv _); [|discriminate H].
    destruct (DB.accepts srv _); [|discriminate H].
    injection H as <- <-. repeat split.
Qed.

(** A server with two databases. *)
Definition twoServer : DB.Server :=
  {| DB.opens := fun _ => true;
     DB.accepts := fun cfg =>
       streq (DB.Database cfg) (lit "prod") || streq (DB.Database cfg) (lit "staging");
     DB.answers := fun _ _ => true;
     DB.delivers := fun _ _ => true |}.

Lemma switch_succeeds_witness :
  exists c',
    Client.handleSpecialCommand twoServer prodClient
      (special (lit "use_database") [lit "staging"])
    = (c',
       map Client.Printed
         [lit "Connecting to PostgreSQL: host=localhost port=5432 user=app dbname=staging sslmode="
          ++ [NL]]
       ++ [Client.Printed (lit "Database changed to '" ++ lit "staging" ++ lit "'" ++ [NL])],
       None)
    /\ [lit "Connecting to PostgreSQL: host=localhost port=5432 user=app dbname=staging sslmode="
        ++ [NL]]
       = [DB.connecting (DB.withDatabase prodConfig (lit "staging"))]
    /\ Client.Database (Client.config c') = lit "staging"
    /\ DB.GetCurrentDatabase (Client.conn c') = lit "staging"
    /\ DB.closed (DB.DB (Client.conn c')) = false
    /\ DB.Database (DB.target (DB.DB (Client.conn c'))) = lit "staging".
Proof.
  apply (switch_succeeds twoServer prodClient (lit "staging") []
           [lit "Connecting to PostgreSQL: host=localhost port=5432 user=app dbname=staging sslmode="
            ++ [NL]]
           {| DB.DB := {| DB.target := DB.withDatabase prodConfig (lit "staging");
                          DB.closed := false |};
              DB.Conn_Config := DB.withDatabase prodConfig (lit "staging") |}).
  vm_compute. reflexivity.
Defined.

(** ** What a group takes *)

Definition class_eqb (k k' : class) : bool :=
  match k, k' with
  | Space, Space | Word, Word | NotQuote, NotQuote => true
  | _, _ => false
  end.

(** Every group numbered [n] in the pattern is [(k+)]. *)
Fixpoint groupTakes (n : nat) (k : class) (r : regex) : bool :=
  match r with
  | Empty | Lit _ | Plus _ | Star _ => true
  | Opt r1 => groupTakes n k r1
  | Seq r1 r2 | Alt r1 r2 => groupTakes n k r1 && groupTakes n k r2
  | Group m r1 =>
    if Nat.eqb m n
    then match r1 with Plus k' => class_eqb k k' | _ => false end
    else groupTakes n k r1
  end.

(** A text made of runes of the class. *)
Inductive classText (k : class) : gostring -> Prop :=
| text_end : classText k []
| text_byte (c : ascii) (p : gostring) :
    inClass k c = true -> classText k p -> classText k (c :: p)
| text_longS (c c2 : ascii) (p : gostring) :
    lead k c = true -> longS c c2 = true -> classText k p -> classText k (c :: c2 :: p)
| text_kelvin (c c2 c3 : ascii) (p : gostring) :
    lead k c = true -> kelvin c c2 c3 = true -> classText k p ->
    classText k (c :: c2 :: c3 :: p).

(** The texts found for group [n] are made of runes of the class. *)
Definition capturesIn (n : nat) (k : class) (cs : captures) : Prop :=
  Forall (fun e => fst e = n -> classText k (snd e)) cs.

Lemma starClass_within (A : Type) (k : class) (cont : gostring -> option A) (x : A) (n : nat) :
  forall s, length s <= n ->
  starClass k s cont = Some x ->
  exists p s1, s = p ++ s1 /\ classText k p /\ cont s1 = Some x.
Proof.
  induction n as [|n IH]; intros s Hn.
  - destruct s; [|simpl in Hn; lia]. intros H. exists [], []. repeat split; [constructor|exact H].
  - assert (Hhere : cont s = Some x ->
                    exists p s1, s = p ++ s1 /\ classText k p /\ cont s1 = Some x).
    { intros H. exists [], s. repeat split; [constructor|exact H]. }
    destruct s as [|c s]; [exact Hhere|]. cbn [starClass].
    destruct (inClass k c) eqn:Ec.
    { destruct (starClass k s cont) as [y|] eqn:Es; [|exact Hhere].
      intros [= <-]. simpl in Hn.
      destruct (IH s ltac:(lia) Es) as [p [s1 [-> [Hp Hc]]]].
      exists (c :: p), s1. repeat split; [constructor; assumption|exact Hc]. }
    destruct (lead k c) eqn:El; [|exact Hhere].
    destruct s as [|c2 s2]; [exact Hhere|].
    destruct (longS c c2) eqn:E2.
    { destruct (starClass k s2 cont) as [y|] eqn:Es; [|exact Hhere].
      intros [= <-]. simpl in Hn.
      destruct (IH s2 ltac:(lia) Es) as [p [s1 [-> [Hp Hc]]]].
      exists (c :: c2 :: p), s1. repeat split; [apply text_longS; assumption|exact Hc]. }
    destruct s2 as [|c3 s3]; [exact Hhere|].
    destruct (kelvin c c2 c3) eqn:E3; [|exact Hhere].
    destruct (starClass k s3 cont) as [y|] eqn:Es; [|exact Hhere].
    intros [= <-]. simpl in Hn.
    destruct (IH s3 ltac:(lia) Es) as [p [s1 [-> [Hp Hc]]]].
    exists (c :: c2 :: c3 :: p), s1. repeat split; [apply text_kelvin; assumption|exact Hc].
Qed.

Lemma starClass_inv (A : Type) (k : class) (s : gostring) (cont : gostring -> option A) (x : A) :
  starClass k s cont = Some x ->
  exists p s1, s = p ++ s1 /\ classText k p /\ cont s1 = Some x.
Proof. apply (starClass_within A k cont x (length s)). apply Nat.le_refl. Qed.

Lemma plusClass_inv (A : Type) (k : class) (s : gostring) (cont : gostring -> option A) (x : A) :
  plusClass k s cont = Some x ->
  exists p s1, s = p ++ s1 /\ classText k p /\ cont s1 = Some x.
Proof.
  destruct s as [|c s]; cbn [plusClass]; [discriminate|].
  destruct (inClass k c) eqn:Ec.
  { intros H. destruct (starClass_inv _ k s cont x H) as [p [s1 [-> [Hp Hc]]]].
    exists (c :: p), s1. repeat split; [constructor; assumption|exact Hc]. }
  destruct (lead k c) eqn:El; [|discriminate].
  destruct s as [|c2 s2]; [discriminate|].
  destruct (longS c c2) eqn:E2.
  { intros H. destruct (starClass_inv _ k s2 cont x H) as [p [s1 [-> [Hp Hc]]]].
    exists (c :: c2 :: p), s1. repeat split; [apply text_longS; assumption|exact Hc]. }
  destruct s2 as [|c3 s3]; [discriminate|].
  destruct (kelvin c c2 c3) eqn:E3; [|discriminate].
  intros H. destruct (starClass_inv _ k s3 cont x H) as [p [s1 [-> [Hp Hc]]]].
  exists (c :: c2 :: c3 :: p), s1. repeat split; [apply text_kelvin; assumption|exact Hc].
Qed.

Lemma class_eqb_eq (k k' : class) : class_eqb k k' = true -> k = k'.
Proof. destruct k, k'; simpl; congruence. Qed.

(** The matcher keeps the invariant, when what follows keeps it. *)
Lemma rmatch_capturesIn (n : nat) (k : class) (r : regex) :
  groupTakes n k r = true ->
  forall (s : gostring) (cs : captures) (cont : gostring -> captures -> option captures)
         (cs' : captures),
    capturesIn n k cs ->
    (forall s1 cs1 x, capturesIn n k cs1 -> cont s1 cs1 = Some x -> capturesIn n k x) ->
    rmatch r s cs cont = Some cs' -> capturesIn n k cs'.
Proof.
  induction r as [|c|k0|k0|r1 IH1|r1 IH1 r2 IH2|r1 IH1 r2 IH2|m r1 IH1];
    intros Hg s cs cont cs' Hcs Hcont; simpl.
  - intros H. exact (Hcont _ _ _ Hcs H).
  - destruct (matchLit c s); [|discriminate]. intros H. exact (Hcont _ _ _ Hcs H).
  - intros H. destruct (plusClass_inv _ _ _ _ _ H) as [p [s1 [_ [_ Hc]]]].
    exact (Hcont _ _ _ Hcs Hc).
  - intros H. destruct (starClass_inv _ _ _ _ _ H) as [p [s1 [_ [_ Hc]]]].
    exact (Hcont _ _ _ Hcs Hc).
  - simpl in Hg. destruct (rmatch r1 s cs cont) eqn:E.
    + intros [= <-]. exact (IH1 Hg _ _ _ _ Hcs Hcont E).
    + intros H. exact (Hcont _ _ _ Hcs H).
  - simpl in Hg. apply andb_true_iff in Hg. destruct Hg as [Hg1 Hg2].
    apply (IH1 Hg1); [exact Hcs|].
    intros s1 cs1 x Hcs1. apply (IH2 Hg2); assumption.
  - simpl in Hg. apply andb_true_iff in Hg. destruct Hg as [Hg1 Hg2].
    destruct (rmatch r1 s cs cont) eqn:E.
    + intros [= <-]. exact (IH1 Hg1 _ _ _ _ Hcs Hcont E).
    + apply (IH2 Hg2); assumption.
  - simpl in Hg. destruct (Nat.eqb m n) eqn:Em.
    + destruct r1 as [| |k'| | | | |]; try discriminate Hg.
      apply class_eqb_eq in Hg. subst k'. simpl.
      intros H. destruct (plusClass_inv _ _ _ _ _ H) as [p [s1 [-> [Hp Hc]]]].
      rewrite firstn_app_minus in Hc.
      apply (Hcont s1 ((m, p) :: cs) cs'); [|exact Hc].
      constructor; [intros _; exact Hp|exact Hcs].
    + apply (IH1 Hg); [exact Hcs|].
      intros s1 cs1 x Hcs1. apply Hcont. constructor; [|exact Hcs1].
      simpl. intros E. apply Nat.eqb_neq in Em. congruence.
Qed.

Lemma capture_capturesIn (n : nat) (k : class) (cs : captures) :
  capturesIn n k cs -> classText k (capture n cs).
Proof.
  induction 1 as [|[m text] cs H _ IH]; simpl; [constructor|].
  destruct (Nat.eqb m n) eqn:E; [|exact IH].
  apply Nat.eqb_eq in E. apply H. exact E.
Qed.

Lemma nth_map_within (A B : Type) (f : A -> B) (l : list A) (n : nat) (d : B) (a : A) :
  n < length l -> nth n (map f l) d = f (nth n l a).
Proof.
  revert n. induction l as [|x l IH]; intros n H; simpl in *; [lia|].
  destruct n; [reflexivity|]. apply IH. lia.
Qed.

(** The submatch of a group that is [(k+)] holds runes of [k] only. *)
Lemma submatch_in_class (re : regex) (n : nat) (k : class) (s : gostring)
  (matches : list gostring) :
  groupTakes (S n) k re = true ->
  FindStringSubmatch re s = Some matches ->
  classText k (sub matches (S n)).
Proof.
  intros Hg. unfold FindStringSubmatch.
  destruct (rmatch re s [] atEnd) as [cs|] eqn:E; [|discriminate].
  intros [= <-].
  assert (Hcs : capturesIn (S n) k cs).
  { apply (rmatch_capturesIn (S n) k re Hg s [] atEnd cs); [constructor| |exact E].
    intros s1 cs1 x H1. unfold atEnd. destruct s1; [|discriminate]. intros [= <-]. exact H1. }
  unfold sub. simpl nth.
  destruct (Nat.lt_ge_cases n (length (seq 1 (groups re)))) as [Hlt|Hge].
  - rewrite (nth_map_within _ _ (fun m => capture m cs) _ n [] 0 Hlt).
    rewrite length_seq in Hlt. rewrite seq_nth by exact Hlt.
    apply capture_capturesIn. exact Hcs.
  - rewrite nth_overflow by (rewrite length_map; exact Hge). constructor.
Qed.

(** ** Where a result comes from *)

(** A text of word runes: what [(\w+)] takes under [(?i)]. Its runes are
    the word characters of ASCII, U+017F and U+212A. *)
Definition wordText (a : gostring) : Prop := classText Word a.

Lemma wordName_text (t : gostring) : wordName t -> wordText t.
Proof.
  intros [_ H]. induction H as [|c t Hc _ IH]; [constructor|].
  apply text_byte; [exact Hc|exact IH].
Qed.

(** Such a text holds no quote and no blank. *)
Lemma wordText_noQuote (a : gostring) : wordText a -> Forall (fun c => c <> "'"%char) a.
Proof.
  induction 1 as [|c p Hc _ IH|c c2 p Hl H2 _ IH|c c2 c3 p Hl H3 _ IH].
  - constructor.
  - constructor; [|exact IH]. intros E. subst c. discriminate Hc.
  - unfold longS in H2. apply andb_true_iff in H2. destruct H2 as [E1 E2].
    constructor; [intros E; subst c; discriminate E1|].
    constructor; [intros E; subst c2; discriminate E2|exact IH].
  - unfold kelvin in H3. apply andb_true_iff in H3. destruct H3 as [H3 E3].
    apply andb_true_iff in H3. destruct H3 as [E1 E2].
    constructor; [intros E; subst c; discriminate E1|].
    constructor; [intros E; subst c2; discriminate E2|].
    constructor; [intros E; subst c3; discriminate E3|exact IH].
Qed.

Lemma code_byte (c : ascii) (n : N) : (code c =? n)%N = true -> (n <? 256)%N = true -> c = byte n.
Proof.
  intros E _. apply N.eqb_eq in E. rewrite <- E. unfold code, byte.
  symmetry. apply ascii_N_embedding.
Qed.

Lemma wordText_noBlank (a : gostring) :
  wordText a -> Forall (fun c => inClass Space c = false) a.
Proof.
  induction 1 as [|c p Hc _ IH|c c2 p Hl H2 _ IH|c c2 c3 p Hl H3 _ IH].
  - constructor.
  - constructor; [|exact IH]. apply word_not_space. exact Hc.
  - unfold longS in H2. apply andb_true_iff in H2. destruct H2 as [E1 E2].
    rewrite (code_byte c _ E1 eq_refl), (code_byte c2 _ E2 eq_refl).
    repeat (constructor; [reflexivity|]). exact IH.
  - unfold kelvin in H3. apply andb_true_iff in H3. destruct H3 as [H3 E3].
    apply andb_true_iff in H3. destruct H3 as [E1 E2].
    rewrite (code_byte c _ E1 eq_refl), (code_byte c2 _ E2 eq_refl),
      (code_byte c3 _ E3 eq_refl).
    repeat (constructor; [reflexivity|]). exact IH.
Qed.

(** The fixed queries of the rule chain, and its templates that take a
    name. *)
Definition fixedQueries : list gostring :=
  [sqlShowDatabases; sqlShowTables; sqlShowFullTables; sqlShowStatus; sqlShowVariables;
   sqlShowProcesslist; sqlShowGrants; sqlShowTableStatus; sqlShowSchemas; sqlShowTriggers;
   sqlShowRoutines; sqlShowEngines; sqlShowCharset; sqlShowCollation; sqlShowWarnings;
   sqlSelectDatabase; sqlSelectVersion; sqlSelectUser; sqlSelectNow].

Definition nameTemplates : list gostring :=
  [fmtShowColumns; fmtShowFullColumns; fmtShowIndex; fmtShowGrantsFor].

Definition nameActions : list gostring :=
  [lit "use_database"; lit "show_create_table"; lit "show_create_database"].

(** The results of the rule chain on a command that is no directive. A
    text that the command supplies enters a result in three ways only:
    whole (the command passed through), as a name of word runes, or as a
    [LIKE] pattern without quote, its wild cards translated. *)
Inductive origin (cmd : gostring) : TranslationResult -> Prop :=
| FromInput : origin cmd (query cmd)
| Fixed (q : gostring) : In q fixedQueries -> origin cmd (query q)
| HelpAction (kind : gostring) : In kind helpKinds -> origin cmd (special kind [])
| NamedQuery (fmt name : gostring) :
    In fmt nameTemplates -> wordText name -> origin cmd (query (Sprintf fmt [name]))
| NamedAction (kind name : gostring) :
    In kind nameActions -> wordText name -> origin cmd (special kind [name])
| CrossQuery (name : gostring) :
    wordText name -> origin cmd (crossDatabase name)
| LikeQuery (p : gostring) :
    noQuote p -> origin cmd (query (settingsLike (wildcards p))).

Lemma class_noQuote (p : gostring) : classText NotQuote p -> noQuote p.
Proof.
  induction 1 as [|c p Hc _ IH|c c2 p Hl _ _ _|c c2 c3 p Hl _ _ _];
    [constructor| |discriminate Hl|discriminate Hl].
  constructor; [|exact IH]. intros E. subst c. discriminate Hc.
Qed.

Ltac pick_in := simpl; repeat (first [left; reflexivity | right]).

Ltac word_submatch E :=
  match type of E with
  | FindStringSubmatch ?re ?s = Some ?m =>
    match goal with
    | |- wordText (sub m (S ?n)) => exact (submatch_in_class re n Word s m eq_refl E)
    end
  end.

Lemma help_origin (s cmd : gostring) (r : TranslationResult) :
  handleHelpCommands s = Some r -> origin cmd r.
Proof.
  intros H. destruct (help_cases s r H) as [kind [-> Hk]]. apply HelpAction. exact Hk.
Qed.

Lemma Ok_same (a b : TranslationResult) : Ok a = Ok b -> a = b.
Proof. intros H. inversion H. reflexivity. Qed.

Ltac returned :=
  let H := fresh "H" in
  intros H; apply Ok_same in H; rewrite <- H; clear H.

(** For every input that is no directive, the result has one of these
    origins. *)
Theorem keyword_result_origin (input : gostring) (r : TranslationResult) :
  HasPrefix (TrimSpace input) (lit "\") = false ->
  Translate pg input = Ok r ->
  origin (TrimSpace input) r.
Proof.
  intros Hp. rewrite Translate_pg. unfold translateForPostgres. cbv zeta.
  destruct (handleHelpCommands (TrimSuffix (TrimSpace input) (lit ";"))) eqn:Eh.
  { returned. exact (help_origin _ _ _ Eh). }
  repeat lazymatch goal with
  | |- (if HasPrefix _ _ then _ else _) = _ -> _ => fail
  | |- (if ?b then _ else _) = _ -> _ =>
    destruct b; [returned; apply Fixed; pick_in|]
  | |- match FindStringSubmatch ?re ?s with Some _ => _ | None => _ end = _ -> _ =>
    let E := fresh "E" in
    let m := fresh "m" in
    destruct (FindStringSubmatch re s) as [m|] eqn:E;
    [ returned;
      first
        [ rewrite Sprintf_fmtShowTablesFrom; apply CrossQuery; word_submatch E
        | apply NamedQuery; [pick_in|word_submatch E]
        | apply NamedAction; [pick_in|word_submatch E]
        | fold (replaced (sub m 2)); rewrite replaced_wildcards, Sprintf_fmtShowVariablesLike;
          apply LikeQuery; apply class_noQuote;
          exact (submatch_in_class showVarsLikeRe 1 NotQuote _ _ eq_refl E) ]
    | ]
  end.
  rewrite Hp. returned. apply FromInput.
Qed.

Lemma keyword_result_origin_witness :
  origin (TrimSpace (lit " DESC users; ")) (query (describeColumns (lit "users"))).
Proof.
  apply (keyword_result_origin (lit " DESC users; ")); vm_compute; reflexivity.
Defined.

(** ** The dispatcher and the translator agree *)

(** The kinds the dispatcher acts on without an argument. *)
Definition plainActions : list gostring :=
  [lit "quit"; lit "help"; lit "toggle_expanded";
   lit "show_help"; lit "show_create_help"; lit "show_tables_help"; lit "show_columns_help"].

(** What [handleSpecialCommand] can act on: a kind it knows, with a first
    argument where it reads one. *)
Definition dispatchable (r : TranslationResult) : Prop :=
  In (SpecialType r) plainActions
  \/ (In (SpecialType r) nameActions /\ Args r <> [])
  \/ SpecialType r = lit "cross_db_query".

Ltac is_dispatchable :=
  unfold dispatchable; simpl;
  first [ left; tauto
        | right; left; split; [tauto|discriminate]
        | right; right; reflexivity ].

Lemma backslash_dispatchable (s : gostring) (r : TranslationResult) :
  translateBackslashCommand s = Ok r -> IsSpecial r = true -> dispatchable r.
Proof.
  unfold translateBackslashCommand. cbv zeta.
  destruct (Fields (TrimSpace s)) as [|cmd more]; [discriminate|].
  repeat lazymatch goal with
  | |- (if ?b then _ else _) = _ -> _ => destruct b
  end;
  first [ discriminate
        | returned; intros Hs; first [discriminate Hs | is_dispatchable] ].
Qed.

Lemma translated_dispatchable (t : Translator) (input : gostring) (r : TranslationResult) :
  Translate t input = Ok r -> IsSpecial r = true -> dispatchable r.
Proof.
  unfold Translate. cbv zeta. destruct (streq (dbType t) DB.MySQL).
  { returned. discriminate. }
  unfold translateForPostgres. cbv zeta.
  destruct (handleHelpCommands (TrimSuffix (TrimSpace input) (lit ";"))) as [h|] eqn:Eh.
  { returned. intros _. destruct (help_cases _ _ Eh) as [kind [-> Hk]].
    left. simpl in Hk |- *. tauto. }
  repeat lazymatch goal with
  | |- (if HasPrefix _ _ then _ else _) = _ -> _ => fail
  | |- (if ?b then _ else _) = _ -> _ =>
    destruct b; [returned; discriminate|]
  | |- match FindStringSubmatch ?re ?s with Some _ => _ | None => _ end = _ -> _ =>
    destruct (FindStringSubmatch re s);
    [returned; intros Hs; first [discriminate Hs | is_dispatchable]|]
  end.
  destruct (HasPrefix (TrimSpace input) (lit "\")).
  - apply backslash_dispatchable.
  - returned. discriminate.
Qed.

(** The errors that [handleSpecialCommand] makes itself: a missing
    argument, and a kind it does not know. *)
Definition dispatcherErrors (r : TranslationResult) : list DB.error :=
  [DB.Errorf (lit "database name required");
   DB.Errorf (lit "table name required");
   DB.Errorf (Sprintf (lit "unknown special command: %s") [SpecialType r])].

(** An error of the connection: of [New], of [Query], or of reading the
    rows in [printResults]. *)
Definition connectionError (e : DB.error) : Prop :=
  match e with
  | DB.Errorf msg => exists t, msg = lit "unsupported database type: " ++ t
  | _ => True
  end.

Lemma connectionError_other (e : DB.error) (r : TranslationResult) :
  connectionError e -> ~ In e (dispatcherErrors r).
Proof.
  destruct e as [msg|cfg|cfg| |q|q]; simpl; intros H;
    try (intros [F|[F|[F|[]]]]; discriminate F).
  destruct H as [t ->]. intros [F|[F|[F|[]]]]; cbn in F; discriminate F.
Qed.

Lemma New_error (srv : DB.Server) (cfg : DB.Config) (out : list gostring) (e : DB.error) :
  DB.New srv cfg = (out, inr e) -> connectionError e.
Proof.
  unfold DB.New. cbv zeta. destruct (streq _ DB.MySQL || streq _ DB.PostgreSQL).
  - destruct (DB.opens srv cfg); [|intros [= _ <-]; exact I].
    destruct (DB.accepts srv cfg); [discriminate|]. intros [= _ <-]. exact I.
  - intros [= _ <-]. simpl. eexists. cbn. rewrite app_nil_r. reflexivity.
Qed.

Lemma runAndPrint_error (srv : DB.Server) (c c' : Client.Client) (q : gostring)
  (before ev : list Client.event) (e : DB.error) :
  Client.runAndPrint srv c q before = (c', ev, Some e) -> connectionError e.
Proof.
  unfold Client.runAndPrint, Client.printResults, DB.Query.
  destruct (DB.closed _); [intros [= _ _ <-]; exact I|].
  destruct (DB.answers _ _ _); [|intros [= _ _ <-]; exact I].
  destruct (DB.delivers _ _ _); [discriminate|intros [= _ _ <-]; exact I].
Qed.

Lemma dispatch_error (srv : DB.Server) (c c' : Client.Client) (r : TranslationResult)
  (ev : list Client.event) (e : DB.error) :
  dispatchable r ->
  Client.handleSpecialCommand srv c r = (c', ev, Some e) -> connectionError e.
Proof.
  destruct r as [q sp kind args]. unfold dispatchable. simpl.
  intros [Hk|[[Hk Ha]|Hk]].
  - repeat (destruct Hk as [<-|Hk]; [intros F; vm_compute in F; discriminate F|]).
    contradiction.
  - destruct args as [|a rest]; [contradiction|].
    destruct Hk as [<-|[<-|[<-|[]]]].
    + unfold Client.handleSpecialCommand. cbv zeta.
      change (Client.kindIs _ "use_database") with true. cbv iota. simpl Args. cbv iota.
      unfold DB.SetDatabase. cbv zeta.
      destruct (DB.New srv _) as [out [k|err]] eqn:En.
      * discriminate.
      * intros [= _ _ <-]. exact (New_error _ _ _ _ En).
    + unfold Client.handleSpecialCommand. cbv zeta.
      change (Client.kindIs _ "use_database") with false.
      change (Client.kindIs _ "quit") with false.
      change (Client.kindIs _ "help") with false.
      change (Client.kindIs _ "toggle_expanded") with false.
      change (Client.kindIs _ "show_create_table") with true. cbv iota. simpl Args. cbv iota.
      unfold Client.showCreateTable.
      destruct (streq _ DB.MySQL); apply runAndPrint_error.
    + unfold Client.handleSpecialCommand. cbv zeta.
      change (Client.kindIs _ "use_database") with false.
      change (Client.kindIs _ "quit") with false.
      change (Client.kindIs _ "help") with false.
      change (Client.kindIs _ "toggle_expanded") with false.
      change (Client.kindIs _ "show_create_table") with false.
      change (Client.kindIs _ "show_create_database") with true. cbv iota. simpl Args. cbv iota.
      unfold Client.showCreateDatabase.
      destruct (streq _ DB.MySQL); apply runAndPrint_error.
  - subst kind. unfold Client.handleSpecialCommand. cbv zeta.
    change (Client.kindIs _ "use_database") with false.
    change (Client.kindIs _ "quit") with false.
    change (Client.kindIs _ "help") with false.
    change (Client.kindIs _ "toggle_expanded") with false.
    change (Client.kindIs _ "show_create_table") with false.
    change (Client.kindIs _ "show_create_database") with false.
    change (Client.kindIs _ "cross_db_query") with true. cbv iota.
    apply runAndPrint_error.
Qed.

(** The dispatcher knows every action the translator makes: on a result of
    [Translate], for either dialect and every input, it returns none of its
    own errors (no missing argument, no unknown kind). An error it returns
    is one of the connection. *)
Theorem dispatch_consistent
  (srv : DB.Server) (c c' : Client.Client) (t : Translator) (input : gostring)
  (r : TranslationResult) (ev : list Client.event) (e : DB.error) :
  Translate t input = Ok r -> IsSpecial r = true ->
  Client.handleSpecialCommand srv c r = (c', ev, Some e) ->
  connectionError e /\ ~ In e (dispatcherErrors r).
Proof.
  intros Ht Hs Hd.
  assert (He : connectionError e).
  { exact (dispatch_error srv c c' r ev e (translated_dispatchable t input r Ht Hs) Hd). }
  split; [exact He|]. apply connectionError_other. exact He.
Qed.

Lemma dispatch_consistent_witness :
  connectionError (DB.ConnectFailed (DB.withDatabase prodConfig (lit "nosuchdb")))
  /\ ~ In (DB.ConnectFailed (DB.withDatabase prodConfig (lit "nosuchdb")))
          (dispatcherErrors (special (lit "use_database") [lit "nosuchdb"])).
Proof.
  eapply (dispatch_consistent prodServer prodClient _ pg (lit "USE nosuchdb;")
            (special (lit "use_database") [lit "nosuchdb"])).
  - vm_compute. reflexivity.
  - reflexivity.
  - vm_compute. reflexivity.
Defined.

(** *** A new client *)

(** The translator and the connection of a client agree on the dialect. *)
Definition coherent (c : Client.Client) : Prop :=
  dbType (Client.translator c) = DB.Config_DBType (DB.Conn_Config (Client.conn c))
  /\ In (dbType (Client.translator c)) [DB.MySQL; DB.PostgreSQL].

(** [New] gives a coherent client on an open connection to the database
    asked for, display mode off; and when it fails, the connection could
    not be opened or the server refused it: the error of an unsupported
    type cannot occur, every text given as type selects one of the two
    dialects. Before either, it has printed the line on the connection when
    the dialect is PostgreSQL, and nothing otherwise. *)
Theorem New_coherent (srv : DB.Server) (cfg : Client.Config) :
  (exists dbCfg,
     fst (Session.New srv cfg)
     = if streq (Client.DBType cfg) (lit "pg") || streq (Client.DBType cfg) (lit "postgresql")
       then [DB.connecting dbCfg] else [])
  /\
  match snd (Session.New srv cfg) with
  | inl c =>
    coherent c
    /\ Client.config c = cfg
    /\ Client.expandedOutput c = false
    /\ DB.closed (DB.DB (Client.conn c)) = false
    /\ DB.GetCurrentDatabase (Client.conn c) = Client.Database cfg
    /\ DB.target (DB.DB (Client.conn c)) = DB.Conn_Config (Client.conn c)
  | inr e =>
    exists dbCfg,
      (e = DB.OpenFailed dbCfg /\ DB.opens srv dbCfg = false)
      \/ (e = DB.ConnectFailed dbCfg /\ DB.opens srv dbCfg = true
          /\ DB.accepts srv dbCfg = false)
  end.
Proof.
  split.
  { exists {| DB.Host := Client.Host cfg; DB.Port := Client.Port cfg;
              DB.User := Client.User cfg; DB.Password := Client.Password cfg;
              DB.Database := Client.Database cfg; DB.Config_DBType := DB.PostgreSQL;
              DB.SSLMode := Client.SSLMode cfg |}.
    unfold Session.New. cbv zeta.
    destruct (streq (Client.DBType cfg) (lit "pg")
              || streq (Client.DBType cfg) (lit "postgresql"));
      unfold DB.New; cbn [DB.Config_DBType];
      match goal with
      | |- context [DB.opens srv ?k] =>
        destruct (DB.opens srv k); [destruct (DB.accepts srv k)|]
      end; reflexivity. }
  unfold Session.New. cbv zeta.
  destruct (streq (Client.DBType cfg) (lit "pg") || streq (Client.DBType cfg) (lit "postgresql"));
    unfold DB.New; cbn [DB.Config_DBType];
    match goal with
    | |- context [DB.opens srv ?k] =>
      destruct (DB.opens srv k) eqn:Eo; [destruct (DB.accepts srv k) eqn:Ea|]
    end; cbn.
  all: first [ unfold coherent; cbn; repeat split; tauto
             | eexists; left; split; [reflexivity|exact Eo]
             | eexists; right; split; [reflexivity|split; [exact Eo|exact Ea]] ].
Qed.

(** *** The native dialect *)

(** On MySQL the client translates nothing and dispatches nothing: every
    input, a directive or [USE] included, is sent to the server as it is
    (trimmed), and the client stays as it was. *)
Theorem native_runs_input (srv : DB.Server) (c : Client.Client) (input : gostring) :
  dbType (Client.translator c) = DB.MySQL ->
  Client.executeQuery srv c input = Client.runAndPrint srv c (TrimSpace input) []
  /\ fst (fst (Client.executeQuery srv c input)) = c
  /\ ~ In (Client.Exit 0) (snd (fst (Client.executeQuery srv c input))).
Proof.
  intros Ht.
  assert (E : Client.executeQuery srv c input = Client.runAndPrint srv c (TrimSpace input) []).
  { unfold Client.executeQuery, Translate. cbv zeta. rewrite Ht. reflexivity. }
  rewrite E. split; [reflexivity|].
  unfold Client.runAndPrint, Client.printResults.
  destruct (DB.Query srv (Client.conn c) (TrimSpace input)); simpl.
  - split; [reflexivity|tauto].
  - destruct (DB.delivers srv _ _); simpl.
    + split; [reflexivity|]. intros [F|[]]. discriminate F.
    + split; [reflexivity|tauto].
Qed.

Definition nativeClient : Client.Client :=
  {| Client.conn := Client.conn prodClient; Client.translator := mysql;
     Client.config := Client.config prodClient; Client.expandedOutput := false |}.

Lemma native_runs_input_witness :
  Client.executeQuery prodServer nativeClient (lit " USE other; ")
  = Client.runAndPrint prodServer nativeClient (TrimSpace (lit " USE other; ")) []
  /\ fst (fst (Client.executeQuery prodServer nativeClient (lit " USE other; "))) = nativeClient
  /\ ~ In (Client.Exit 0)
          (snd (fst (Client.executeQuery prodServer nativeClient (lit " USE other; ")))).
Proof.
  apply (native_runs_input prodServer nativeClient (lit " USE other; ")). reflexivity.
Defined.

(** *** The display mode *)

(** An input that translates to [toggle_expanded] flips the display mode
    and changes nothing else, whatever the server: no query is run, no
    error returned, and a second time gives back the client as it was. *)
Theorem toggle_twice
  (srv : DB.Server) (c : Client.Client) (input : gostring) (r : TranslationResult) :
  Translate (Client.translator c) input = Ok r ->
  IsSpecial r = true -> SpecialType r = lit "toggle_expanded" ->
  exists c1 text1 text2,
    Client.executeQuery srv c input = (c1, [Client.Printed text1], None)
    /\ Client.executeQuery srv c1 input = (c, [Client.Printed text2], None)
    /\ Client.expandedOutput c1 = negb (Client.expandedOutput c)
    /\ Client.conn c1 = Client.conn c /\ Client.config c1 = Client.config c
    /\ text1 <> text2.
Proof.
  intros Ht Hs Hk.
  assert (Hd : forall k, Client.translator k = Client.translator c ->
             Client.executeQuery srv k input
             = (Client.setExpanded k (negb (Client.expandedOutput k)),
                [Client.Printed (if negb (Client.expandedOutput k)
                                 then lit "Expanded display is on." ++ [NL]
                                 else lit "Expanded display is off." ++ [NL])], None)).
  { intros k Hk'. unfold Client.executeQuery. rewrite Hk', Ht, Hs.
    unfold Client.handleSpecialCommand, Client.kindIs. rewrite Hk. reflexivity. }
  exists (Client.setExpanded c (negb (Client.expandedOutput c))).
  exists (if negb (Client.expandedOutput c)
          then lit "Expanded display is on." ++ [NL]
          else lit "Expanded display is off." ++ [NL]).
  exists (if Client.expandedOutput c
          then lit "Expanded display is on." ++ [NL]
          else lit "Expanded display is off." ++ [NL]).
  split; [apply Hd; reflexivity|].
  split.
  - rewrite Hd by reflexivity. destruct c as [k t cfg b]. cbn.
    rewrite negb_involutive. reflexivity.
  - cbn. repeat split. destruct (Client.expandedOutput c); cbn; discriminate.
Qed.

Lemma toggle_twice_witness :
  exists c1 text1 text2,
    Client.executeQuery prodServer prodClient (lit "\x") = (c1, [Client.Printed text1], None)
    /\ Client.executeQuery prodServer c1 (lit "\x") = (prodClient, [Client.Printed text2], None)
    /\ Client.expandedOutput c1 = negb (Client.expandedOutput prodClient)
    /\ Client.conn c1 = Client.conn prodClient /\ Client.config c1 = Client.config prodClient
    /\ text1 <> text2.
Proof.
  apply (toggle_twice prodServer prodClient (lit "\x") (special (lit "toggle_expanded") []));
    reflexivity.
Defined.

(** *** Tables of another database *)

(** [SHOW TABLES FROM db] and [SHOW TABLES IN db] do not go to [db]: the
    one query, which names [db] in a column title, runs on the connection
    the client has, and the client stays as it was. *)
Theorem cross_database_runs_here
  (srv : DB.Server) (c : Client.Client) (ws t : gostring) :
  Client.translator c = pg -> blanks ws -> wordName t ->
  Client.executeQuery srv c (lit "SHOW TABLES FROM" ++ ws ++ t)
  = Client.runAndPrint srv c (tablesOf t) []
  /\ Client.executeQuery srv c (lit "SHOW TABLES IN" ++ ws ++ t)
     = Client.runAndPrint srv c (tablesOf t) [].
Proof.
  intros Hc Hws Ht.
  assert (E1 : Translate pg (lit "SHOW TABLES FROM" ++ ws ++ t) = Ok (crossDatabase t)).
  { command_start (lit "SHOW TABLES FROM") ws t Ht. do 3 rule_fails.
    rewrite (showTablesFromRe_FROM ws t Hws Ht).
    unfold crossDatabase. rewrite <- Sprintf_fmtShowTablesFrom. reflexivity. }
  assert (E2 : Translate pg (lit "SHOW TABLES IN" ++ ws ++ t) = Ok (crossDatabase t)).
  { command_start (lit "SHOW TABLES IN") ws t Ht. do 3 rule_fails.
    rewrite (showTablesFromRe_IN ws t Hws Ht).
    unfold crossDatabase. rewrite <- Sprintf_fmtShowTablesFrom. reflexivity. }
  unfold Client.executeQuery. rewrite Hc, E1, E2. split; reflexivity.
Qed.

Lemma cross_database_runs_here_witness :
  Client.executeQuery prodServer prodClient (lit "SHOW TABLES FROM" ++ lit " " ++ lit "other")
  = Client.runAndPrint prodServer prodClient (tablesOf (lit "other")) []
  /\ Client.executeQuery prodServer prodClient (lit "SHOW TABLES IN" ++ lit " " ++ lit "other")
     = Client.runAndPrint prodServer prodClient (tablesOf (lit "other")) [].
Proof.
  apply (cross_database_runs_here prodServer prodClient (lit " ") (lit "other")).
  - reflexivity.
  - split; [discriminate|repeat constructor].
  - split; [discriminate|repeat constructor].
Defined.

(** *** The synthesis of a CREATE statement *)

Definition synthesisKinds : list gostring :=
  [lit "show_create_table"; lit "show_create_database"].

Ltac other_kind Hk :=
  exfalso; vm_compute in Hk;
  repeat (destruct Hk as [Hk|Hk]; [discriminate Hk|]); exact Hk.

Lemma backslash_not_synthesis (s : gostring) (r : TranslationResult) :
  translateBackslashCommand s = Ok r -> In (SpecialType r) synthesisKinds -> False.
Proof.
  unfold translateBackslashCommand. cbv zeta.
  destruct (Fields (TrimSpace s)) as [|cmd more]; [discriminate|].
  repeat lazymatch goal with
  | |- (if ?b then _ else _) = _ -> _ => destruct b
  end;
  first [ discriminate | returned; intros Hk; other_kind Hk ].
Qed.

(** The name that a synthesis action carries is made of word runes: for
    either dialect and every input, a result of kind [show_create_table]
    or [show_create_database] has exactly one argument and no query, and
    the argument is a text of the runes of [\w] under [(?i)] (the word
    characters of ASCII, U+017F and U+212A), so it holds no quote and no
    blank. No directive yields such an action. *)
Theorem synthesis_name_safe (t : Translator) (input : gostring) (r : TranslationResult) :
  Translate t input = Ok r -> In (SpecialType r) synthesisKinds ->
  exists name,
    r = special (SpecialType r) [name]
    /\ wordText name
    /\ Forall (fun c => c <> "'"%char) name
    /\ Forall (fun c => inClass Space c = false) name.
Proof.
  unfold Translate. cbv zeta. destruct (streq (dbType t) DB.MySQL).
  { returned. intros Hk. other_kind Hk. }
  unfold translateForPostgres. cbv zeta.
  destruct (handleHelpCommands (TrimSuffix (TrimSpace input) (lit ";"))) as [h|] eqn:Eh.
  { returned. intros Hk. destruct (help_cases _ _ Eh) as [kind [-> Hh]].
    simpl in Hk, Hh. exfalso.
    destruct Hh as [<-|[<-|[<-|[<-|[]]]]]; other_kind Hk. }
  repeat lazymatch goal with
  | |- (if HasPrefix _ _ then _ else _) = _ -> _ => fail
  | |- (if ?b then _ else _) = _ -> _ =>
    destruct b; [returned; intros Hk; other_kind Hk|]
  | |- match FindStringSubmatch ?re ?s with Some _ => _ | None => _ end = _ -> _ =>
    let E := fresh "E" in
    let m := fresh "m" in
    destruct (FindStringSubmatch re s) as [m|] eqn:E;
    [ returned; intros Hk;
      first [ other_kind Hk
            | eexists; split; [reflexivity|];
              match goal with
              | |- wordText ?a /\ _ =>
                let Hw := fresh "Hw" in
                assert (Hw : wordText a) by word_submatch E;
                exact (conj Hw (conj (wordText_noQuote a Hw) (wordText_noBlank a Hw)))
              end ]
    | ]
  end.
  destruct (HasPrefix (TrimSpace input) (lit "\")).
  - intros H Hk. exfalso. exact (backslash_not_synthesis _ _ H Hk).
  - returned. intros Hk. other_kind Hk.
Qed.

Lemma synthesis_name_safe_witness :
  exists name,
    special (lit "show_create_table") [lit "users"]
    = special (SpecialType (special (lit "show_create_table") [lit "users"])) [name]
    /\ wordText name
    /\ Forall (fun c => c <> "'"%char) name
    /\ Forall (fun c => inClass Space c = false) name.
Proof.
  apply (synthesis_name_safe pg (lit "show create table users;")
           (special (lit "show_create_table") [lit "users"])).
  - vm_compute. reflexivity.
  - simpl. tauto.
Defined.

(** What [runAndPrint] does, case by case: an error of the query with
    nothing printed; what comes before the rows and then the rows; or, when
    the rows cannot be read, what comes before them and the error. *)
Lemma runAndPrint_cases (srv : DB.Server) (c : Client.Client) (q : gostring)
  (before : list Client.event) :
  Client.runAndPrint srv c q before
  = match DB.Query srv (Client.conn c) q with
    | Some err => (c, [], Some err)
    | None =>
      if DB.delivers srv (DB.target (DB.DB (Client.conn c))) q
      then (c, before ++ [Client.Results q], None)
      else (c, before, Some (DB.RowsFailed q))
    end.
Proof.
  unfold Client.runAndPrint, Client.printResults.
  destruct (DB.Query srv (Client.conn c) q); [reflexivity|].
  destruct (DB.delivers srv _ q); [reflexivity|]. rewrite app_nil_r. reflexivity.
Qed.

(** On PostgreSQL, [SHOW CREATE TABLE t] and [SHOW CREATE DATABASE t] run
    one catalog query each, the name put into the template of the
    dispatcher, on the connection the client has. The line [Table: t] or
    [Database: t] is printed once the query has run: before the rows; alone,
    with the error returned, when the rows cannot be read; and not at all
    when the query fails. *)
Theorem show_create_dispatch
  (srv : DB.Server) (c : Client.Client) (ws t : gostring) :
  Client.translator c = pg ->
  DB.Config_DBType (DB.Conn_Config (Client.conn c)) = DB.PostgreSQL ->
  blanks ws -> wordName t ->
  (Client.executeQuery srv c (lit "SHOW CREATE TABLE" ++ ws ++ t)
   = Client.runAndPrint srv c (Sprintf Client.fmtShowCreateTable [t; t])
       [Client.Printed (lit "Table: " ++ t ++ [NL])]
   /\ Client.executeQuery srv c (lit "SHOW CREATE DATABASE" ++ ws ++ t)
      = Client.runAndPrint srv c (Sprintf Client.fmtShowCreateDatabase [t])
          [Client.Printed (lit "Database: " ++ t ++ [NL])])
  /\ Client.executeQuery srv c (lit "SHOW CREATE TABLE" ++ ws ++ t)
     = (let q := Sprintf Client.fmtShowCreateTable [t; t] in
        let title := Client.Printed (lit "Table: " ++ t ++ [NL]) in
        match DB.Query srv (Client.conn c) q with
        | Some err => (c, [], Some err)
        | None =>
          if DB.delivers srv (DB.target (DB.DB (Client.conn c))) q
          then (c, [title; Client.Results q], None)
          else (c, [title], Some (DB.RowsFailed q))
        end)
  /\ Client.executeQuery srv c (lit "SHOW CREATE DATABASE" ++ ws ++ t)
     = (let q := Sprintf Client.fmtShowCreateDatabase [t] in
        let title := Client.Printed (lit "Database: " ++ t ++ [NL]) in
        match DB.Query srv (Client.conn c) q with
        | Some err => (c, [], Some err)
        | None =>
          if DB.delivers srv (DB.target (DB.DB (Client.conn c))) q
          then (c, [title; Client.Results q], None)
          else (c, [title], Some (DB.RowsFailed q))
        end).
Proof.
  intros Hc Hk Hws Ht.
  assert (H : Client.executeQuery srv c (lit "SHOW CREATE TABLE" ++ ws ++ t)
              = Client.runAndPrint srv c (Sprintf Client.fmtShowCreateTable [t; t])
                  [Client.Printed (lit "Table: " ++ t ++ [NL])]
              /\ Client.executeQuery srv c (lit "SHOW CREATE DATABASE" ++ ws ++ t)
                 = Client.runAndPrint srv c (Sprintf Client.fmtShowCreateDatabase [t])
                     [Client.Printed (lit "Database: " ++ t ++ [NL])]);
    [|split; [exact H|]; destruct H as [H1 H2]; rewrite H1, H2; cbv zeta;
      split; apply runAndPrint_cases].
  assert (E1 : Translate pg (lit "SHOW CREATE TABLE" ++ ws ++ t)
               = Ok (special (lit "show_create_table") [t])).
  { command_start (lit "SHOW CREATE TABLE") ws t Ht. do 6 rule_fails.
    rewrite (showCreateTableRe_matches ws t Hws Ht). reflexivity. }
  assert (E2 : Translate pg (lit "SHOW CREATE DATABASE" ++ ws ++ t)
               = Ok (special (lit "show_create_database") [t])).
  { command_start (lit "SHOW CREATE DATABASE") ws t Ht. do 7 rule_fails.
    rewrite (showCreateDatabaseRe_matches ws t Hws Ht). reflexivity. }
  unfold Client.executeQuery. rewrite Hc, E1, E2.
  unfold Client.handleSpecialCommand, Client.showCreateTable, Client.showCreateDatabase.
  cbv zeta. rewrite Hk.
  split.
  - change (Client.kindIs _ "use_database") with false.
    change (Client.kindIs _ "quit") with false.
    change (Client.kindIs _ "help") with false.
    change (Client.kindIs _ "toggle_expanded") with false.
    change (Client.kindIs _ "show_create_table") with true.
    cbn. rewrite app_nil_r. reflexivity.
  - change (Client.kindIs _ "use_database") with false.
    change (Client.kindIs _ "quit") with false.
    change (Client.kindIs _ "help") with false.
    change (Client.kindIs _ "toggle_expanded") with false.
    change (Client.kindIs _ "show_create_table") with false.
    change (Client.kindIs _ "show_create_database") with true.
    cbn. rewrite app_nil_r. reflexivity.
Qed.

(** A server that runs every query and delivers no rows of the catalog
    query on the table [users]. *)
Definition brokenServer : DB.Server :=
  {| DB.opens := fun _ => true;
     DB.accepts := fun _ => true;
     DB.answers := fun _ _ => true;
     DB.delivers := fun _ q =>
       negb (streq q (Sprintf Client.fmtShowCreateTable [lit "users"; lit "users"])) |}.

Lemma show_create_dispatch_witness :
  Client.executeQuery brokenServer prodClient (lit "SHOW CREATE TABLE" ++ lit " " ++ lit "users")
  = (prodClient, [Client.Printed (lit "Table: users" ++ [NL])],
     Some (DB.RowsFailed (Sprintf Client.fmtShowCreateTable [lit "users"; lit "users"])))
  /\ Client.executeQuery brokenServer prodClient
       (lit "SHOW CREATE DATABASE" ++ lit " " ++ lit "users")
     = (prodClient,
        [Client.Printed (lit "Database: users" ++ [NL]);
         Client.Results (Sprintf Client.fmtShowCreateDatabase [lit "users"])], None).
Proof.
  destruct (show_create_dispatch brokenServer prodClient (lit " ") (lit "users"))
    as [_ [E1 E2]].
  - reflexivity.
  - reflexivity.
  - split; [discriminate|repeat constructor].
  - split; [discriminate|repeat constructor].
  - split.
    + rewrite E1. vm_compute. reflexivity.
    + rewrite E2. vm_compute. reflexivity.
Defined.

(** *** Statements over several lines *)

(** A line that leaves the statement open: not blank, no word of quit or
    help, no terminator at its end and no backslash at its start. *)
Definition continues (l : gostring) : bool :=
  let line := TrimSpace l in
  negb (isNil line)
  && negb (Session.quitWord (Session.ToLower line))
  && negb (Session.helpWord (Session.ToLower line))
  && negb (HasSuffix line (lit ";")) && negb (HasPrefix line (lit "\")).

(** A line that closes the statement: it ends with the terminator or
    starts with a backslash. *)
Definition completes (l : gostring) : bool :=
  let line := TrimSpace l in
  negb (isNil line)
  && negb (Session.quitWord (Session.ToLower line))
  && negb (Session.helpWord (Session.ToLower line))
  && (HasSuffix line (lit ";") || HasPrefix line (lit "\")).

(** The lines, each trimmed, with one blank between them. *)
Definition statement (ls : list gostring) (l : gostring) : gostring :=
  concat (map (fun x => TrimSpace x ++ lit " ") ls) ++ TrimSpace l.

Definition more : Session.output := Session.SetPrompt (lit "    -> ").

(** The prompts for the lines [ls] and one more line, from a loop that has
    no statement open. *)
Definition prompts (c : Client.Client) (ls : list gostring) : list Session.output :=
  Session.SetPrompt (Session.getPrompt c) :: repeat more (length ls).

Definition opened (c : Client.Client) (b : gostring) : Session.loop :=
  {| Session.client := c; Session.multiLineBuffer := b; Session.inMultiLine := true |}.

(** What the loop does once a statement is complete. *)
Definition executed (srv : DB.Server) (c : Client.Client) (before : list Session.output)
  (q : gostring) (rest : list Session.reading) : list Session.output * Session.ending :=
  let '(c', ev, err) := Client.executeQuery srv c q in
  if existsb Session.isExit ev then (before ++ map Session.Out ev, Session.Exited)
  else
    let (out, e) := Session.Run srv (Session.start c') rest in
    (before ++ map Session.Out ev ++ Session.report err ++ out, e).

Ltac split_andb H :=
  repeat match type of H with
  | (_ && _) = true => let H' := fresh "H" in apply andb_prop in H; destruct H as [H H']
  end.

Lemma continues_turn (srv : DB.Server) (s : Session.loop) (l : gostring) :
  continues l = true ->
  Session.turn srv s (Session.Line l)
  = ([], Session.Continue (opened (Session.client s)
                             (Session.multiLineBuffer s ++ TrimSpace l ++ lit " "))).
Proof.
  unfold continues. cbv zeta. intros H. split_andb H.
  apply negb_true_iff in H, H0, H1, H2, H3.
  unfold Session.turn. cbv zeta. rewrite H, H3, H2, H1, H0. reflexivity.
Qed.

Lemma completes_turn (srv : DB.Server) (s : Session.loop) (l : gostring) :
  completes l = true ->
  Session.turn srv s (Session.Line l)
  = if Session.inMultiLine s
    then Session.execute srv (Session.client s) [] (Session.multiLineBuffer s ++ TrimSpace l)
    else Session.execute srv (Session.client s) (Session.multiLineBuffer s) (TrimSpace l).
Proof.
  unfold completes. cbv zeta. intros H. split_andb H.
  apply negb_true_iff in H, H1, H2.
  unfold Session.turn. cbv zeta. rewrite H, H2, H1.
  destruct (HasSuffix (TrimSpace l) (lit ";")), (HasPrefix (TrimSpace l) (lit "\"));
    try discriminate H0; reflexivity.
Qed.

Lemma Run_execute (srv : DB.Server) (c : Client.Client) (p : Session.output)
  (q : gostring) (rest : list Session.reading) :
  (let (out, n) := Session.execute srv c [] q in
   match n with
   | Session.Stop e => (p :: out, e)
   | Session.Continue s' =>
     let (out', e) := Session.Run srv s' rest in (p :: out ++ out', e)
   end)
  = executed srv c [p] q rest.
Proof.
  unfold Session.execute, executed.
  destruct (Client.executeQuery srv c q) as [[c' ev] err].
  destruct (existsb Session.isExit ev); [reflexivity|].
  change {| Session.client := c'; Session.multiLineBuffer := []; Session.inMultiLine := false |}
    with (Session.start c').
  destruct (Session.Run srv (Session.start c') rest) as [out e].
  rewrite <- app_assoc. reflexivity.
Qed.

Lemma executed_before (srv : DB.Server) (c : Client.Client) (p : Session.output)
  (before : list Session.output) (q : gostring) (rest : list Session.reading) :
  (let (out, e) := executed srv c before q rest in (p :: out, e))
  = executed srv c (p :: before) q rest.
Proof.
  unfold executed. destruct (Client.executeQuery srv c q) as [[c' ev] err].
  destruct (existsb Session.isExit ev); [reflexivity|].
  destruct (Session.Run srv (Session.start c') rest) as [out e]. reflexivity.
Qed.

(** From a loop with a statement open. *)
Lemma open_statement (srv : DB.Server) (c : Client.Client) (ls : list gostring) :
  forall (b l : gostring) (rest : list Session.reading),
  Forall (fun x => continues x = true) ls -> completes l = true ->
  Session.Run srv (opened c b) (map Session.Line ls ++ Session.Line l :: rest)
  = executed srv c (more :: repeat more (length ls)) (b ++ statement ls l) rest.
Proof.
  induction ls as [|x ls IH]; intros b l rest Hls Hl.
  - cbn [map app Session.Run length repeat].
    rewrite (completes_turn srv (opened c b) l Hl).
    cbn [opened Session.inMultiLine Session.client Session.multiLineBuffer].
    unfold Session.prompt. cbn [opened Session.inMultiLine].
    apply Run_execute.
  - inversion Hls as [|? ? Hx Hls']; subst.
    cbn [map app Session.Run length repeat].
    rewrite (continues_turn srv (opened c b) x Hx).
    cbn [opened Session.client Session.multiLineBuffer].
    rewrite (IH (b ++ TrimSpace x ++ lit " ") l rest Hls' Hl).
    unfold Session.prompt. cbn [opened Session.inMultiLine app].
    rewrite executed_before.
    unfold statement. cbn [map concat]. rewrite <- !app_assoc. reflexivity.
Qed.

(** A statement typed over several lines reaches [executeQuery] once, as
    one text: the lines, each trimmed, joined by single blanks. Nothing is
    sent before the closing line; a directive that closes an open
    statement is joined to it like any other line. After the call the
    loop goes on with no statement open. *)
Theorem statement_accumulates
  (srv : DB.Server) (c : Client.Client) (ls : list gostring) (l : gostring)
  (rest : list Session.reading) :
  Forall (fun x => continues x = true) ls -> completes l = true ->
  Session.Run srv (Session.start c) (map Session.Line ls ++ Session.Line l :: rest)
  = executed srv c (prompts c ls) (statement ls l) rest.
Proof.
  intros Hls Hl. destruct ls as [|x ls].
  - cbn [map app Session.Run]. rewrite (completes_turn srv (Session.start c) l Hl).
    cbn [Session.start Session.inMultiLine Session.client Session.multiLineBuffer].
    unfold Session.prompt. cbn [Session.start Session.inMultiLine Session.client].
    apply Run_execute.
  - inversion Hls as [|? ? Hx Hls']; subst.
    cbn [map app Session.Run]. rewrite (continues_turn srv (Session.start c) x Hx).
    cbn [Session.start Session.client Session.multiLineBuffer app].
    fold (opened c (TrimSpace x ++ lit " ")).
    rewrite (open_statement srv c ls _ l rest Hls' Hl).
    unfold Session.prompt. cbn [Session.inMultiLine Session.client app].
    rewrite executed_before.
    unfold prompts, statement. cbn [map concat length repeat]. rewrite <- !app_assoc.
    reflexivity.
Qed.

Lemma statement_accumulates_witness :
  Session.Run prodServer (Session.start prodClient)
    (map Session.Line [lit "SELECT name"; lit "  FROM users "]
     ++ Session.Line (lit "WHERE id = 1;") :: [])
  = executed prodServer prodClient
      (prompts prodClient [lit "SELECT name"; lit "  FROM users "])
      (statement [lit "SELECT name"; lit "  FROM users "] (lit "WHERE id = 1;")) [].
Proof.
  apply (statement_accumulates prodServer prodClient
           [lit "SELECT name"; lit "  FROM users "] (lit "WHERE id = 1;") []).
  - repeat constructor.
  - reflexivity.
Defined.

(** The text of the open statement after the lines [ls]. *)
Definition pending (ls : list gostring) : gostring :=
  concat (map (fun x => TrimSpace x ++ lit " ") ls).

Lemma open_lines (srv : DB.Server) (c : Client.Client) (ls : list gostring) :
  forall (b : gostring) (tail : list Session.reading),
  Forall (fun x => continues x = true) ls ->
  Session.Run srv (opened c b) (map Session.Line ls ++ tail)
  = let (out, e) := Session.Run srv (opened c (b ++ pending ls)) tail in
    (repeat more (length ls) ++ out, e).
Proof.
  induction ls as [|x ls IH]; intros b tail Hls.
  - cbn [map app length repeat pending concat]. rewrite app_nil_r.
    destruct (Session.Run srv (opened c b) tail). reflexivity.
  - inversion Hls as [|? ? Hx Hls']; subst.
    cbn [map app Session.Run length repeat].
    rewrite (continues_turn srv (opened c b) x Hx).
    cbn [opened Session.client Session.multiLineBuffer].
    rewrite (IH (b ++ TrimSpace x ++ lit " ") tail Hls').
    unfold pending. cbn [map concat]. rewrite <- !app_assoc.
    destruct (Session.Run srv _ tail) as [out e].
    unfold Session.prompt. cbn [opened Session.inMultiLine app]. reflexivity.
Qed.

Lemma first_lines (srv : DB.Server) (c : Client.Client) (x : gostring) (ls : list gostring)
  (tail : list Session.reading) :
  Forall (fun x => continues x = true) (x :: ls) ->
  Session.Run srv (Session.start c) (map Session.Line (x :: ls) ++ tail)
  = let (out, e) := Session.Run srv (opened c (pending (x :: ls))) tail in
    (Session.SetPrompt (Session.getPrompt c) :: repeat more (length ls) ++ out, e).
Proof.
  intros Hls. inversion Hls as [|? ? Hx Hls']; subst.
  cbn [map app Session.Run]. rewrite (continues_turn srv (Session.start c) x Hx).
  cbn [Session.start Session.client Session.multiLineBuffer app].
  fold (opened c (TrimSpace x ++ lit " ")).
  rewrite (open_lines srv c ls _ tail Hls').
  unfold pending. cbn [map concat]. rewrite <- !app_assoc.
  destruct (Session.Run srv _ tail) as [out e].
  unfold Session.prompt. cbn [Session.inMultiLine Session.client app]. reflexivity.
Qed.

Lemma repeat_shift (A : Type) (x : A) (n : nat) (l : list A) :
  repeat x n ++ x :: l = x :: repeat x n ++ l.
Proof. induction n as [|n IH]; [reflexivity|]. simpl. rewrite IH. reflexivity. Qed.

Lemma quit_turn (srv : DB.Server) (s : Session.loop) (q : gostring) :
  Session.quitWord (Session.ToLower (TrimSpace q)) = true ->
  Session.turn srv s (Session.Line q)
  = ([Session.Out (Client.Printed (lit "Bye!" ++ [NL]))], Session.Stop (Session.Returned true)).
Proof.
  intros Hq. unfold Session.turn. cbv zeta.
  destruct (TrimSpace q) as [|a t] eqn:E; [discriminate Hq|].
  cbn [isNil]. rewrite Hq. reflexivity.
Qed.

(** A word of quit ends the session wherever it is typed, in any mix of
    cases: with a statement open, the lines typed so far are dropped,
    nothing is sent to the server, and the lines after it are not read. *)
Theorem quit_ends_session
  (srv : DB.Server) (c : Client.Client) (ls : list gostring) (q : gostring)
  (rest : list Session.reading) :
  Forall (fun x => continues x = true) ls ->
  Session.quitWord (Session.ToLower (TrimSpace q)) = true ->
  Session.Run srv (Session.start c) (map Session.Line ls ++ Session.Line q :: rest)
  = (prompts c ls ++ [Session.Out (Client.Printed (lit "Bye!" ++ [NL]))],
     Session.Returned true).
Proof.
  intros Hls Hq. destruct ls as [|x ls].
  - cbn [map app Session.Run]. rewrite (quit_turn srv _ q Hq). reflexivity.
  - rewrite (first_lines srv c x ls _ Hls).
    cbn [Session.Run]. rewrite (quit_turn srv _ q Hq).
    unfold prompts, Session.prompt. cbn [opened Session.inMultiLine length repeat app].
    fold more. rewrite <- repeat_shift. reflexivity.
Qed.

Lemma quit_ends_session_witness :
  Session.Run prodServer (Session.start prodClient)
    (map Session.Line [lit "SELECT name"] ++ Session.Line (lit " Quit ")
     :: [Session.Line (lit "FROM users;")])
  = (prompts prodClient [lit "SELECT name"]
     ++ [Session.Out (Client.Printed (lit "Bye!" ++ [NL]))],
     Session.Returned true).
Proof.
  apply (quit_ends_session prodServer prodClient [lit "SELECT name"] (lit " Quit ")
           [Session.Line (lit "FROM users;")]).
  - repeat constructor.
  - reflexivity.
Defined.

(** An interrupt drops the open statement: after it the loop goes on as a
    loop that has read nothing, with the client as it was. *)
Theorem interrupt_discards
  (srv : DB.Server) (c : Client.Client) (ls : list gostring) (rest : list Session.reading) :
  ls <> [] -> Forall (fun x => continues x = true) ls ->
  Session.Run srv (Session.start c) (map Session.Line ls ++ Session.Interrupt :: rest)
  = let (out, e) := Session.Run srv (Session.start c) rest in
    (prompts c ls ++ Session.Out (Client.Printed [NL]) :: out, e).
Proof.
  intros Hne Hls. destruct ls as [|x ls]; [contradiction|].
  rewrite (first_lines srv c x ls _ Hls).
  cbn [Session.Run Session.turn opened Session.inMultiLine Session.client].
  fold (Session.start c).
  destruct (Session.Run srv (Session.start c) rest) as [out e].
  unfold prompts, Session.prompt. cbn [opened Session.inMultiLine length repeat app].
  fold more. rewrite <- repeat_shift. reflexivity.
Qed.

Lemma interrupt_discards_witness :
  Session.Run prodServer (Session.start prodClient)
    (map Session.Line [lit "SELECT name"] ++ Session.Interrupt :: [Session.Line (lit "\x")])
  = let (out, e) :=
      Session.Run prodServer (Session.start prodClient) [Session.Line (lit "\x")] in
    (prompts prodClient [lit "SELECT name"] ++ Session.Out (Client.Printed [NL]) :: out, e).
Proof.
  apply (interrupt_discards prodServer prodClient [lit "SELECT name"] [Session.Line (lit "\x")]).
  - discriminate.
  - repeat constructor.
Defined.

(** *** The prompt *)

(** The prompt names the database of the last switch that succeeded:
    after a dispatch of [use_database n] without error it shows [n], and
    after one that failed it is the prompt of before. *)
Theorem prompt_after_switch
  (srv : DB.Server) (c c' : Client.Client) (n : gostring) (rest : list gostring)
  (ev : list Client.event) (err : option DB.error) :
  n <> [] ->
  Client.handleSpecialCommand srv c (special (lit "use_database") (n :: rest)) = (c', ev, err) ->
  Session.getPrompt c'
  = match err with
    | None => lit "mygo [" ++ n ++ lit "]> "
    | Some _ => Session.getPrompt c
    end.
Proof.
  intros Hn. unfold Client.handleSpecialCommand. cbv zeta.
  change (Client.kindIs _ "use_database") with true. cbv iota. simpl Args. cbv iota.
  destruct (DB.SetDatabase srv (Client.conn c) n) as [[printed k] [e|]].
  - intros [= <- _ <-]. reflexivity.
  - intros [= <- _ <-]. unfold Session.getPrompt. cbv zeta.
    cbn [Client.setDatabase Client.setConn Client.config Client.withDatabase Client.Database].
    assert (E : isNil n = false) by (destruct n; [contradiction|reflexivity]).
    rewrite E. cbn. reflexivity.
Qed.

Lemma prompt_after_switch_witness :
  Session.getPrompt
    (fst (fst (Client.handleSpecialCommand prodServer prodClient
                 (special (lit "use_database") [lit "nosuchdb"]))))
  = Session.getPrompt prodClient.
Proof.
  apply (prompt_after_switch prodServer prodClient _ (lit "nosuchdb") []
           [Client.Printed (DB.connecting (DB.withDatabase prodConfig (lit "nosuchdb")))]
           (Some (DB.ConnectFailed (DB.withDatabase prodConfig (lit "nosuchdb"))))).
  - discriminate.
  - reflexivity.
Defined.

(** ** The fixed phrases, in any mix of cases *)

Definition some (A : Type) (x : option A) : bool :=
  match x with Some _ => true | None => false end.
Arguments some {A} x.

Lemma upperByte_fold (a : ascii) :
  isAscii a = true -> foldKey (code (upperByte a)) = foldKey (code a).
Proof. ascii_cases a; intros H; first [discriminate H | reflexivity]. Qed.

Lemma upperByte_class (k : class) (a : ascii) :
  isAscii a = true -> inClass k (upperByte a) = inClass k a.
Proof. destruct k; ascii_cases a; intros H; first [discriminate H | reflexivity]. Qed.

Lemma upperByte_ascii (a : ascii) : isAscii a = true -> isAscii (upperByte a) = true.
Proof. ascii_cases a; intros H; first [discriminate H | reflexivity]. Qed.

Lemma upperByte_plain (a : ascii) :
  isAscii a = true -> plain (upperByte a) = plain a.
Proof. ascii_cases a; intros H; first [discriminate H | reflexivity]. Qed.

Lemma upperByte_eqb (a : ascii) (c : ascii) :
  isAscii a = true -> isWord c = false ->
  Ascii.eqb (upperByte a) c = Ascii.eqb a c.
Proof.
  intros Ha Hc.
  destruct (Ascii.eqb a c) eqn:E.
  - apply Ascii.eqb_eq in E. subst c. revert Ha Hc.
    ascii_cases a; intros Ha Hc; first [discriminate Ha | discriminate Hc | reflexivity].
  - destruct (Ascii.eqb (upperByte a) c) eqn:E'; [|reflexivity].
    apply Ascii.eqb_eq in E'. subst c. revert Ha Hc E.
    ascii_cases a; intros Ha Hc E;
      first [discriminate Ha | discriminate Hc | discriminate E].
Qed.

Lemma lead_ascii (k : class) (a : ascii) : isAscii a = true -> lead k a = false.
Proof. destruct k; ascii_cases a; intros H; first [discriminate H | reflexivity]. Qed.

Lemma matchLit_text (c a : ascii) (s : gostring) :
  isAscii a = true ->
  matchLit c (a :: s)
  = if (foldKey (code a) =? foldKey (code c))%N then Some s else None.
Proof.
  intros Ha. unfold matchLit. rewrite (DecodeRune_ascii a s Ha). reflexivity.
Qed.

(** Whether a pattern matches does not depend on the case of the letters
    of an ASCII text. *)
Lemma starClass_upper (A B : Type) (k : class) (s : gostring) :
  asciiText s ->
  forall (cont : gostring -> option A) (cont' : gostring -> option B),
  (forall t, asciiText t -> some (cont t) = some (cont' (map upperByte t))) ->
  some (starClass k s cont) = some (starClass k (map upperByte s) cont').
Proof.
  induction 1 as [|a s Ha Hs IH]; intros cont cont' Hc.
  - exact (Hc [] (Forall_nil _)).
  - cbn [map starClass]. rewrite (upperByte_class k a Ha).
    rewrite (lead_ascii k a Ha), (lead_ascii k (upperByte a) (upperByte_ascii a Ha)).
    pose proof (Hc (a :: s) (Forall_cons _ Ha Hs)) as Hhere. cbn [map] in Hhere.
    destruct (inClass k a); [|exact Hhere].
    pose proof (IH cont cont' Hc) as Hrest.
    destruct (starClass k s cont), (starClass k (map upperByte s) cont');
      first [reflexivity | discriminate Hrest | exact Hhere].
Qed.

Lemma rmatch_upper (r : regex) :
  forall (s : gostring) (cs cs' : captures)
         (cont cont' : gostring -> captures -> option captures),
  asciiText s ->
  (forall t d d', asciiText t -> some (cont t d) = some (cont' (map upperByte t) d')) ->
  some (rmatch r s cs cont) = some (rmatch r (map upperByte s) cs' cont').
Proof.
  induction r as [|c|k|k|r1 IH1|r1 IH1 r2 IH2|r1 IH1 r2 IH2|n r1 IH1];
    intros s cs cs' cont cont' Hs Hc.
  - exact (Hc s cs cs' Hs).
  - destruct Hs as [|a s Ha Hs].
    + cbn [map rmatch]. unfold matchLit. destruct (DecodeRune []) as [x w].
      destruct (foldKey x =? foldKey (code c))%N; [|reflexivity].
      rewrite skipn_nil. exact (Hc [] cs cs' (Forall_nil _)).
    + cbn [map rmatch].
      rewrite (matchLit_text c a s Ha).
      rewrite (matchLit_text c (upperByte a) (map upperByte s) (upperByte_ascii a Ha)).
      rewrite (upperByte_fold a Ha).
      destruct (foldKey (code a) =? foldKey (code c))%N; [|reflexivity].
      exact (Hc s cs cs' Hs).
  - cbn [rmatch]. destruct Hs as [|a s Ha Hs]; [reflexivity|].
    cbn [map]. unfold plusClass. rewrite (upperByte_class k a Ha).
    rewrite (lead_ascii k a Ha), (lead_ascii k (upperByte a) (upperByte_ascii a Ha)).
    destruct (inClass k a); [|reflexivity].
    apply starClass_upper; [exact Hs|]. intros t Ht. exact (Hc t cs cs' Ht).
  - cbn [rmatch]. apply starClass_upper; [exact Hs|].
    intros t Ht. exact (Hc t cs cs' Ht).
  - cbn [rmatch]. pose proof (IH1 s cs cs' cont cont' Hs Hc) as H1.
    destruct (rmatch r1 s cs cont), (rmatch r1 (map upperByte s) cs' cont');
      first [reflexivity | discriminate H1 | exact (Hc s cs cs' Hs)].
  - cbn [rmatch]. apply IH1; [exact Hs|].
    intros t d d' Ht. apply IH2; [exact Ht|exact Hc].
  - cbn [rmatch]. pose proof (IH1 s cs cs' cont cont' Hs Hc) as H1.
    destruct (rmatch r1 s cs cont), (rmatch r1 (map upperByte s) cs' cont');
      first [reflexivity | discriminate H1 | exact (IH2 s cs cs' cont cont' Hs Hc)].
  - cbn [rmatch]. apply IH1; [exact Hs|].
    intros t d d' Ht. apply Hc. exact Ht.
Qed.

Lemma found_upper (re : regex) (s : gostring) :
  asciiText s -> found re s = found re (map upperByte s).
Proof.
  intros Hs. unfold found, FindStringSubmatch.
  pose proof (rmatch_upper re s [] [] atEnd atEnd Hs) as H.
  assert (Hend : forall t d d', asciiText t ->
            some (atEnd t d) = some (atEnd (map upperByte t) d')).
  { intros t d d' _. destruct t; reflexivity. }
  specialize (H Hend).
  destruct (rmatch re s [] atEnd), (rmatch re (map upperByte s) [] atEnd);
    first [reflexivity | discriminate H].
Qed.

Lemma not_found (re : regex) (s : gostring) :
  asciiText s -> found re (map upperByte s) = false -> FindStringSubmatch re s = None.
Proof.
  intros Hs H. rewrite <- (found_upper re s Hs) in H. unfold found in H.
  destruct (FindStringSubmatch re s); [discriminate H|reflexivity].
Qed.

Lemma last_map (A B : Type) (f : A -> B) (l : list A) (d : A) :
  last (map f l) (f d) = f (last l d).
Proof.
  induction l as [|a l IH]; [reflexivity|].
  destruct l as [|b l]; [reflexivity|]. exact IH.
Qed.

Lemma last_in (A : Type) (P : A -> Prop) (l : list A) (d : A) :
  Forall P l -> l <> [] -> P (last l d).
Proof.
  intros H Hne. induction H as [|a l Ha Hl IH]; [contradiction|].
  destruct l as [|b l]; [exact Ha|]. apply IH. discriminate.
Qed.

Lemma TrimSpace_by_upper (v : gostring) :
  asciiText v -> plainEnds (map upperByte v) = true -> TrimSpace v = v.
Proof.
  intros Hv Hp. destruct v as [|c s]; [discriminate Hp|].
  inversion Hv as [|? ? Hc Hs]; subst.
  unfold plainEnds in Hp. cbn [map] in Hp.
  apply andb_true_iff in Hp. destruct Hp as [Hh Hl].
  rewrite (upperByte_plain c Hc) in Hh.
  change (upperByte c :: map upperByte s) with (map upperByte (c :: s)) in Hl.
  rewrite (last_map _ _ upperByte (c :: s) c) in Hl.
  rewrite upperByte_plain in Hl by (apply (last_in _ _ (c :: s) c Hv); discriminate).
  destruct s as [|b s].
  - unfold TrimSpace. rewrite (TrimLeft_plain c [] Hh).
    exact (TrimRight_plain_last c [] Hh).
  - change (last (c :: b :: s) c) with (last (b :: s) c) in Hl.
    rewrite (ends_split _ c (b :: s)) by discriminate.
    apply TrimSpace_plain_ends; assumption.
Qed.

Lemma HasSuffix_by_upper (v : gostring) :
  asciiText v ->
  HasSuffix (map upperByte v) (lit ";") = false -> HasSuffix v (lit ";") = false.
Proof.
  intros Hv. unfold HasSuffix. rewrite <- map_rev.
  assert (Hr : asciiText (rev v)) by (apply Forall_rev; exact Hv).
  destruct (rev v) as [|a t]; [intros _; reflexivity|].
  inversion Hr as [|? ? Ha _]; subst.
  cbn. rewrite (upperByte_eqb a ";" Ha eq_refl). intros H; exact H.
Qed.

(** The phrases that stand for one fixed query each. *)
Definition fixedRules : list (gostring * gostring) :=
  [ (lit "SHOW DATABASES", sqlShowDatabases);
    (lit "SHOW TABLES", sqlShowTables);
    (lit "SHOW FULL TABLES", sqlShowFullTables);
    (lit "SHOW STATUS", sqlShowStatus);
    (lit "SHOW VARIABLES", sqlShowVariables);
    (lit "SHOW GLOBAL VARIABLES", sqlShowVariables);
    (lit "SHOW PROCESSLIST", sqlShowProcesslist);
    (lit "SHOW FULL PROCESSLIST", sqlShowProcesslist);
    (lit "SHOW GRANTS", sqlShowGrants);
    (lit "SHOW TABLE STATUS", sqlShowTableStatus);
    (lit "SHOW SCHEMAS", sqlShowSchemas);
    (lit "SHOW TRIGGERS", sqlShowTriggers);
    (lit "SHOW FUNCTION STATUS", sqlShowRoutines);
    (lit "SHOW PROCEDURE STATUS", sqlShowRoutines);
    (lit "SHOW ENGINES", sqlShowEngines);
    (lit "SHOW CHARSET", sqlShowCharset);
    (lit "SHOW CHARACTER SET", sqlShowCharset);
    (lit "SHOW COLLATION", sqlShowCollation);
    (lit "SHOW WARNINGS", sqlShowWarnings);
    (lit "SHOW ERRORS", sqlShowWarnings);
    (lit "SELECT DATABASE()", sqlSelectDatabase);
    (lit "SELECT VERSION()", sqlSelectVersion);
    (lit "SELECT USER()", sqlSelectUser);
    (lit "SELECT CURRENT_USER()", sqlSelectUser);
    (lit "SELECT NOW()", sqlSelectNow) ].

(** The rule chain on a command [v] that reads the phrase in upper case:
    no pattern matches it, and every test is decided on the phrase. *)
Ltac decide_rule :=
  lazymatch goal with
  | |- (if ?b then _ else _) = _ =>
    let r := eval vm_compute in b in
    change b with r; cbv iota
  end.

Ltac on_phrase v Hv Hu :=
  repeat match goal with
  | |- context [FindStringSubmatch ?re v] =>
    rewrite (not_found re v Hv) by (rewrite Hu; vm_compute; reflexivity)
  end;
  rewrite Hu; do 4 help_fails; cbv iota;
  repeat decide_rule; reflexivity.

Lemma fixed_rule (v input p q : gostring) :
  asciiText v -> map upperByte v = p -> TrimSuffix input (lit ";") = v ->
  In (p, q) fixedRules ->
  translateForPostgres input = Ok (query q).
Proof.
  intros Hv Hu Hi Hin.
  assert (Ht : TrimSpace v = v).
  { apply (TrimSpace_by_upper v Hv). rewrite Hu.
    unfold fixedRules in Hin. simpl in Hin.
    repeat (destruct Hin as [[= <- _]|Hin]; [reflexivity|]). contradiction. }
  unfold translateForPostgres. cbv zeta. rewrite Hi.
  unfold handleHelpCommands. cbv zeta. rewrite Ht, (ToUpper_text v Hv).
  unfold fixedRules in Hin. simpl in Hin.
  repeat (destruct Hin as [[= Hp <-]|Hin];
          [ rewrite <- Hp in Hu; on_phrase v Hv Hu | ]).
  contradiction.
Qed.

Lemma phrase_shape (v p q : gostring) :
  asciiText v -> map upperByte v = p -> In (p, q) fixedRules ->
  TrimSpace v = v /\ v <> [] /\ HasSuffix v (lit ";") = false.
Proof.
  intros Hv Hu Hin. unfold fixedRules in Hin. simpl in Hin.
  assert (Hp : plainEnds p = true /\ HasSuffix p (lit ";") = false).
  { repeat (destruct Hin as [[= <- _]|Hin]; [split; reflexivity|]). contradiction. }
  destruct Hp as [Hp Hs]. rewrite <- Hu in Hp, Hs. split; [|split].
  - exact (TrimSpace_by_upper v Hv Hp).
  - intros E. subst v. discriminate Hp.
  - exact (HasSuffix_by_upper v Hv Hs).
Qed.

(** Each of the twenty-five fixed phrases yields its query in any mix of
    upper and lower case, with and without the terminator: a command of
    ASCII characters whose upper case is the phrase is decided by the
    phrase, and none of the patterns tested before it takes it. *)
Theorem fixed_phrase_any_case (v p q : gostring) :
  asciiText v -> ToUpper v = p -> In (p, q) fixedRules ->
  Translate pg v = Ok (query q)
  /\ Translate pg (v ++ lit ";") = Ok (query q).
Proof.
  intros Hv Hu Hin. rewrite (ToUpper_text v Hv) in Hu.
  destruct (phrase_shape v p q Hv Hu Hin) as [Ht [Hne Hs]].
  rewrite !Translate_pg. rewrite (TrimSpace_terminated v Ht Hne), Ht. split.
  - apply (fixed_rule v v p q Hv Hu); [|exact Hin]. apply TrimSuffix_absent. exact Hs.
  - apply (fixed_rule v (v ++ lit ";") p q Hv Hu); [|exact Hin].
    exact (TrimSuffix_same v ";").
Qed.

Lemma fixed_phrase_any_case_witness :
  Translate pg (lit "show table Status") = Ok (query sqlShowTableStatus)
  /\ Translate pg (lit "show table Status" ++ lit ";") = Ok (query sqlShowTableStatus).
Proof.
  apply (fixed_phrase_any_case (lit "show table Status") (lit "SHOW TABLE STATUS")).
  - repeat constructor.
  - reflexivity.
  - simpl. tauto.
Defined.
